(** * weapon.py: fire modes, the modifier pipeline and the trigger

    A shallow embedding of [src/weapon.py] and the properties of its
    specification.

    Numbers.  Python floats and ints are read as exact rationals ([Qc]):
    rounding error of the binary64 format is outside this development.
    A numpy value can be [nan] without an exception being raised, so array
    elements and the numpy scalars computed from arrays are [option Qc],
    [None] standing for [nan].  A Python scalar division by zero raises
    [ZeroDivisionError].

    Objects.  Methods mutate [self]; they are functions in a state and
    exception monad whose state is the object (and the simulation). *)

From Stdlib Require Import ZArith QArith Qcanon Qround Lia Lqa.
From stdpp Require Import base option list gmap strings numbers.

Open Scope Qc_scope.

(** ** Python numbers *)

(** [round(x, 0)] and [np.round(x, 0)]: to the nearest integer, a tie to
    the even one. *)
Definition round_half_even (x : Qc) : Z :=
  let f := Qfloor x in
  let d := x - Qc_of_Z f in
  if bool_decide (d < 1 / Qc_of_Z 2) then f
  else if bool_decide (1 / Qc_of_Z 2 < d) then (f + 1)%Z
  else if Z.even f then f else (f + 1)%Z.

Definition py_round (x : Qc) : Qc := Qc_of_Z (round_half_even x).

(** [int(x)] truncates towards zero. *)
Definition py_int (x : Qc) : Z :=
  if bool_decide (0 <= x) then Qfloor x else Qceiling x.

(** [x % 1]: the result has the sign of the divisor, so it is [x - floor x]. *)
Definition py_mod1 (x : Qc) : Qc := x - Qc_of_Z (Qfloor x).

(** [max(a, b)] keeps its first argument unless the second is greater. *)
Definition py_max (a b : Qc) : Qc := if bool_decide (a < b) then b else a.

(** [int(b)] of a boolean. *)
Definition int_of_bool (b : bool) : Z := if b then 1%Z else 0%Z.

(** ** Exceptions and the state monad *)

Inductive exn : Set :=
  | ZeroDivisionError
  | IndexError
  | KeyError
  | ValueError
  | AttributeError.

Inductive res (A : Type) : Type :=
  | Ok (a : A)
  | Raise (e : exn).
Arguments Ok {A} a.
Arguments Raise {A} e.

(** A computation on a mutable state [S]: the state reached is kept when an
    exception is raised, as the assignments already made are in Python. *)
Definition M (S A : Type) : Type := S -> res A * S.

Definition ret {S A} (a : A) : M S A := fun s => (Ok a, s).

Definition bind {S A B} (m : M S A) (k : A -> M S B) : M S B :=
  fun s => match m s with
           | (Ok a, s') => k a s'
           | (Raise e, s') => (Raise e, s')
           end.

Definition raise {S A} (e : exn) : M S A := fun s => (Raise e, s).
Definition get {S} : M S S := fun s => (Ok s, s).
Definition modify {S} (f : S -> S) : M S unit := fun s => (Ok tt, f s).
Definition lift {S A} (r : res A) : M S A := fun s => (r, s).

Notation "x <- m ;; k" := (bind m (fun x => k))
  (at level 100, m at next level, right associativity,
   format "'[v' x  <-  m  ;;  '/' k ']'").
Notation "m ;;; k" := (bind m (fun _ => k))
  (at level 100, right associativity,
   format "'[v' m  ;;;  '/' k ']'").

(** Python scalar division. *)
Definition py_div (x y : Qc) : res Qc :=
  if bool_decide (y = 0) then Raise ZeroDivisionError else Ok (x / y).

(** [d[k]] on a dict with string keys. *)
Definition getitem (d : gmap string Qc) (k : string) : res Qc :=
  match d !! k with
  | Some v => Ok v
  | None => Raise KeyError
  end.

(** ** numpy arrays *)

Abbreviation npfloat := (option Qc) (only parsing).
Abbreviation ndarray := (list (option Qc)) (only parsing).

Definition nadd (a b : npfloat) : npfloat :=
  match a, b with Some x, Some y => Some (x + y) | _, _ => None end.

Definition nmul (a b : npfloat) : npfloat :=
  match a, b with Some x, Some y => Some (x * y) | _, _ => None end.

(** A numpy division by zero gives [inf] or [nan] and a warning, not an
    exception.  The only divisor here that can be zero is [quanta], and its
    quotient is multiplied by [quanta] right after, which gives [nan] from
    [inf] too: the quotient by zero is [None]. *)
Definition ndiv (a b : npfloat) : npfloat :=
  match a, b with
  | Some x, Some y => if bool_decide (y = 0) then None else Some (x / y)
  | _, _ => None
  end.

Definition nround (a : npfloat) : npfloat := py_round <$> a.

(** [a > b]: false when either side is [nan]. *)
Definition ngt (a b : npfloat) : bool :=
  match a, b with Some x, Some y => bool_decide (y < x) | _, _ => false end.

(** [max(a, b)] on numpy scalars. *)
Definition nmax (a b : npfloat) : npfloat := if ngt b a then b else a.

(** The builtin [sum(a)]: [0 + a[0] + a[1] + ...]. *)
Definition py_sum (a : ndarray) : npfloat := foldl nadd (Some 0) a.

Definition np_array (l : list Qc) : ndarray := Some <$> l.
Definition np_zeros (n : nat) : ndarray := replicate n (Some 0).

(** [a * s], [a / s] with a scalar [s]. *)
Definition arr_scale (a : ndarray) (s : npfloat) : ndarray :=
  (fun x => nmul x s) <$> a.
Definition arr_div (a : ndarray) (s : npfloat) : ndarray :=
  (fun x => ndiv x s) <$> a.
Definition arr_round (a : ndarray) : ndarray := nround <$> a.

(** [a + b] on one-dimensional arrays: equal lengths, or one of length 1
    that is broadcast; [ValueError] otherwise. *)
Definition arr_add (a b : ndarray) : res ndarray :=
  if bool_decide (length a = length b) then Ok (zip_with nadd a b)
  else match a, b with
       | [x], _ => Ok (nadd x <$> b)
       | _, [y] => Ok ((fun x => nadd x y) <$> a)
       | _, _ => Raise ValueError
       end.

(** [a[i]] for a constant index [i >= 0]. *)
Definition arr_get (a : ndarray) (i : nat) : res npfloat :=
  match a !! i with
  | Some v => Ok v
  | None => Raise IndexError
  end.

(** [a[i] = v], in place. *)
Definition arr_set (a : ndarray) (i : nat) (v : npfloat) : res ndarray :=
  if bool_decide (i < length a)%nat then Ok (<[i := v]> a)
  else Raise IndexError.

(** ** The Parameter family *)

(** [class Parameter] *)
Record Parameter_t : Type :=
  mkParameter { p_base : Qc; p_modded : Qc }.

Definition Parameter_init (b : Qc) : Parameter_t :=
  {| p_base := b; p_modded := b |}.
Definition Parameter_reset (p : Parameter_t) : Parameter_t :=
  {| p_base := p_base p; p_modded := p_base p |}.
Definition p_set_base (v : Qc) (p : Parameter_t) : Parameter_t :=
  {| p_base := v; p_modded := p_modded p |}.
Definition p_set_modded (v : Qc) (p : Parameter_t) : Parameter_t :=
  {| p_base := p_base p; p_modded := v |}.

(** [class ModifyParameter] *)
Record ModifyParameter : Type :=
  mkModifyParameter { mp_base : Qc; mp_modded : Qc; mp_current : Qc }.

Definition ModifyParameter_init (b : Qc) : ModifyParameter :=
  {| mp_base := b; mp_modded := b; mp_current := b |}.
Definition mp_set_modded (v : Qc) (p : ModifyParameter) : ModifyParameter :=
  {| mp_base := mp_base p; mp_modded := v; mp_current := mp_current p |}.
Definition mp_set_current (v : Qc) (p : ModifyParameter) : ModifyParameter :=
  {| mp_base := mp_base p; mp_modded := mp_modded p; mp_current := v |}.

(** [self.modded = self.base; self.current = self.modded] *)
Definition ModifyParameter_reset (p : ModifyParameter) : ModifyParameter :=
  let p1 := mp_set_modded (mp_base p) p in
  mp_set_current (mp_modded p1) p1.

(** [class DamageParameter] holds three references to arrays.  The
    constructor and [reset] bind [modded] and [quantized] to the array
    object of [base]; [apply_mods] binds them to arrays fresh from a numpy
    expression.  A reference is therefore either an alias of the [base]
    array or the only reference to an array of its own, and a write
    through an alias is a write to [base]. *)
Inductive array_ref : Type :=
  | SameAsBase
  | Own (a : ndarray).

Record DamageParameter : Type :=
  mkDamageParameter { dp_base : ndarray; dp_modded : array_ref; dp_quantized : array_ref }.

Definition dp_deref (p : DamageParameter) (r : array_ref) : ndarray :=
  match r with SameAsBase => dp_base p | Own a => a end.

(** The contents of [self.modded] and of [self.quantized]. *)
Definition modded_array (p : DamageParameter) : ndarray := dp_deref p (dp_modded p).
Definition quantized_array (p : DamageParameter) : ndarray := dp_deref p (dp_quantized p).

Definition DamageParameter_init (b : ndarray) : DamageParameter :=
  {| dp_base := b; dp_modded := SameAsBase; dp_quantized := SameAsBase |}.

Definition DamageParameter_reset (p : DamageParameter) : DamageParameter :=
  {| dp_base := dp_base p; dp_modded := SameAsBase; dp_quantized := SameAsBase |}.

(** [self.modded = a], [self.quantized = a] with [a] a fresh array. *)
Definition bind_modded (a : ndarray) (p : DamageParameter) : DamageParameter :=
  {| dp_base := dp_base p; dp_modded := Own a; dp_quantized := dp_quantized p |}.
Definition bind_quantized (a : ndarray) (p : DamageParameter) : DamageParameter :=
  {| dp_base := dp_base p; dp_modded := dp_modded p; dp_quantized := Own a |}.

(** The array object behind [modded] (behind [quantized]) gets the
    contents [a]. *)
Definition store_modded (a : ndarray) (p : DamageParameter) : DamageParameter :=
  match dp_modded p with
  | SameAsBase => {| dp_base := a; dp_modded := SameAsBase; dp_quantized := dp_quantized p |}
  | Own _ => {| dp_base := dp_base p; dp_modded := Own a; dp_quantized := dp_quantized p |}
  end.
Definition store_quantized (a : ndarray) (p : DamageParameter) : DamageParameter :=
  match dp_quantized p with
  | SameAsBase => {| dp_base := a; dp_modded := dp_modded p; dp_quantized := SameAsBase |}
  | Own _ => {| dp_base := dp_base p; dp_modded := dp_modded p; dp_quantized := Own a |}
  end.

(** [self.modded[i] = v] *)
Definition setitem_modded (i : nat) (v : npfloat) (p : DamageParameter) : res DamageParameter :=
  match arr_set (modded_array p) i v with
  | Ok a => Ok (store_modded a p)
  | Raise e => Raise e
  end.

(** [multiply]: [self.modded *= val; self.quantized *= val], both in place. *)
Definition DamageParameter_multiply (val : Qc) (p : DamageParameter) : DamageParameter :=
  let p1 := store_modded (arr_scale (modded_array p) (Some val)) p in
  store_quantized (arr_scale (quantized_array p1) (Some val)) p1.

(** ** The raw data record

    [ExportWeapons.json] as loaded by [json.load]: a key that can be absent
    is an [option], a JSON object whose keys are iterated is an association
    list in the order of the file. *)

Record EffectData : Type := mkEffectData {
  e_damagePerShot : option (list Qc);
  e_criticalChance : option Qc;
  e_criticalMultiplier : option Qc;
  e_procChance : option Qc;
  e_multishot : option Qc;
  e_embedDelay : option Qc;
  e_forcedProc : option (list Z)
}.

Record FireModeData : Type := mkFireModeData {
  d_secondaryEffects : option (list (string * EffectData));
  d_trigger : option string;
  d_damagePerShot : option (list Qc);
  d_criticalChance : option Qc;
  d_criticalMultiplier : option Qc;
  d_procChance : option Qc;
  d_magazineSize : option Qc;
  d_fireRate : option Qc;
  d_reloadTime : option Qc;
  d_multishot : option Qc;
  d_ammoCost : option Qc;
  d_chargeTime : option Qc;
  d_embedDelay : option Qc;
  d_forcedProc : option (list Z)
}.

Record WeaponData : Type := mkWeaponData {
  wd_rivenType : option string;
  wd_fireModes : option (list (string * FireModeData))
}.

(** [d[k]] on a JSON object. *)
Fixpoint assoc {A} (k : string) (l : list (string * A)) : option A :=
  match l with
  | [] => None
  | (k', v) :: l' => if bool_decide (k = k') then Some v else assoc k l'
  end.

(** ** Fire mode effects *)

(** A field of a [FireModeEffect] read with [self.data.get(key, default)]
    where the default is an attribute of the parent fire mode: the value of
    the data record, or the parameter object that the constructor has read
    from the parent (which [np.array] wraps as it is for [damagePerShot]).
    Python binds the parent's object itself; [FromParent] holds the object
    as it is when the constructor reads it. *)
Inductive inherited (V P : Type) : Type :=
  | FromData (v : V)
  | FromParent (p : P).
Arguments FromData {V P} v.
Arguments FromParent {V P} p.

Record FireModeEffect : Type := mkFireModeEffect {
  fme_name : string;
  fme_next_event_timestamp : Qc;
  fme_data : EffectData;
  fme_damagePerShot : inherited ndarray DamageParameter;
  fme_criticalChance : inherited Qc Parameter_t;
  fme_criticalMultiplier : inherited Qc Parameter_t;
  fme_procChance : inherited Qc Parameter_t;
  fme_multishot : Qc;
  fme_embedDelay : Qc;
  fme_forcedProc : list Z
}.

(** ** Modifier buckets

    The dicts [self.*_m] of a fire mode, grouped in one record. *)
Record Buckets : Type := mkBuckets {
  damagePerShot_m : gmap string Qc;
  bonusDamagePerShot_m : gmap string Qc;
  criticalChance_m : gmap string Qc;
  criticalMultiplier_m : gmap string Qc;
  procChance_m : gmap string Qc;
  magazineSize_m : gmap string Qc;
  fireRate_m : gmap string Qc;
  reloadTime_m : gmap string Qc;
  multishot_m : gmap string Qc;
  heat_m : gmap string Qc;
  cold_m : gmap string Qc;
  electric_m : gmap string Qc;
  toxin_m : gmap string Qc;
  blast_m : gmap string Qc;
  radiation_m : gmap string Qc;
  gas_m : gmap string Qc;
  magnetic_m : gmap string Qc;
  viral_m : gmap string Qc;
  corrosive_m : gmap string Qc;
  impact_m : gmap string Qc;
  puncture_m : gmap string Qc;
  slash_m : gmap string Qc;
  statusDuration_m : gmap string Qc;
  factionDamage_m : gmap string Qc;
  ammoCost_m : gmap string Qc
}.

(** The dict literals of [FireMode.__init__]. *)
Definition default_buckets : Buckets := {|
  damagePerShot_m := list_to_map [("base", 0); ("condition_overload_base", 0); ("condition_overload_multiplier", 0); ("direct", 0); ("final_multiplier", 1); ("multishot_multiplier", 1)];
  bonusDamagePerShot_m := list_to_map [("additive_base", 0)];
  criticalChance_m := list_to_map [("base", 0); ("additive_base", 0); ("additive_final", 0); ("covenant", 0); ("deadly_munitions", 1)];
  criticalMultiplier_m := list_to_map [("base", 0); ("additive_base", 0); ("additive_final", 0); ("final_multiplier", 1)];
  procChance_m := list_to_map [("base", 0); ("additive_base", 0); ("additive_final", 0); ("final_multiplier", 1); ("multishot_multiplier", 1)];
  magazineSize_m := list_to_map [("base", 0)];
  fireRate_m := list_to_map [("base", 0); ("final_multiplier", 1)];
  reloadTime_m := list_to_map [("base", 0)];
  multishot_m := list_to_map [("base", 0)];
  heat_m := list_to_map [("base", 0); ("uncombinable", 0)];
  cold_m := list_to_map [("base", 0); ("uncombinable", 0)];
  electric_m := list_to_map [("base", 0); ("uncombinable", 0)];
  toxin_m := list_to_map [("base", 0); ("uncombinable", 0)];
  blast_m := list_to_map [("base", 0)];
  radiation_m := list_to_map [("base", 0)];
  gas_m := list_to_map [("base", 0)];
  magnetic_m := list_to_map [("base", 0)];
  viral_m := list_to_map [("base", 0)];
  corrosive_m := list_to_map [("base", 0)];
  impact_m := list_to_map [("base", 0); ("stance", 0)];
  puncture_m := list_to_map [("base", 0); ("stance", 0)];
  slash_m := list_to_map [("base", 0); ("stance", 0)];
  statusDuration_m := list_to_map [("base", 0)];
  factionDamage_m := list_to_map [("base", 0)];
  ammoCost_m := list_to_map [("base", 0); ("energized_munitions", 0)]
|}.

Definition set_damagePerShot_m (v : gmap string Qc) (s : Buckets) : Buckets :=
  mkBuckets v (bonusDamagePerShot_m s) (criticalChance_m s) (criticalMultiplier_m s) (procChance_m s) (magazineSize_m s) (fireRate_m s) (reloadTime_m s) (multishot_m s) (heat_m s) (cold_m s) (electric_m s) (toxin_m s) (blast_m s) (radiation_m s) (gas_m s) (magnetic_m s) (viral_m s) (corrosive_m s) (impact_m s) (puncture_m s) (slash_m s) (statusDuration_m s) (factionDamage_m s) (ammoCost_m s).
Definition set_heat_m (v : gmap string Qc) (s : Buckets) : Buckets :=
  mkBuckets (damagePerShot_m s) (bonusDamagePerShot_m s) (criticalChance_m s) (criticalMultiplier_m s) (procChance_m s) (magazineSize_m s) (fireRate_m s) (reloadTime_m s) (multishot_m s) v (cold_m s) (electric_m s) (toxin_m s) (blast_m s) (radiation_m s) (gas_m s) (magnetic_m s) (viral_m s) (corrosive_m s) (impact_m s) (puncture_m s) (slash_m s) (statusDuration_m s) (factionDamage_m s) (ammoCost_m s).
Definition set_procChance_m (v : gmap string Qc) (s : Buckets) : Buckets :=
  mkBuckets (damagePerShot_m s) (bonusDamagePerShot_m s) (criticalChance_m s) (criticalMultiplier_m s) v (magazineSize_m s) (fireRate_m s) (reloadTime_m s) (multishot_m s) (heat_m s) (cold_m s) (electric_m s) (toxin_m s) (blast_m s) (radiation_m s) (gas_m s) (magnetic_m s) (viral_m s) (corrosive_m s) (impact_m s) (puncture_m s) (slash_m s) (statusDuration_m s) (factionDamage_m s) (ammoCost_m s).

(** ** Fire modes *)

Record FireMode : Type := mkFireMode {
  name : string;
  data : FireModeData;
  fire_mode_effects : list FireModeEffect;
  attack_index : Z;
  trigger : string;
  damagePerShot : DamageParameter;
  elementalDamagePerShot : DamageParameter;
  criticalChance : Parameter_t;
  criticalMultiplier : Parameter_t;
  procChance : Parameter_t;
  procProbabilities : ndarray;
  procCumulativeProbabilities : ndarray + Z;
  magazineSize : ModifyParameter;
  fireRate : Parameter_t;
  reloadTime : Parameter_t;
  multishot : Parameter_t;
  ammoCost : Parameter_t;
  chargeTime : Parameter_t;
  embedDelay : Parameter_t;
  forcedProc : list Z;
  radial : bool;
  mods : Buckets;
  refresh : bool
}.

Definition set_attack_index (v : Z) (s : FireMode) : FireMode :=
  mkFireMode (name s) (data s) (fire_mode_effects s) v (trigger s) (damagePerShot s) (elementalDamagePerShot s) (criticalChance s) (criticalMultiplier s) (procChance s) (procProbabilities s) (procCumulativeProbabilities s) (magazineSize s) (fireRate s) (reloadTime s) (multishot s) (ammoCost s) (chargeTime s) (embedDelay s) (forcedProc s) (radial s) (mods s) (refresh s).
Definition set_damagePerShot (v : DamageParameter) (s : FireMode) : FireMode :=
  mkFireMode (name s) (data s) (fire_mode_effects s) (attack_index s) (trigger s) v (elementalDamagePerShot s) (criticalChance s) (criticalMultiplier s) (procChance s) (procProbabilities s) (procCumulativeProbabilities s) (magazineSize s) (fireRate s) (reloadTime s) (multishot s) (ammoCost s) (chargeTime s) (embedDelay s) (forcedProc s) (radial s) (mods s) (refresh s).
Definition set_elementalDamagePerShot (v : DamageParameter) (s : FireMode) : FireMode :=
  mkFireMode (name s) (data s) (fire_mode_effects s) (attack_index s) (trigger s) (damagePerShot s) v (criticalChance s) (criticalMultiplier s) (procChance s) (procProbabilities s) (procCumulativeProbabilities s) (magazineSize s) (fireRate s) (reloadTime s) (multishot s) (ammoCost s) (chargeTime s) (embedDelay s) (forcedProc s) (radial s) (mods s) (refresh s).
Definition set_criticalChance (v : Parameter_t) (s : FireMode) : FireMode :=
  mkFireMode (name s) (data s) (fire_mode_effects s) (attack_index s) (trigger s) (damagePerShot s) (elementalDamagePerShot s) v (criticalMultiplier s) (procChance s) (procProbabilities s) (procCumulativeProbabilities s) (magazineSize s) (fireRate s) (reloadTime s) (multishot s) (ammoCost s) (chargeTime s) (embedDelay s) (forcedProc s) (radial s) (mods s) (refresh s).
Definition set_criticalMultiplier (v : Parameter_t) (s : FireMode) : FireMode :=
  mkFireMode (name s) (data s) (fire_mode_effects s) (attack_index s) (trigger s) (damagePerShot s) (elementalDamagePerShot s) (criticalChance s) v (procChance s) (procProbabilities s) (procCumulativeProbabilities s) (magazineSize s) (fireRate s) (reloadTime s) (multishot s) (ammoCost s) (chargeTime s) (embedDelay s) (forcedProc s) (radial s) (mods s) (refresh s).
Definition set_procChance (v : Parameter_t) (s : FireMode) : FireMode :=
  mkFireMode (name s) (data s) (fire_mode_effects s) (attack_index s) (trigger s) (damagePerShot s) (elementalDamagePerShot s) (criticalChance s) (criticalMultiplier s) v (procProbabilities s) (procCumulativeProbabilities s) (magazineSize s) (fireRate s) (reloadTime s) (multishot s) (ammoCost s) (chargeTime s) (embedDelay s) (forcedProc s) (radial s) (mods s) (refresh s).
Definition set_procProbabilities (v : ndarray) (s : FireMode) : FireMode :=
  mkFireMode (name s) (data s) (fire_mode_effects s) (attack_index s) (trigger s) (damagePerShot s) (elementalDamagePerShot s) (criticalChance s) (criticalMultiplier s) (procChance s) v (procCumulativeProbabilities s) (magazineSize s) (fireRate s) (reloadTime s) (multishot s) (ammoCost s) (chargeTime s) (embedDelay s) (forcedProc s) (radial s) (mods s) (refresh s).
Definition set_procCumulativeProbabilities (v : ndarray + Z) (s : FireMode) : FireMode :=
  mkFireMode (name s) (data s) (fire_mode_effects s) (attack_index s) (trigger s) (damagePerShot s) (elementalDamagePerShot s) (criticalChance s) (criticalMultiplier s) (procChance s) (procProbabilities s) v (magazineSize s) (fireRate s) (reloadTime s) (multishot s) (ammoCost s) (chargeTime s) (embedDelay s) (forcedProc s) (radial s) (mods s) (refresh s).
Definition set_magazineSize (v : ModifyParameter) (s : FireMode) : FireMode :=
  mkFireMode (name s) (data s) (fire_mode_effects s) (attack_index s) (trigger s) (damagePerShot s) (elementalDamagePerShot s) (criticalChance s) (criticalMultiplier s) (procChance s) (procProbabilities s) (procCumulativeProbabilities s) v (fireRate s) (reloadTime s) (multishot s) (ammoCost s) (chargeTime s) (embedDelay s) (forcedProc s) (radial s) (mods s) (refresh s).
Definition set_fireRate (v : Parameter_t) (s : FireMode) : FireMode :=
  mkFireMode (name s) (data s) (fire_mode_effects s) (attack_index s) (trigger s) (damagePerShot s) (elementalDamagePerShot s) (criticalChance s) (criticalMultiplier s) (procChance s) (procProbabilities s) (procCumulativeProbabilities s) (magazineSize s) v (reloadTime s) (multishot s) (ammoCost s) (chargeTime s) (embedDelay s) (forcedProc s) (radial s) (mods s) (refresh s).
Definition set_reloadTime (v : Parameter_t) (s : FireMode) : FireMode :=
  mkFireMode (name s) (data s) (fire_mode_effects s) (attack_index s) (trigger s) (damagePerShot s) (elementalDamagePerShot s) (criticalChance s) (criticalMultiplier s) (procChance s) (procProbabilities s) (procCumulativeProbabilities s) (magazineSize s) (fireRate s) v (multishot s) (ammoCost s) (chargeTime s) (embedDelay s) (forcedProc s) (radial s) (mods s) (refresh s).
Definition set_multishot (v : Parameter_t) (s : FireMode) : FireMode :=
  mkFireMode (name s) (data s) (fire_mode_effects s) (attack_index s) (trigger s) (damagePerShot s) (elementalDamagePerShot s) (criticalChance s) (criticalMultiplier s) (procChance s) (procProbabilities s) (procCumulativeProbabilities s) (magazineSize s) (fireRate s) (reloadTime s) v (ammoCost s) (chargeTime s) (embedDelay s) (forcedProc s) (radial s) (mods s) (refresh s).
Definition set_ammoCost (v : Parameter_t) (s : FireMode) : FireMode :=
  mkFireMode (name s) (data s) (fire_mode_effects s) (attack_index s) (trigger s) (damagePerShot s) (elementalDamagePerShot s) (criticalChance s) (criticalMultiplier s) (procChance s) (procProbabilities s) (procCumulativeProbabilities s) (magazineSize s) (fireRate s) (reloadTime s) (multishot s) v (chargeTime s) (embedDelay s) (forcedProc s) (radial s) (mods s) (refresh s).
Definition set_chargeTime (v : Parameter_t) (s : FireMode) : FireMode :=
  mkFireMode (name s) (data s) (fire_mode_effects s) (attack_index s) (trigger s) (damagePerShot s) (elementalDamagePerShot s) (criticalChance s) (criticalMultiplier s) (procChance s) (procProbabilities s) (procCumulativeProbabilities s) (magazineSize s) (fireRate s) (reloadTime s) (multishot s) (ammoCost s) v (embedDelay s) (forcedProc s) (radial s) (mods s) (refresh s).
Definition set_embedDelay (v : Parameter_t) (s : FireMode) : FireMode :=
  mkFireMode (name s) (data s) (fire_mode_effects s) (attack_index s) (trigger s) (damagePerShot s) (elementalDamagePerShot s) (criticalChance s) (criticalMultiplier s) (procChance s) (procProbabilities s) (procCumulativeProbabilities s) (magazineSize s) (fireRate s) (reloadTime s) (multishot s) (ammoCost s) (chargeTime s) v (forcedProc s) (radial s) (mods s) (refresh s).
Definition set_mods (v : Buckets) (s : FireMode) : FireMode :=
  mkFireMode (name s) (data s) (fire_mode_effects s) (attack_index s) (trigger s) (damagePerShot s) (elementalDamagePerShot s) (criticalChance s) (criticalMultiplier s) (procChance s) (procProbabilities s) (procCumulativeProbabilities s) (magazineSize s) (fireRate s) (reloadTime s) (multishot s) (ammoCost s) (chargeTime s) (embedDelay s) (forcedProc s) (radial s) v (refresh s).
Definition set_refresh (v : bool) (s : FireMode) : FireMode :=
  mkFireMode (name s) (data s) (fire_mode_effects s) (attack_index s) (trigger s) (damagePerShot s) (elementalDamagePerShot s) (criticalChance s) (criticalMultiplier s) (procChance s) (procProbabilities s) (procCumulativeProbabilities s) (magazineSize s) (fireRate s) (reloadTime s) (multishot s) (ammoCost s) (chargeTime s) (embedDelay s) (forcedProc s) (radial s) (mods s) v.

(** Sequencing in [res] alone, for code that has no state to change. *)
Definition rbind {A B} (r : res A) (k : A -> res B) : res B :=
  match r with
  | Ok a => k a
  | Raise e => Raise e
  end.

Notation "x <~ r ;; k" := (rbind r (fun x => k))
  (at level 100, r at next level, right associativity,
   format "'[v' x  <~  r  ;;  '/' k ']'").

(** [for x in l: body(x)] and [for _ in range(n): body]. *)
Fixpoint for_each {S A} (l : list A) (body : A -> M S unit) : M S unit :=
  match l with
  | [] => ret tt
  | x :: l' => body x ;;; for_each l' body
  end.

Fixpoint for_range {S} (n : nat) (body : M S unit) : M S unit :=
  match n with
  | O => ret tt
  | Datatypes.S n' => body ;;; for_range n' body
  end.

(** *** [FireModeEffect.__init__]

    The attributes of the parent fire mode that the constructor reads, as
    they exist at the time of the call: [None] is an attribute that is not
    assigned yet, and reading it raises [AttributeError]. *)
Record FireModeAttrs : Type := mkFireModeAttrs {
  a_data : FireModeData;
  a_damagePerShot : option DamageParameter;
  a_criticalChance : option Parameter_t;
  a_criticalMultiplier : option Parameter_t;
  a_procChance : option Parameter_t
}.

Definition getattr {A} (o : option A) : res A :=
  match o with
  | Some a => Ok a
  | None => Raise AttributeError
  end.

(** [data.get(key, default)] where the default is the parent's object. *)
Definition get_or_parent {V P} (o : option V) (parent : P) : inherited V P :=
  match o with
  | Some v => FromData v
  | None => FromParent parent
  end.

(** [constants.MAX_TIME_OFFSET] is a constant of a module outside this
    file and is taken as an argument.  The arguments of [dict.get] are
    evaluated before the call, so the parent's attribute is read whether
    the key is present or not. *)
Definition FireModeEffect_init (MAX_TIME_OFFSET : Qc) (fire_mode : FireModeAttrs)
    (name : string) : res FireModeEffect :=
  effects <~ match d_secondaryEffects (a_data fire_mode) with
             | Some l => Ok l
             | None => Raise KeyError
             end ;;
  data <~ match assoc name effects with
          | Some d => Ok d
          | None => Raise KeyError
          end ;;
  parent_damage <~ getattr (a_damagePerShot fire_mode) ;;
  parent_chance <~ getattr (a_criticalChance fire_mode) ;;
  parent_multiplier <~ getattr (a_criticalMultiplier fire_mode) ;;
  parent_proc <~ getattr (a_procChance fire_mode) ;;
  Ok {| fme_name := name;
        fme_next_event_timestamp := MAX_TIME_OFFSET;
        fme_data := data;
        fme_damagePerShot :=
          get_or_parent (np_array <$> e_damagePerShot data) parent_damage;
        fme_criticalChance := get_or_parent (e_criticalChance data) parent_chance;
        fme_criticalMultiplier :=
          get_or_parent (e_criticalMultiplier data) parent_multiplier;
        fme_procChance := get_or_parent (e_procChance data) parent_proc;
        fme_multishot := default 1 (e_multishot data);
        fme_embedDelay := default 0 (e_embedDelay data);
        fme_forcedProc := default [] (e_forcedProc data) |}.

(** The attributes of a fire mode whose constructor has returned. *)
Definition attrs_of (fm : FireMode) : FireModeAttrs :=
  {| a_data := data fm;
     a_damagePerShot := Some (damagePerShot fm);
     a_criticalChance := Some (criticalChance fm);
     a_criticalMultiplier := Some (criticalMultiplier fm);
     a_procChance := Some (procChance fm) |}.

(** *** [FireMode.reset] *)
Definition FireMode_reset (s : FireMode) : FireMode :=
  let s := set_attack_index 1%Z s in
  let s := set_damagePerShot (DamageParameter_reset (damagePerShot s)) s in
  let s := set_elementalDamagePerShot (DamageParameter_reset (elementalDamagePerShot s)) s in
  let s := set_criticalChance (Parameter_reset (criticalChance s)) s in
  let s := set_criticalMultiplier (Parameter_reset (criticalMultiplier s)) s in
  let s := set_procChance (Parameter_reset (procChance s)) s in
  let s := set_magazineSize (ModifyParameter_reset (magazineSize s)) s in
  let s := set_fireRate (Parameter_reset (fireRate s)) s in
  let s := set_reloadTime (Parameter_reset (reloadTime s)) s in
  let s := set_multishot (Parameter_reset (multishot s)) s in
  let s := set_ammoCost (Parameter_reset (ammoCost s)) s in
  let s := set_chargeTime (Parameter_reset (chargeTime s)) s in
  set_embedDelay (Parameter_reset (embedDelay s)) s.

(** *** [FireMode.load_mods] *)
Definition load_mods (s : FireMode) : FireMode :=
  let s := set_mods (set_damagePerShot_m
                       (<["base" := 0]> (damagePerShot_m (mods s))) (mods s)) s in
  set_mods (set_damagePerShot_m
              (<["final_multiplier" := 1]> (damagePerShot_m (mods s))) (mods s)) s.

(** *** [FireMode.apply_mods] *)

(** [self.<bucket>[key]] *)
Definition bucket (b : Buckets -> gmap string Qc) (key : string) : M FireMode Qc :=
  s <- get ;; lift (getitem (b (mods s)) key).

(** [self.elementalDamagePerShot.modded[i] = v] *)
Definition set_elemental (i : nat) (v : npfloat) : M FireMode unit :=
  s <- get ;;
  e <- lift (setitem_modded i v (elementalDamagePerShot s)) ;;
  modify (set_elementalDamagePerShot e).

(** [np.round(a / quanta, 0) * quanta] *)
Definition quantize (a : ndarray) (quanta : npfloat) : ndarray :=
  arr_scale (arr_round (arr_div a quanta)) quanta.

(** [1/tot_weight if tot_weight>0 else 0] *)
Definition norm_factor (tot_weight : npfloat) : npfloat :=
  if ngt tot_weight (Some 0) then ndiv (Some 1) tot_weight else Some 0.

(** [self.damagePerShot.modded + self.elementalDamagePerShot.modded], the
    weights before they are normalized. *)
Definition proc_weights (s : FireMode) : res ndarray :=
  arr_add (modded_array (damagePerShot s)) (modded_array (elementalDamagePerShot s)).

Definition apply_mods : M FireMode unit :=
  (* Damage *)
  s <- get ;;
  let base := dp_base (damagePerShot s) in
  let weights := arr_div base (nmax (py_sum base) (Some (Q2Qc 0.01))) in
  additive_base <- bucket bonusDamagePerShot_m "additive_base" ;;
  let damagePerShot_bonus := arr_scale weights (Some additive_base) in
  with_bonus <- lift (arr_add base damagePerShot_bonus) ;;
  d_base <- bucket damagePerShot_m "base" ;;
  d_multishot <- bucket damagePerShot_m "multishot_multiplier" ;;
  d_final <- bucket damagePerShot_m "final_multiplier" ;;
  modify (fun s => set_damagePerShot
    (bind_modded
       (arr_scale (arr_scale (arr_scale with_bonus (Some (1 + d_base)))
                             (Some d_multishot)) (Some d_final))
       (damagePerShot s)) s) ;;;
  (* Bonus damage types *)
  s <- get ;;
  let modded := modded_array (damagePerShot s) in
  let total_base_damage := py_sum modded in
  x0 <- lift (arr_get modded 0) ;;
  impact <- bucket impact_m "base" ;;
  set_elemental 0 (nmul x0 (Some impact)) ;;;
  x1 <- lift (arr_get modded 1) ;;
  puncture <- bucket puncture_m "base" ;;
  set_elemental 1 (nmul x1 (Some puncture)) ;;;
  x2 <- lift (arr_get modded 2) ;;
  slash <- bucket slash_m "base" ;;
  set_elemental 2 (nmul x2 (Some slash)) ;;;
  heat <- bucket heat_m "base" ;;
  set_elemental 3 (nmul total_base_damage (Some heat)) ;;;
  cold <- bucket cold_m "base" ;;
  set_elemental 4 (nmul total_base_damage (Some cold)) ;;;
  electric <- bucket electric_m "base" ;;
  set_elemental 5 (nmul total_base_damage (Some electric)) ;;;
  toxin <- bucket toxin_m "base" ;;
  set_elemental 6 (nmul total_base_damage (Some toxin)) ;;;
  s <- get ;;
  let quanta :=
    ndiv (nadd total_base_damage (py_sum (modded_array (elementalDamagePerShot s))))
         (Some (Qc_of_Z 16)) in
  modify (fun s => set_damagePerShot
    (bind_quantized (quantize (modded_array (damagePerShot s)) quanta)
                    (damagePerShot s)) s) ;;;
  modify (fun s => set_elementalDamagePerShot
    (bind_quantized (quantize (modded_array (elementalDamagePerShot s)) quanta)
                    (elementalDamagePerShot s)) s) ;;;
  (* Critical Chance *)
  cc_additive_base <- bucket criticalChance_m "additive_base" ;;
  cc_base <- bucket criticalChance_m "base" ;;
  cc_additive_final <- bucket criticalChance_m "additive_final" ;;
  cc_deadly_munitions <- bucket criticalChance_m "deadly_munitions" ;;
  cc_covenant <- bucket criticalChance_m "covenant" ;;
  modify (fun s => set_criticalChance
    (p_set_modded
       (((p_base (criticalChance s) + cc_additive_base) * (1 + cc_base)
         + cc_additive_final) * cc_deadly_munitions + cc_covenant)
       (criticalChance s)) s) ;;;
  (* Critical Damage *)
  cm_additive_base <- bucket criticalMultiplier_m "additive_base" ;;
  cm_base <- bucket criticalMultiplier_m "base" ;;
  cm_additive_final <- bucket criticalMultiplier_m "additive_final" ;;
  cm_final <- bucket criticalMultiplier_m "final_multiplier" ;;
  modify (fun s => set_criticalMultiplier
    (p_set_modded
       (((p_base (criticalMultiplier s) + cm_additive_base) * (1 + cm_base)
         + cm_additive_final) * cm_final)
       (criticalMultiplier s)) s) ;;;
  (* Status chance *)
  pc_additive_base <- bucket procChance_m "additive_base" ;;
  pc_base <- bucket procChance_m "base" ;;
  pc_additive_final <- bucket procChance_m "additive_final" ;;
  pc_final <- bucket procChance_m "final_multiplier" ;;
  pc_multishot <- bucket procChance_m "multishot_multiplier" ;;
  modify (fun s => set_procChance
    (p_set_modded
       ((p_base (procChance s) + pc_additive_base)
        * ((1 + pc_base) + pc_additive_final) * pc_final * pc_multishot)
       (procChance s)) s) ;;;
  s <- get ;;
  raw <- lift (proc_weights s) ;;
  modify (set_procProbabilities raw) ;;;
  s <- get ;;
  let tot_weight := py_sum (procProbabilities s) in
  modify (fun s => set_procProbabilities
    (arr_scale (procProbabilities s) (norm_factor tot_weight)) s) ;;;
  modify (set_procCumulativeProbabilities (inr 0%Z)) ;;;
  (* Other *)
  ms_base <- bucket multishot_m "base" ;;
  modify (fun s => set_multishot
    (p_set_modded (p_base (multishot s) * (1 + ms_base)) (multishot s)) s) ;;;
  fr_base <- bucket fireRate_m "base" ;;
  modify (fun s => set_fireRate
    (p_set_modded (p_base (fireRate s) * (1 + fr_base)) (fireRate s)) s) ;;;
  rt_base <- bucket reloadTime_m "base" ;;
  s <- get ;;
  rt <- lift (py_div (p_base (reloadTime s)) (1 + rt_base)) ;;
  modify (fun s => set_reloadTime (p_set_modded rt (reloadTime s)) s) ;;;
  mz_base <- bucket magazineSize_m "base" ;;
  modify (fun s => set_magazineSize
    (mp_set_modded (mp_base (magazineSize s) * (1 + mz_base)) (magazineSize s)) s) ;;;
  fr_base' <- bucket fireRate_m "base" ;;
  s <- get ;;
  ct <- lift (py_div (p_base (chargeTime s)) (1 + fr_base')) ;;
  modify (fun s => set_chargeTime (p_set_modded ct (chargeTime s)) s) ;;;
  mz_base' <- bucket magazineSize_m "base" ;;
  modify (fun s => set_magazineSize
    (mp_set_modded (mp_base (magazineSize s) * (1 + mz_base')) (magazineSize s)) s) ;;;
  modify (fun s => set_embedDelay
    (p_set_modded (p_base (embedDelay s)) (embedDelay s)) s) ;;;
  ac_base <- bucket ammoCost_m "base" ;;
  ac_energized <- bucket ammoCost_m "energized_munitions" ;;
  modify (fun s => set_ammoCost
    (p_set_modded
       (p_base (ammoCost s) * py_max 0 (1 - ac_base) * py_max 0 (1 - ac_energized))
       (ammoCost s)) s).

(** *** [FireMode.__init__]

    The list of effects is built first, when the object has its [weapon],
    [name], [data] and [simulation] attributes only. *)
Definition quantize_critical_multiplier (b : Qc) : Qc :=
  let c := Qc_of_Z 128 - 1 / Qc_of_Z 32 in py_round (b * c) / c.

Definition FireMode_init (MAX_TIME_OFFSET : Qc) (weapon_data : WeaponData)
    (name : string) : res FireMode :=
  fire_modes <~ match wd_fireModes weapon_data with
                | Some l => Ok l
                | None => Raise KeyError
                end ;;
  data <~ match assoc name fire_modes with
          | Some d => Ok d
          | None => Raise KeyError
          end ;;
  let partial := {| a_data := data; a_damagePerShot := None;
                    a_criticalChance := None; a_criticalMultiplier := None;
                    a_procChance := None |} in
  effects <~ foldr (fun n acc => e <~ FireModeEffect_init MAX_TIME_OFFSET partial n ;;
                                 l <~ acc ;; Ok (e :: l))
                   (Ok []) (fst <$> default [] (d_secondaryEffects data)) ;;
  let criticalMultiplier0 := Parameter_init (default 1 (d_criticalMultiplier data)) in
  let s := {|
    name := name;
    data := data;
    fire_mode_effects := effects;
    attack_index := 1%Z;
    trigger := default "AUTO" (d_trigger data);
    damagePerShot :=
      DamageParameter_init (default (np_zeros 20) (np_array <$> d_damagePerShot data));
    elementalDamagePerShot := DamageParameter_init (np_zeros 20);
    criticalChance := Parameter_init (default 0 (d_criticalChance data));
    criticalMultiplier :=
      p_set_base (quantize_critical_multiplier (p_base criticalMultiplier0))
                 criticalMultiplier0;
    procChance := Parameter_init (default 0 (d_procChance data));
    procProbabilities := np_zeros 20;
    procCumulativeProbabilities := inl (np_zeros 20);
    magazineSize := ModifyParameter_init (default (Qc_of_Z 100) (d_magazineSize data));
    fireRate := Parameter_init (default (Qc_of_Z 5) (d_fireRate data));
    reloadTime := Parameter_init (default 1 (d_reloadTime data));
    multishot := Parameter_init (default 1 (d_multishot data));
    ammoCost := Parameter_init (default 1 (d_ammoCost data));
    chargeTime := Parameter_init (default 0 (d_chargeTime data));
    embedDelay := Parameter_init (default 0 (d_embedDelay data));
    forcedProc := default [] (d_forcedProc data);
    radial := false;
    mods := default_buckets;
    refresh := false |} in
  match apply_mods (load_mods s) with
  | (Ok _, s') => Ok (set_refresh true s')
  | (Raise e, _) => Raise e
  end.

(** ** The trigger *)

(** [get_tier(chance)], with the value [r] that [random()] returns. *)
Definition get_tier (chance r : Qc) : Z :=
  Z.add (int_of_bool (bool_decide (r < py_mod1 chance))) (py_int chance).

(** The target: [class Unit] is outside this file; a unit is known by an
    identifier and [enemy.pellet_hit] by the unit it is bound to. *)
Definition Unit : Type := string.

Inductive source : Type :=
  | SrcFireMode (name : string)
  | SrcEffect (fme : FireModeEffect).

Inductive callback : Type :=
  | pellet_hit (enemy : Unit)
  | pull_trigger_of (name : string).

(** [class EventTrigger] *)
Record EventTrigger : Type := mkEventTrigger {
  et_fire_mode : source;
  et_func : callback;
  et_time : Qc
}.

(** Modelled from the spec: [class Simulacrum] of [simulation.py], which
    the fire mode reaches as [self.simulation].  It has the current
    simulated [time], the shared [event_queue], kept here in the order of
    the calls of [put] (the order of delivery is the queue's and the
    driver's), and [get_call_index()], which returns the next sequence
    number and increments it. *)
Record Simulacrum : Type := mkSimulacrum {
  time : Qc;
  event_queue : list (Qc * nat * EventTrigger);
  call_index : nat
}.

Record World : Type := mkWorld { w_fm : FireMode; w_sim : Simulacrum }.

Definition modify_fm (f : FireMode -> FireMode) : M World unit :=
  modify (fun w => {| w_fm := f (w_fm w); w_sim := w_sim w |}).

Definition get_call_index : M World nat :=
  fun w => (Ok (call_index (w_sim w)),
            {| w_fm := w_fm w;
               w_sim := {| time := time (w_sim w);
                           event_queue := event_queue (w_sim w);
                           call_index := Datatypes.S (call_index (w_sim w)) |} |}).

Definition queue_put (e : Qc * nat * EventTrigger) : M World unit :=
  modify (fun w => {| w_fm := w_fm w;
                      w_sim := {| time := time (w_sim w);
                                  event_queue := event_queue (w_sim w) ++ [e];
                                  call_index := call_index (w_sim w) |} |}).

(** One turn of [for _ in range(multishot)]: the hit of the fire mode and
    one hit for each of its effects. *)
Definition fire_cluster (enemy : Unit) : M World unit :=
  w <- get ;;
  let fm_time := time (w_sim w) + p_modded (embedDelay (w_fm w)) in
  i <- get_call_index ;;
  queue_put (fm_time, i,
             mkEventTrigger (SrcFireMode (name (w_fm w))) (pellet_hit enemy) fm_time) ;;;
  for_each (fire_mode_effects (w_fm w)) (fun fme =>
    let fme_time := fme_embedDelay fme + fm_time in
    i <- get_call_index ;;
    queue_put (fme_time, i, mkEventTrigger (SrcEffect fme) (pellet_hit enemy) fme_time)).

(** [self.magazineSize.current -= self.ammoCost.modded] *)
Definition spend_ammo (s : FireMode) : FireMode :=
  set_magazineSize
    (mp_set_current (mp_current (magazineSize s) - p_modded (ammoCost s))
                    (magazineSize s)) s.

(** [self.damagePerShot_m["multishot_multiplier"] = multishot_roll] and
    [self.procChance_m["multishot_multiplier"] = multishot_roll] *)
Definition set_damage_multishot_multiplier (multishot_roll : Z) (s : FireMode) : FireMode :=
  set_mods (set_damagePerShot_m
              (<["multishot_multiplier" := Qc_of_Z multishot_roll]>
                 (damagePerShot_m (mods s))) (mods s)) s.
Definition set_proc_multishot_multiplier (multishot_roll : Z) (s : FireMode) : FireMode :=
  set_mods (set_procChance_m
              (<["multishot_multiplier" := Qc_of_Z multishot_roll]>
                 (procChance_m (mods s))) (mods s)) s.

(** [self.magazineSize.current = self.magazineSize.modded] *)
Definition reload (s : FireMode) : FireMode :=
  set_magazineSize
    (mp_set_current (mp_modded (magazineSize s)) (magazineSize s)) s.

(** The [if self.trigger == "HELD"] block: the number of clusters to fire. *)
Definition collapse_if_held (multishot_roll : Z) : M World Z :=
  w <- get ;;
  if bool_decide (trigger (w_fm w) = "HELD") then
    modify_fm (set_damage_multishot_multiplier multishot_roll) ;;;
    modify_fm (set_proc_multishot_multiplier multishot_roll) ;;;
    ret 1%Z
  else ret multishot_roll.

(** The [if self.magazineSize.current > 0 ... else ...] block: the value of
    [next_event]. *)
Definition next_event_time : M World Qc :=
  w <- get ;;
  if bool_decide (0 < mp_current (magazineSize (w_fm w))) then
    period <- lift (py_div 1 (p_modded (fireRate (w_fm w)))) ;;
    ret (time (w_sim w) + period + p_modded (chargeTime (w_fm w)))
  else
    modify_fm reload ;;;
    period <- lift (py_div 1 (p_modded (fireRate (w_fm w)))) ;;
    ret (time (w_sim w)
         + py_max (p_modded (reloadTime (w_fm w))) period
         + p_modded (chargeTime (w_fm w))).

Definition pull_trigger (r : Qc) (fire_mode : source) (enemy : Unit) : M World unit :=
  w <- get ;;
  let multishot_roll := get_tier (p_modded (multishot (w_fm w))) r in
  modify_fm spend_ammo ;;;
  multishot <- collapse_if_held multishot_roll ;;
  for_range (Z.to_nat multishot) (fire_cluster enemy) ;;;
  next_event <- next_event_time ;;
  i <- get_call_index ;;
  w <- get ;;
  queue_put (next_event, i,
             mkEventTrigger fire_mode (pull_trigger_of (name (w_fm w))) next_event).

(** The entries that one cluster puts in the queue at time [t], the first
    with sequence number [i]: the hit of the fire mode, then the hits of
    its effects in their order. *)
Fixpoint effect_events (enemy : Unit) (fm_time : Qc) (i : nat)
    (l : list FireModeEffect) : list (Qc * nat * EventTrigger) :=
  match l with
  | [] => []
  | fme :: l' =>
      (fme_embedDelay fme + fm_time, i,
       mkEventTrigger (SrcEffect fme) (pellet_hit enemy) (fme_embedDelay fme + fm_time))
      :: effect_events enemy fm_time (Datatypes.S i) l'
  end.

Definition cluster_events (enemy : Unit) (fm : FireMode) (t : Qc) (i : nat)
    : list (Qc * nat * EventTrigger) :=
  let fm_time := t + p_modded (embedDelay fm) in
  (fm_time, i, mkEventTrigger (SrcFireMode (name fm)) (pellet_hit enemy) fm_time)
  :: effect_events enemy fm_time (Datatypes.S i) (fire_mode_effects fm).

(** An entry of the queue that calls [pellet_hit]. *)
Definition is_hit (e : Qc * nat * EventTrigger) : Prop :=
  exists enemy, et_func e.2 = pellet_hit enemy.

(** ** Decidable equality, to compare results by evaluation *)

#[global] Instance exn_eq_dec : EqDecision exn.
Proof. solve_decision. Defined.

#[global] Instance res_eq_dec {A} `{EqDecision A} : EqDecision (res A).
Proof. solve_decision. Defined.

(** A function applied to a result. *)
Definition res_map {A B} (f : A -> B) (r : res A) : res B :=
  match r with
  | Ok a => Ok (f a)
  | Raise e => Raise e
  end.

(** ** The readings of the specification that the code is compared with *)

(** Proc weights taken from the quantized vectors, normalized. *)
Definition proc_weights_quantized (s : FireMode) : res ndarray :=
  arr_add (quantized_array (damagePerShot s))
          (quantized_array (elementalDamagePerShot s)).

(** The total of the physical slots (impact, puncture, slash) alone. *)
Definition physical_total (a : ndarray) : npfloat := py_sum (take 3 a).

(** [floor(x) + 1 if r < fractional_part(x) else floor(x)] *)
Definition tier_rule (x r : Qc) : Z :=
  if bool_decide (r < x - Qc_of_Z (Qfloor x)) then (Qfloor x + 1)%Z else Qfloor x.

(** ** Fire modes to evaluate the code on *)

(** A fire mode as [__init__] has it before [load_mods] and [apply_mods]
    run, with no effects, the default scalars of the constructor, the base
    damage [dmg] and the buckets [b]. *)
Definition fire_mode_of (dmg : list Qc) (b : Buckets) : FireMode := {|
  name := "primary";
  data := mkFireModeData None None (Some dmg) None None None None None None
                         None None None None None;
  fire_mode_effects := [];
  attack_index := 1%Z;
  trigger := "AUTO";
  damagePerShot := DamageParameter_init (np_array dmg);
  elementalDamagePerShot := DamageParameter_init (np_zeros 20);
  criticalChance := Parameter_init 0;
  criticalMultiplier := Parameter_init 1;
  procChance := Parameter_init 0;
  procProbabilities := np_zeros 20;
  procCumulativeProbabilities := inl (np_zeros 20);
  magazineSize := ModifyParameter_init (Qc_of_Z 100);
  fireRate := Parameter_init (Qc_of_Z 5);
  reloadTime := Parameter_init 1;
  multishot := Parameter_init 1;
  ammoCost := Parameter_init 1;
  chargeTime := Parameter_init 0;
  embedDelay := Parameter_init 0;
  forcedProc := [];
  radial := false;
  mods := b;
  refresh := false
|}.

(** Impact 10 and a heat mod of 10 percent. *)
Definition heated_rifle : FireMode :=
  fire_mode_of (Qc_of_Z 10 :: replicate 19 0)
    (set_heat_m (<["base" := Q2Qc 0.1]> (heat_m default_buckets)) default_buckets).

(** Impact 10, an innate heat damage of 5 and a heat mod of 100 percent. *)
Definition innate_heat_rifle : FireMode :=
  fire_mode_of (Qc_of_Z 10 :: 0 :: 0 :: Qc_of_Z 5 :: replicate 16 0)
    (set_heat_m (<["base" := 1]> (heat_m default_buckets)) default_buckets).

(** A fire mode that has fired 60 rounds of its magazine of 100. *)
Definition spent_rifle : FireMode :=
  let s := fire_mode_of (Qc_of_Z 10 :: replicate 19 0) default_buckets in
  set_magazineSize (mp_set_current (Qc_of_Z 40) (magazineSize s)) s.

(** A fire mode with multishot 2 and an embed delay of 1/2, whose data
    record has one secondary effect that sets nothing of its own. *)
Definition launcher_data : FireModeData :=
  mkFireModeData
    (Some [("explosion", mkEffectData None None None None None None None)])
    None (Some (Qc_of_Z 10 :: replicate 19 0)) None None None None None None
    (Some (Qc_of_Z 2)) None None (Some (Q2Qc 0.5)) None.

Definition launcher : FireMode :=
  let s := fire_mode_of (Qc_of_Z 10 :: replicate 19 0) default_buckets in
  mkFireMode (name s) launcher_data (fire_mode_effects s) (attack_index s)
    (trigger s) (damagePerShot s) (elementalDamagePerShot s) (criticalChance s)
    (criticalMultiplier s) (procChance s) (procProbabilities s)
    (procCumulativeProbabilities s) (magazineSize s) (fireRate s) (reloadTime s)
    (Parameter_init (Qc_of_Z 2)) (ammoCost s) (chargeTime s)
    (Parameter_init (Q2Qc 0.5)) (forcedProc s) (radial s) (mods s) (refresh s).

(** What [Parameter.reset] and [DamageParameter.reset] leave. *)
Definition Parameter_is_reset (p p' : Parameter_t) : Prop :=
  p_base p' = p_base p /\ p_modded p' = p_base p.

Definition DamageParameter_is_reset (p p' : DamageParameter) : Prop :=
  dp_base p' = dp_base p
  /\ modded_array p' = dp_base p
  /\ quantized_array p' = dp_base p.

(** The value of an entry of a bucket, for statements about runs in which
    the entry was read (and so was present). *)
Definition entry (m : gmap string Qc) (k : string) : Qc := default 0 (m !! k).

(** A weapon with one fire mode of impact 10 and critical multiplier 2. *)
Definition rifle_data : FireModeData :=
  mkFireModeData None None (Some (Qc_of_Z 10 :: replicate 19 0)) None
                 (Some (Qc_of_Z 2)) None None None None None None None None None.

Definition rifle_weapon : WeaponData :=
  mkWeaponData None (Some [("primary", rifle_data)]).

(** Impact 10 and no mod. *)
Definition plain_rifle : FireMode :=
  fire_mode_of (Qc_of_Z 10 :: replicate 19 0) default_buckets.

(** A simulation at time 0 with an empty queue. *)
Definition idle_simulation : Simulacrum :=
  mkSimulacrum 0 [] 0.

(** A charged weapon: trigger [HELD], multishot 2.5, magazine of 100, and
    the effect of [launcher_data]. *)
Definition held_launcher : FireMode :=
  let s := fire_mode_of (Qc_of_Z 10 :: replicate 19 0) default_buckets in
  mkFireMode (name s) launcher_data
    [mkFireModeEffect "explosion" 0 (mkEffectData None None None None None None None)
       (FromParent (damagePerShot s)) (FromParent (criticalChance s))
       (FromParent (criticalMultiplier s)) (FromParent (procChance s)) 1 0 []]
    (attack_index s) "HELD" (damagePerShot s) (elementalDamagePerShot s)
    (criticalChance s) (criticalMultiplier s) (procChance s) (procProbabilities s)
    (procCumulativeProbabilities s) (magazineSize s) (fireRate s) (reloadTime s)
    (Parameter_init (Q2Qc 2.5)) (ammoCost s) (chargeTime s) (embedDelay s)
    (forcedProc s) (radial s) (mods s) (refresh s).

(** ** The condition of [apply_mods] *)

(** The entries of the buckets that [apply_mods] reads, in the order of
    the first read. *)
Definition read_entries : list ((Buckets -> gmap string Qc) * string) :=
  [ (bonusDamagePerShot_m, "additive_base");
    (damagePerShot_m, "base"); (damagePerShot_m, "multishot_multiplier");
    (damagePerShot_m, "final_multiplier");
    (impact_m, "base"); (puncture_m, "base"); (slash_m, "base");
    (heat_m, "base"); (cold_m, "base"); (electric_m, "base"); (toxin_m, "base");
    (criticalChance_m, "additive_base"); (criticalChance_m, "base");
    (criticalChance_m, "additive_final"); (criticalChance_m, "deadly_munitions");
    (criticalChance_m, "covenant");
    (criticalMultiplier_m, "additive_base"); (criticalMultiplier_m, "base");
    (criticalMultiplier_m, "additive_final"); (criticalMultiplier_m, "final_multiplier");
    (procChance_m, "additive_base"); (procChance_m, "base");
    (procChance_m, "additive_final"); (procChance_m, "final_multiplier");
    (procChance_m, "multishot_multiplier");
    (multishot_m, "base"); (fireRate_m, "base"); (reloadTime_m, "base");
    (magazineSize_m, "base");
    (ammoCost_m, "base"); (ammoCost_m, "energized_munitions") ].

Definition has_entries (b : Buckets) : Prop :=
  Forall (fun e => is_Some (e.1 b !! e.2)) read_entries.

(** The condition under which [apply_mods] returns. *)
Definition apply_mods_defined (s : FireMode) : Prop :=
  has_entries (mods s)
  /\ 1 + entry (reloadTime_m (mods s)) "base" <> 0
  /\ 1 + entry (fireRate_m (mods s)) "base" <> 0
  /\ length (dp_base (damagePerShot s)) = length (modded_array (elementalDamagePerShot s))
  /\ (7 <= length (modded_array (elementalDamagePerShot s)))%nat.

(** ** The events of a trigger pull *)

(** The entries that [n] clusters in a row put in the queue. *)
Fixpoint clusters_events (enemy : Unit) (fm : FireMode) (t : Qc) (i n : nat)
    : list (Qc * nat * EventTrigger) :=
  match n with
  | O => []
  | Datatypes.S n' =>
      cluster_events enemy fm t i
      ++ clusters_events enemy fm t (Datatypes.S i + length (fire_mode_effects fm)) n'
  end.

(** The sequence numbers of a list of entries. *)
Definition sequence_numbers (l : list (Qc * nat * EventTrigger)) : list nat :=
  (fun e => e.1.2) <$> l.

(** An entry of the queue that calls [pull_trigger] of the fire mode [n]. *)
Definition is_pull (n : string) (e : Qc * nat * EventTrigger) : Prop :=
  et_func e.2 = pull_trigger_of n.

(** ** Weapons *)

(** [class Weapon].  [ExportWeapons.json], as [json.load] returns it, is
    the argument [export]; opening the file is outside the model. *)
Record Weapon : Type := mkWeapon {
  wp_name : string;
  wp_data : WeaponData;
  riven_type : string;
  fire_modes : list FireMode
}.

(** [weapon_data.get(self.name, {})] *)
Definition get_weapon_data (export : list (string * WeaponData))
    (name : string) : WeaponData :=
  default (mkWeaponData None None) (assoc name export).

(** [Weapon.__init__] *)
Definition Weapon_init (MAX_TIME_OFFSET : Qc)
    (export : list (string * WeaponData)) (name : string) : res Weapon :=
  let data := get_weapon_data export name in
  let riven := default "" (wd_rivenType data) in
  modes <~ foldr (fun n acc => fm <~ FireMode_init MAX_TIME_OFFSET data n ;;
                               l <~ acc ;; Ok (fm :: l))
                 (Ok []) (fst <$> default [] (wd_fireModes data)) ;;
  Ok {| wp_name := name; wp_data := data; riven_type := riven; fire_modes := modes |}.

(** [Weapon.reset] *)
Definition Weapon_reset (w : Weapon) : Weapon :=
  {| wp_name := wp_name w; wp_data := wp_data w; riven_type := riven_type w;
     fire_modes := FireMode_reset <$> fire_modes w |}.

(** A data record with no secondary effect. *)
Definition no_effects (d : FireModeData) : Prop :=
  default [] (d_secondaryEffects d) = [].

(** A data record whose damage vector, when it has one, has the 20 slots
    of the elemental vector. *)
Definition damage_fits (d : FireModeData) : Prop :=
  forall v, d_damagePerShot d = Some v -> length v = 20%nat.

(** ** More states to evaluate the code on *)

(** No damage at all. *)
Definition blank_rifle : FireMode :=
  fire_mode_of (replicate 20 0) default_buckets.

(** Impact 10 and a fire rate of zero. *)
Definition jammed_rifle : FireMode :=
  set_fireRate (Parameter_init 0) plain_rifle.

(** The weapon of [launcher_data], and a file of two weapons. *)
Definition launcher_weapon : WeaponData :=
  mkWeaponData None (Some [("primary", launcher_data)]).

Definition sample_export : list (string * WeaponData) :=
  [("Rifle", rifle_weapon); ("Launcher", launcher_weapon)].

(** * Properties *)

(** ** Running a computation that returned *)

Lemma bind_ok_inv {S A B} (m : M S A) (k : A -> M S B) s b s' :
  bind m k s = (Ok b, s') -> exists a s1, m s = (Ok a, s1) /\ k a s1 = (Ok b, s').
Proof.
  unfold bind. destruct (m s) as [[a|e] s1]; intros H; [eauto | discriminate].
Qed.

Lemma get_ok_inv {S} (s : S) a s1 : get s = (Ok a, s1) -> a = s /\ s1 = s.
Proof. unfold get. intros H; inversion H; auto. Qed.

Lemma modify_ok_inv {S} (f : S -> S) (s : S) a s1 :
  modify f s = (Ok a, s1) -> s1 = f s.
Proof. unfold modify. intros H; inversion H; auto. Qed.

Lemma lift_ok_inv {S A} (r : res A) (s : S) a s1 :
  lift r s = (Ok a, s1) -> s1 = s /\ r = Ok a.
Proof. unfold lift. intros H; inversion H; auto. Qed.

Lemma ret_ok_inv {S A} (x : A) (s : S) a s1 :
  ret x s = (Ok a, s1) -> s1 = s /\ a = x.
Proof. unfold ret. intros H; inversion H; auto. Qed.

Lemma bucket_ok_inv b key s v s1 :
  bucket b key s = (Ok v, s1) -> s1 = s /\ b (mods s) !! key = Some v.
Proof.
  unfold bucket, bind, get, lift, getitem.
  destruct (b (mods s) !! key); intros H; inversion H; auto.
Qed.

Lemma set_elemental_ok_inv i v s a s1 :
  set_elemental i v s = (Ok a, s1) ->
  exists e, setitem_modded i v (elementalDamagePerShot s) = Ok e
            /\ s1 = set_elementalDamagePerShot e s.
Proof.
  unfold set_elemental, bind, get, lift, modify.
  destruct (setitem_modded i v (elementalDamagePerShot s)); intros H; inversion H; eauto.
Qed.

(** The state is kept as a constructor applied to fields, so that a field
    of the state after a step is read off at once. *)
Ltac norm_fm H :=
  cbn beta iota delta
   [name data fire_mode_effects attack_index trigger damagePerShot elementalDamagePerShot criticalChance criticalMultiplier procChance procProbabilities procCumulativeProbabilities magazineSize fireRate reloadTime multishot ammoCost chargeTime embedDelay forcedProc radial mods refresh
    set_attack_index set_damagePerShot set_elementalDamagePerShot set_criticalChance set_criticalMultiplier set_procChance set_procProbabilities set_procCumulativeProbabilities set_magazineSize set_fireRate set_reloadTime set_multishot set_ammoCost set_chargeTime set_embedDelay set_mods set_refresh] in H.

Ltac norm_fm_goal :=
  cbn beta iota delta
   [name data fire_mode_effects attack_index trigger damagePerShot elementalDamagePerShot criticalChance criticalMultiplier procChance procProbabilities procCumulativeProbabilities magazineSize fireRate reloadTime multishot ammoCost chargeTime embedDelay forcedProc radial mods refresh
    set_attack_index set_damagePerShot set_elementalDamagePerShot set_criticalChance set_criticalMultiplier set_procChance set_procProbabilities set_procCumulativeProbabilities set_magazineSize set_fireRate set_reloadTime set_multishot set_ammoCost set_chargeTime set_embedDelay set_mods set_refresh].


Ltac step_fm H :=
  let a := fresh "a" in
  let s1 := fresh "s" in
  let H1 := fresh "H" in
  apply bind_ok_inv in H; destruct H as (a & s1 & H1 & H);
  lazymatch type of H1 with
  | get _ = _ => apply get_ok_inv in H1; destruct H1 as [-> ->]
  | bucket _ _ _ = _ => apply bucket_ok_inv in H1; destruct H1 as [-> H1]; norm_fm H1
  | lift _ _ = _ => apply lift_ok_inv in H1; destruct H1 as [-> H1]; norm_fm H1
  | modify _ _ = _ => apply modify_ok_inv in H1; norm_fm H1; subst s1
  | set_elemental _ _ _ = _ =>
      apply set_elemental_ok_inv in H1; destruct H1 as (? & H1 & ->); norm_fm H1
  end;
  norm_fm H.

Ltac run_apply_mods H :=
  unfold apply_mods in H; repeat step_fm H;
  apply modify_ok_inv in H; norm_fm H.

(** ** Arrays *)

Lemma modded_array_bind_modded a p : modded_array (bind_modded a p) = a.
Proof. reflexivity. Qed.

Lemma modded_array_bind_quantized a p :
  modded_array (bind_quantized a p) = modded_array p.
Proof. reflexivity. Qed.

Lemma quantized_array_bind_quantized a p : quantized_array (bind_quantized a p) = a.
Proof. reflexivity. Qed.

Lemma foldl_nadd_None (a : ndarray) : foldl nadd None a = None.
Proof. induction a as [|x a IH]; simpl; [reflexivity | exact IH]. Qed.

Lemma foldl_nadd_Some_inv (a : ndarray) acc t :
  foldl nadd (Some acc) a = Some t -> exists l : list Qc, a = Some <$> l.
Proof.
  revert acc. induction a as [|x a IH]; intros acc H.
  - exists []. reflexivity.
  - destruct x as [x|]; simpl in H.
    + destruct (IH _ H) as [l ->]. exists (x :: l). reflexivity.
    + rewrite foldl_nadd_None in H. discriminate.
Qed.

Lemma foldl_nadd_scale (a : ndarray) acc c t :
  foldl nadd (Some acc) a = Some t ->
  foldl nadd (Some (acc * c)) (arr_scale a (Some c)) = Some (t * c).
Proof.
  revert acc. induction a as [|x a IH]; intros acc H; simpl in *.
  - inversion H. reflexivity.
  - destruct x as [x|]; simpl in *.
    + replace (acc * c + x * c) with ((acc + x) * c) by ring. apply IH, H.
    + rewrite foldl_nadd_None in H. discriminate.
Qed.

Lemma py_sum_scale (a : ndarray) c t :
  py_sum a = Some t -> py_sum (arr_scale a (Some c)) = Some (t * c).
Proof.
  unfold py_sum. intros H. apply (foldl_nadd_scale _ _ c) in H.
  replace (0 * c) with 0 in H by ring. exact H.
Qed.

Lemma arr_scale_zero (a : ndarray) t :
  py_sum a = Some t -> arr_scale a (Some 0) = replicate (length a) (Some 0).
Proof.
  intros H. destruct (foldl_nadd_Some_inv _ _ _ H) as [l ->]. clear H.
  induction l as [|x l IH]; simpl; [reflexivity|].
  f_equal; [ f_equal; ring | exact IH ].
Qed.

Lemma arr_add_lookup (a b r : ndarray) i :
  length a = length b -> arr_add a b = Ok r ->
  r !! i = match a !! i, b !! i with
           | Some x, Some y => Some (nadd x y)
           | _, _ => None
           end.
Proof.
  intros Hlen. unfold arr_add. rewrite bool_decide_eq_true_2 by exact Hlen.
  intros H. inversion H. subst r. clear H.
  rewrite lookup_zip_with.
  destruct (a !! i) as [x|] eqn:Ea; simpl; [|reflexivity].
  destruct (b !! i) as [y|] eqn:Eb; reflexivity.
Qed.

(** ** The proc distribution of [apply_mods] *)

(** What [apply_mods] leaves in [procProbabilities]: the sum of the modded
    vectors, scaled by [norm_factor] of its total. *)
Lemma apply_mods_procProbabilities s s' :
  apply_mods s = (Ok tt, s') ->
  exists raw,
    proc_weights s' = Ok raw
    /\ procProbabilities s' = arr_scale raw (norm_factor (py_sum raw)).
Proof.
  intros H. run_apply_mods H. subst s'. norm_fm_goal.
  match goal with Hw : proc_weights _ = Ok ?r |- _ => exists r; split; [|reflexivity] end.
  unfold proc_weights in *. norm_fm_goal.
  rewrite !modded_array_bind_quantized in *. assumption.
Qed.

(** C1 (as amended): the weights that [apply_mods] normalizes are the sums,
    slot by slot, of the modded physical and the modded elemental damage
    (not of the quantized vectors); they are scaled by [1/total] when the
    total is positive and by [0] otherwise. *)
Theorem C1_proc_weights_are_modded s s' :
  apply_mods s = (Ok tt, s') ->
  exists raw,
    proc_weights s' = Ok raw
    /\ (length (modded_array (damagePerShot s'))
        = length (modded_array (elementalDamagePerShot s')) ->
        forall i x y,
          modded_array (damagePerShot s') !! i = Some x ->
          modded_array (elementalDamagePerShot s') !! i = Some y ->
          raw !! i = Some (nadd x y))
    /\ procProbabilities s'
       = (fun w => nmul w (if ngt (py_sum raw) (Some 0)
                           then ndiv (Some 1) (py_sum raw) else Some 0)) <$> raw.
Proof.
  intros H. destruct (apply_mods_procProbabilities _ _ H) as (raw & Hraw & Hp).
  exists raw. split; [exact Hraw|]. split; [|exact Hp].
  intros Hlen i x y Hx Hy.
  unfold proc_weights in Hraw.
  rewrite (arr_add_lookup _ _ _ i Hlen Hraw), Hx, Hy. reflexivity.
Qed.

Lemma C1_proc_weights_are_modded_witness :
  exists s' raw,
    apply_mods heated_rifle = (Ok tt, s')
    /\ proc_weights s' = Ok raw
    /\ procProbabilities s'
       = (fun w => nmul w (if ngt (py_sum raw) (Some 0)
                           then ndiv (Some 1) (py_sum raw) else Some 0)) <$> raw.
Proof.
  destruct (apply_mods heated_rifle) as [[[]|e] s'] eqn:E;
    [| vm_compute in E; discriminate].
  destruct (C1_proc_weights_are_modded heated_rifle s' E) as (raw & H1 & _ & H2).
  exists s', raw. auto.
Defined.

(** C1 (as stated) fails: with impact 10 and 10 percent heat the weight of
    the impact slot is 10, the modded value, and not 165/16, the quantized
    one; the weights differ from the sums of the quantized vectors, and the
    distribution that [apply_mods] leaves (10/11 for impact) is not the
    normalized quantized one. *)
Lemma C1_counterexample :
  let s' := snd (apply_mods heated_rifle) in
  fst (apply_mods heated_rifle) = Ok tt
  /\ res_map (fun w : ndarray => w !! 0%nat) (proc_weights s')
     = Ok (Some (Some (Qc_of_Z 10)))
  /\ res_map (fun w : ndarray => w !! 0%nat) (proc_weights_quantized s')
     = Ok (Some (Some (Q2Qc (165 # 16))))
  /\ proc_weights s' <> proc_weights_quantized s'
  /\ procProbabilities s' !! 0%nat = Some (Some (Q2Qc (10 # 11)))
  /\ Ok (procProbabilities s')
     <> res_map (fun q => arr_scale q (norm_factor (py_sum q)))
                (proc_weights_quantized s').
Proof.
  cbv zeta. split; [vm_compute; reflexivity|].
  repeat split;
    first [ apply (bool_decide_eq_true_1 _); vm_compute; reflexivity
          | apply (bool_decide_eq_false_1 _); vm_compute; reflexivity ].
Qed.

(** ** The distribution sums to one *)

Lemma Qclt_irrefl (x : Qc) : ~ x < x.
Proof. intros H. exact (Qclt_not_le _ _ H (Qcle_refl x)). Qed.

Lemma norm_factor_pos t : 0 < t -> norm_factor (Some t) = Some (1 / t).
Proof.
  intros Ht. unfold norm_factor, ngt, ndiv.
  rewrite bool_decide_eq_true_2 by exact Ht.
  rewrite bool_decide_eq_false_2; [reflexivity|].
  intros ->. exact (Qclt_irrefl _ Ht).
Qed.

Lemma norm_factor_zero : norm_factor (Some 0) = Some 0.
Proof. reflexivity. Qed.

(** C8: after [apply_mods], [procProbabilities] sums to 1 when the total of
    the weights is positive, and is the zero vector when the total is 0. *)
Theorem C8_procProbabilities_normalized s s' :
  apply_mods s = (Ok tt, s') ->
  exists raw,
    proc_weights s' = Ok raw
    /\ (forall t, py_sum raw = Some t -> 0 < t ->
        py_sum (procProbabilities s') = Some 1)
    /\ (py_sum raw = Some 0 ->
        procProbabilities s' = replicate (length raw) (Some 0)).
Proof.
  intros H. destruct (apply_mods_procProbabilities _ _ H) as (raw & Hraw & Hp).
  exists raw. split; [exact Hraw|]. rewrite Hp. split.
  - intros t Ht Hpos. rewrite Ht, (norm_factor_pos _ Hpos).
    rewrite (py_sum_scale _ (1 / t) _ Ht). f_equal. field.
    intros ->. exact (Qclt_irrefl _ Hpos).
  - intros Ht. rewrite Ht, norm_factor_zero. exact (arr_scale_zero _ _ Ht).
Qed.

Lemma C8_procProbabilities_normalized_witness :
  exists s' raw,
    apply_mods heated_rifle = (Ok tt, s')
    /\ proc_weights s' = Ok raw
    /\ py_sum raw = Some (Qc_of_Z 11)
    /\ py_sum (procProbabilities s') = Some 1.
Proof.
  destruct (apply_mods heated_rifle) as [[[]|e] s'] eqn:E;
    [| vm_compute in E; discriminate].
  destruct (C8_procProbabilities_normalized heated_rifle s' E) as (raw & H1 & H2 & _).
  assert (py_sum raw = Some (Qc_of_Z 11)) as Hsum.
  { assert (s' = snd (apply_mods heated_rifle)) as -> by (rewrite E; reflexivity).
    assert (Ok raw = proc_weights (snd (apply_mods heated_rifle))) as Hr
      by (symmetry; exact H1).
    assert (Ok (py_sum raw)
            = rbind (proc_weights (snd (apply_mods heated_rifle)))
                    (fun q => Ok (py_sum q))) as Hs
      by (rewrite <- Hr; reflexivity).
    assert (rbind (proc_weights (snd (apply_mods heated_rifle)))
                  (fun q => Ok (py_sum q)) = Ok (Some (Qc_of_Z 11))) as Hv
      by (apply (bool_decide_eq_true_1 _); vm_compute; reflexivity).
    rewrite Hv in Hs. inversion Hs. reflexivity. }
  exists s', raw. repeat split; try assumption.
  apply (H2 _ Hsum). vm_compute. reflexivity.
Defined.

(** ** Elemental damage and the quantum *)

Lemma modded_array_store_modded a p : modded_array (store_modded a p) = a.
Proof. unfold store_modded, modded_array. destruct (dp_modded p); reflexivity. Qed.

Lemma setitem_modded_ok i v p p' :
  setitem_modded i v p = Ok p' ->
  modded_array p' = <[i := v]> (modded_array p)
  /\ (i < length (modded_array p))%nat.
Proof.
  unfold setitem_modded, arr_set. case_bool_decide as Hi; [|discriminate].
  intros H. inversion H. rewrite modded_array_store_modded. auto.
Qed.

(** The elemental vector after the seven assignments of [apply_mods]. *)
Lemma apply_mods_elemental s s' :
  apply_mods s = (Ok tt, s') ->
  let modded := modded_array (damagePerShot s') in
  let total_base_damage := py_sum modded in
  exists x0 x1 x2 impact puncture slash heat cold electric toxin,
    modded !! 0%nat = Some x0 /\ modded !! 1%nat = Some x1 /\ modded !! 2%nat = Some x2
    /\ impact_m (mods s) !! "base" = Some impact
    /\ puncture_m (mods s) !! "base" = Some puncture
    /\ slash_m (mods s) !! "base" = Some slash
    /\ heat_m (mods s) !! "base" = Some heat
    /\ cold_m (mods s) !! "base" = Some cold
    /\ electric_m (mods s) !! "base" = Some electric
    /\ toxin_m (mods s) !! "base" = Some toxin
    /\ (6 < length (modded_array (elementalDamagePerShot s)))%nat
    /\ modded_array (elementalDamagePerShot s')
       = <[6%nat := nmul total_base_damage (Some toxin)]>
         (<[5%nat := nmul total_base_damage (Some electric)]>
          (<[4%nat := nmul total_base_damage (Some cold)]>
           (<[3%nat := nmul total_base_damage (Some heat)]>
            (<[2%nat := nmul x2 (Some slash)]>
             (<[1%nat := nmul x1 (Some puncture)]>
              (<[0%nat := nmul x0 (Some impact)]>
               (modded_array (elementalDamagePerShot s)))))))).
Proof.
  intros H. run_apply_mods H. subst s'. norm_fm_goal.
  rewrite !modded_array_bind_quantized, !modded_array_bind_modded in *.
  repeat match goal with
         | Hs : setitem_modded _ _ _ = Ok _ |- _ =>
             apply setitem_modded_ok in Hs; destruct Hs as [? ?]
         | Hg : arr_get _ _ = Ok _ |- _ =>
             unfold arr_get in Hg;
             match type of Hg with
             | match ?l !! ?i with _ => _ end = _ =>
                 destruct (l !! i) eqn:?; [inversion Hg; subst; clear Hg | discriminate]
             end
         end.
  do 10 eexists. repeat (split; [eassumption|]).
  split.
  - repeat match goal with
           | Hl : (_ < length ?x)%nat, He : ?x = <[_ := _]> _ |- _ =>
               rewrite He, length_insert in Hl; clear He
           end.
    assumption.
  - congruence.
Qed.

Lemma apply_mods_quantized s s' :
  apply_mods s = (Ok tt, s') ->
  let modded := modded_array (damagePerShot s') in
  let elemental := modded_array (elementalDamagePerShot s') in
  let quanta := ndiv (nadd (py_sum modded) (py_sum elemental)) (Some (Qc_of_Z 16)) in
  quantized_array (damagePerShot s') = quantize modded quanta
  /\ quantized_array (elementalDamagePerShot s') = quantize elemental quanta.
Proof.
  intros H. run_apply_mods H. subst s'. norm_fm_goal.
  rewrite !modded_array_bind_quantized, !modded_array_bind_modded,
          !quantized_array_bind_quantized.
  split; reflexivity.
Qed.

Lemma lookup_insert_7 (a : ndarray) v0 v1 v2 v3 v4 v5 v6 :
  (6 < length a)%nat ->
  let a' := <[6%nat := v6]> (<[5%nat := v5]> (<[4%nat := v4]> (<[3%nat := v3]>
            (<[2%nat := v2]> (<[1%nat := v1]> (<[0%nat := v0]> a)))))) in
  a' !! 3%nat = Some v3 /\ a' !! 4%nat = Some v4
  /\ a' !! 5%nat = Some v5 /\ a' !! 6%nat = Some v6.
Proof.
  intros Hlen. cbv zeta.
  repeat split;
    repeat (rewrite list_lookup_insert_ne by lia);
    (rewrite list_lookup_insert_eq; [reflexivity | rewrite ?length_insert; lia]).
Qed.

(** C2 (as amended): the slots 3 to 6 (heat, cold, electric, toxin) of the
    elemental vector are [total_base_damage] times the modifier of the
    type, where [total_base_damage] is the sum of all the slots of the
    modded damage vector (elemental slots of the base damage included);
    the same total is the [T] of the quantum [(T + E) / 16] with which
    both vectors are quantized. *)
Theorem C2_elemental_from_total_damage s s' :
  apply_mods s = (Ok tt, s') ->
  let total_base_damage := py_sum (modded_array (damagePerShot s')) in
  let elemental := modded_array (elementalDamagePerShot s') in
  let quanta :=
    ndiv (nadd total_base_damage (py_sum elemental)) (Some (Qc_of_Z 16)) in
  exists heat cold electric toxin,
    heat_m (mods s) !! "base" = Some heat
    /\ cold_m (mods s) !! "base" = Some cold
    /\ electric_m (mods s) !! "base" = Some electric
    /\ toxin_m (mods s) !! "base" = Some toxin
    /\ elemental !! 3%nat = Some (nmul total_base_damage (Some heat))
    /\ elemental !! 4%nat = Some (nmul total_base_damage (Some cold))
    /\ elemental !! 5%nat = Some (nmul total_base_damage (Some electric))
    /\ elemental !! 6%nat = Some (nmul total_base_damage (Some toxin))
    /\ quantized_array (damagePerShot s')
       = quantize (modded_array (damagePerShot s')) quanta
    /\ quantized_array (elementalDamagePerShot s') = quantize elemental quanta.
Proof.
  intros H. cbv zeta.
  destruct (apply_mods_elemental _ _ H)
    as (x0 & x1 & x2 & impact & puncture & slash & heat & cold & electric & toxin
        & _ & _ & _ & _ & _ & _ & Hh & Hc & He & Ht & Hlen & Hel).
  destruct (apply_mods_quantized _ _ H) as [Hq1 Hq2].
  exists heat, cold, electric, toxin.
  repeat (split; [assumption|]).
  pose proof (lookup_insert_7 (modded_array (elementalDamagePerShot s))
                (nmul x0 (Some impact)) (nmul x1 (Some puncture)) (nmul x2 (Some slash))
                (nmul (py_sum (modded_array (damagePerShot s'))) (Some heat))
                (nmul (py_sum (modded_array (damagePerShot s'))) (Some cold))
                (nmul (py_sum (modded_array (damagePerShot s'))) (Some electric))
                (nmul (py_sum (modded_array (damagePerShot s'))) (Some toxin))
                Hlen) as (L3 & L4 & L5 & L6).
  cbv zeta in L3, L4, L5, L6. rewrite <- Hel in L3, L4, L5, L6.
  repeat (split; [assumption|]).
  assumption.
Qed.

Lemma C2_elemental_from_total_damage_witness :
  exists s',
    apply_mods innate_heat_rifle = (Ok tt, s')
    /\ heat_m (mods innate_heat_rifle) !! "base" = Some 1
    /\ modded_array (elementalDamagePerShot s') !! 3%nat
       = Some (nmul (py_sum (modded_array (damagePerShot s'))) (Some 1)).
Proof.
  destruct (apply_mods innate_heat_rifle) as [[[]|e] s'] eqn:E;
    [| vm_compute in E; discriminate].
  destruct (C2_elemental_from_total_damage innate_heat_rifle s' E)
    as (heat & cold & electric & toxin & Hh & _ & _ & _ & H3 & _).
  assert (heat_m (mods innate_heat_rifle) !! "base" = Some 1) as Hh'
    by (apply (bool_decide_eq_true_1 _); vm_compute; reflexivity).
  exists s'. split; [reflexivity|]. split; [exact Hh'|].
  rewrite Hh' in Hh. inversion Hh. subst heat. exact H3.
Defined.

(** C2 (as stated) fails: with impact 10, an innate heat damage of 5 and a
    heat mod of 100 percent, the heat slot of the elemental vector is 15,
    the total of all slots, and not 10, the total of the physical slots;
    the quantum is [(15 + 15) / 16], not [(10 + 15) / 16]. *)
Lemma C2_counterexample :
  let s' := snd (apply_mods innate_heat_rifle) in
  let elemental := modded_array (elementalDamagePerShot s') in
  let T := physical_total (modded_array (damagePerShot s')) in
  fst (apply_mods innate_heat_rifle) = Ok tt
  /\ heat_m (mods innate_heat_rifle) !! "base" = Some 1
  /\ elemental !! 3%nat = Some (Some (Qc_of_Z 15))
  /\ nmul T (Some 1) = Some (Qc_of_Z 10)
  /\ elemental !! 3%nat <> Some (nmul T (Some 1))
  /\ quantized_array (damagePerShot s')
     <> quantize (modded_array (damagePerShot s'))
                 (ndiv (nadd T (py_sum elemental)) (Some (Qc_of_Z 16))).
Proof.
  cbv zeta. split; [vm_compute; reflexivity|].
  repeat split;
    first [ apply (bool_decide_eq_true_1 _); vm_compute; reflexivity
          | apply (bool_decide_eq_false_1 _); vm_compute; reflexivity ].
Qed.

(** The elemental vector of a fire mode is written in place: while its
    [modded] is the array of [base], as the constructor and [reset] leave
    it, [apply_mods] changes [base] with it. *)
Lemma apply_mods_elemental_alias s s' :
  dp_modded (elementalDamagePerShot s) = SameAsBase ->
  apply_mods s = (Ok tt, s') ->
  dp_modded (elementalDamagePerShot s') = SameAsBase
  /\ dp_base (elementalDamagePerShot s') = modded_array (elementalDamagePerShot s').
Proof.
  intros Halias H. run_apply_mods H. subst s'. norm_fm_goal.
  assert (forall i v p p', dp_modded p = SameAsBase -> setitem_modded i v p = Ok p' ->
                           dp_modded p' = SameAsBase) as Hkeep.
  { intros i v p p' Hp. unfold setitem_modded, store_modded. rewrite Hp.
    destruct (arr_set _ _ _); intros Hs; inversion Hs; reflexivity. }
  repeat match goal with
         | Hs : setitem_modded _ _ ?p = Ok ?p', Hp : dp_modded ?p = SameAsBase |- _ =>
             pose proof (Hkeep _ _ _ _ Hp Hs); clear Hs
         end.
  unfold bind_quantized, modded_array, dp_deref. cbn [dp_modded dp_base].
  match goal with Hp : dp_modded ?p = SameAsBase |- context [dp_modded ?p] => rewrite Hp end.
  split; reflexivity.
Qed.

(** ** [reset] *)

(** C3 (as amended): [reset] sets every modded and quantized field to the
    base value of its parameter, keeps the base values and every modifier
    bucket (and the data record), and sets the [current] ammunition of the
    magazine to the magazine's base value as well. *)
Theorem C3_reset_restores_base s :
  let s' := FireMode_reset s in
  DamageParameter_is_reset (damagePerShot s) (damagePerShot s')
  /\ DamageParameter_is_reset (elementalDamagePerShot s) (elementalDamagePerShot s')
  /\ Parameter_is_reset (criticalChance s) (criticalChance s')
  /\ Parameter_is_reset (criticalMultiplier s) (criticalMultiplier s')
  /\ Parameter_is_reset (procChance s) (procChance s')
  /\ Parameter_is_reset (fireRate s) (fireRate s')
  /\ Parameter_is_reset (reloadTime s) (reloadTime s')
  /\ Parameter_is_reset (multishot s) (multishot s')
  /\ Parameter_is_reset (ammoCost s) (ammoCost s')
  /\ Parameter_is_reset (chargeTime s) (chargeTime s')
  /\ Parameter_is_reset (embedDelay s) (embedDelay s')
  /\ mp_base (magazineSize s') = mp_base (magazineSize s)
  /\ mp_modded (magazineSize s') = mp_base (magazineSize s)
  /\ mp_current (magazineSize s') = mp_base (magazineSize s)
  /\ attack_index s' = 1%Z
  /\ mods s' = mods s
  /\ data s' = data s.
Proof.
  cbv zeta. unfold Parameter_is_reset, DamageParameter_is_reset.
  repeat split.
Qed.

(** C3 (as stated) fails: [reset] does reset the magazine's [current].  A
    fire mode with 40 rounds left of 100 has 100 after [reset]. *)
Lemma C3_counterexample :
  mp_current (magazineSize spent_rifle) = Qc_of_Z 40
  /\ mp_current (magazineSize (FireMode_reset spent_rifle)) = Qc_of_Z 100
  /\ mp_current (magazineSize (FireMode_reset spent_rifle))
     <> mp_current (magazineSize spent_rifle).
Proof.
  repeat split; [ apply (bool_decide_eq_false_1 _); vm_compute; reflexivity ].
Qed.

(** [reset] twice is [reset] once. *)
Lemma FireMode_reset_idempotent s :
  FireMode_reset (FireMode_reset s) = FireMode_reset s.
Proof. destruct s. vm_compute. reflexivity. Qed.

(** ** The tier roll *)

Lemma py_int_nonneg x : 0 <= x -> py_int x = Qfloor x.
Proof. intros H. unfold py_int. rewrite bool_decide_eq_true_2 by exact H. reflexivity. Qed.

(** C9 (as amended): for every input [x >= 0] and every value [r] of the
    random source, [get_tier] returns [floor x + 1] when
    [r < fractional_part x] and [floor x] otherwise. *)
Theorem C9_get_tier_nonneg (x r : Qc) :
  0 <= x -> get_tier x r = tier_rule x r.
Proof.
  intros Hx. unfold get_tier, tier_rule, py_mod1. rewrite (py_int_nonneg _ Hx).
  case_bool_decide; simpl; lia.
Qed.

Lemma C9_get_tier_nonneg_witness :
  0 <= Q2Qc 2.3
  /\ get_tier (Q2Qc 2.3) (Q2Qc 0.1) = tier_rule (Q2Qc 2.3) (Q2Qc 0.1)
  /\ get_tier (Q2Qc 2.3) (Q2Qc 0.1) = 3%Z.
Proof.
  assert (0 <= Q2Qc 2.3) as H by (vm_compute; discriminate).
  split; [exact H|]. split; [exact (C9_get_tier_nonneg _ _ H) | vm_compute; reflexivity].
Defined.

(** C9 (as stated) fails for a negative input that is not an integer:
    [int] truncates towards zero, so [get_tier(-1.5)] with [r = 0.9] is
    [-1], and the rule gives [floor(-1.5) = -2]. *)
Lemma C9_counterexample :
  get_tier (Q2Qc (-1.5)) (Q2Qc 0.9) = (-1)%Z
  /\ tier_rule (Q2Qc (-1.5)) (Q2Qc 0.9) = (-2)%Z
  /\ get_tier (Q2Qc (-1.5)) (Q2Qc 0.9) <> tier_rule (Q2Qc (-1.5)) (Q2Qc 0.9).
Proof.
  split; [vm_compute; reflexivity|]. split; [vm_compute; reflexivity|].
  vm_compute. discriminate.
Qed.

(** ** Fire mode effects *)

(** What the constructor of an effect returns for a parent whose four
    parameters are assigned: a field is the value of the effect's own data
    record when present; otherwise damage, critical chance, critical
    multiplier and status chance are the parent's parameter object of that
    name, and multishot and embed delay are 1 and 0. *)
Lemma FireModeEffect_init_fields MAX_TIME_OFFSET (fm : FireMode) name effects d :
  d_secondaryEffects (data fm) = Some effects ->
  assoc name effects = Some d ->
  exists fme,
    FireModeEffect_init MAX_TIME_OFFSET (attrs_of fm) name = Ok fme
    /\ fme_damagePerShot fme
       = match e_damagePerShot d with
         | Some l => FromData (np_array l)
         | None => FromParent (damagePerShot fm)
         end
    /\ fme_criticalChance fme
       = match e_criticalChance d with
         | Some v => FromData v
         | None => FromParent (criticalChance fm)
         end
    /\ fme_criticalMultiplier fme
       = match e_criticalMultiplier d with
         | Some v => FromData v
         | None => FromParent (criticalMultiplier fm)
         end
    /\ fme_procChance fme
       = match e_procChance d with
         | Some v => FromData v
         | None => FromParent (procChance fm)
         end
    /\ fme_multishot fme = match e_multishot d with Some v => v | None => 1 end
    /\ fme_embedDelay fme = match e_embedDelay d with Some v => v | None => 0 end.
Proof.
  intros Heff Hd. unfold FireModeEffect_init, attrs_of; cbn [a_data a_damagePerShot
    a_criticalChance a_criticalMultiplier a_procChance getattr rbind].
  rewrite Heff. cbn [rbind]. rewrite Hd. cbn [rbind].
  eexists. split; [reflexivity|].
  cbn [fme_damagePerShot fme_criticalChance fme_criticalMultiplier fme_procChance
       fme_multishot fme_embedDelay].
  destruct d as [dd dc dm dp dms ded df]; cbn.
  destruct dd, dc, dm, dp, dms, ded; repeat split.
Qed.

(** An effect cannot be built while the parent has no [damagePerShot]. *)
Lemma FireModeEffect_init_early MAX_TIME_OFFSET parent name effects d :
  d_secondaryEffects (a_data parent) = Some effects ->
  assoc name effects = Some d ->
  a_damagePerShot parent = None ->
  FireModeEffect_init MAX_TIME_OFFSET parent name = Raise AttributeError.
Proof.
  intros He Hd Hp. unfold FireModeEffect_init. rewrite He. cbn [rbind].
  rewrite Hd. cbn [rbind]. rewrite Hp. reflexivity.
Qed.

(** The constructor of a fire mode builds its effects before it assigns
    its own parameters: a data record with a secondary effect raises. *)
Lemma FireMode_init_with_effects MAX_TIME_OFFSET weapon_data name fire_modes d n e l :
  wd_fireModes weapon_data = Some fire_modes ->
  assoc name fire_modes = Some d ->
  d_secondaryEffects d = Some ((n, e) :: l) ->
  FireMode_init MAX_TIME_OFFSET weapon_data name = Raise AttributeError.
Proof.
  intros Hf Hd He. unfold FireMode_init. rewrite Hf. cbn [rbind]. rewrite Hd. cbn [rbind].
  rewrite He.
  change (fst <$> default [] (Some ((n, e) :: l))) with (n :: (fst <$> l)).
  cbn [foldr].
  rewrite (FireModeEffect_init_early MAX_TIME_OFFSET _ n ((n, e) :: l) e); try reflexivity.
  - exact He.
  - cbn [assoc]. rewrite bool_decide_eq_true_2 by reflexivity. reflexivity.
Qed.

(** C6: no effect is ever built.  The constructor of a fire mode builds
    its effects first, when the parameters that an effect takes its
    defaults from are not assigned yet: on the data of the launcher, whose
    one effect sets nothing of its own, the constructors of the fire mode
    and of the weapon raise [AttributeError]. *)
Theorem C6_effect_never_built :
  d_secondaryEffects launcher_data
  = Some [("explosion", mkEffectData None None None None None None None)]
  /\ FireMode_init 0 launcher_weapon "primary" = Raise AttributeError
  /\ Weapon_init 0 sample_export "Launcher" = Raise AttributeError.
Proof.
  assert (FireMode_init 0 launcher_weapon "primary" = Raise AttributeError) as H.
  { apply (FireMode_init_with_effects 0 launcher_weapon "primary"
             [("primary", launcher_data)] launcher_data "explosion"
             (mkEffectData None None None None None None None) []);
      reflexivity. }
  split; [reflexivity|]. split; [exact H|].
  unfold Weapon_init.
  change (get_weapon_data sample_export "Launcher") with launcher_weapon.
  change (fst <$> default [] (wd_fireModes launcher_weapon)) with ["primary"].
  cbn [foldr]. rewrite H. reflexivity.
Qed.

(** ** Shared arrays *)

(** After [reset] the three references of a [DamageParameter] are one
    array, so the two in-place products of [multiply] both land on it. *)
Lemma reset_multiply_alias v p :
  dp_base (DamageParameter_multiply v (DamageParameter_reset p))
  = arr_scale (arr_scale (dp_base p) (Some v)) (Some v).
Proof. reflexivity. Qed.

(** ** The scalar statistics of [apply_mods] *)

Lemma py_div_ok x y v : py_div x y = Ok v -> y <> 0 /\ v = x / y.
Proof.
  unfold py_div. case_bool_decide as Hy; intros Hd; inversion Hd; auto.
Qed.

Ltac use_entries :=
  repeat match goal with
         | H1 : ?x = Some ?a, H2 : ?x = Some ?b |- _ =>
             rewrite H1 in H2; inversion H2; subst; clear H2
         end;
  unfold entry;
  repeat match goal with
         | H : ?m !! ?k = Some _ |- _ => rewrite !H; clear H
         end;
  cbn [default].

Lemma apply_mods_scalars s s' :
  apply_mods s = (Ok tt, s') ->
  let b := mods s in
  p_modded (criticalChance s')
  = ((p_base (criticalChance s) + entry (criticalChance_m b) "additive_base")
     * (1 + entry (criticalChance_m b) "base")
     + entry (criticalChance_m b) "additive_final")
    * entry (criticalChance_m b) "deadly_munitions"
    + entry (criticalChance_m b) "covenant"
  /\ p_modded (criticalMultiplier s')
     = ((p_base (criticalMultiplier s) + entry (criticalMultiplier_m b) "additive_base")
        * (1 + entry (criticalMultiplier_m b) "base")
        + entry (criticalMultiplier_m b) "additive_final")
       * entry (criticalMultiplier_m b) "final_multiplier"
  /\ p_modded (procChance s')
     = (p_base (procChance s) + entry (procChance_m b) "additive_base")
       * ((1 + entry (procChance_m b) "base") + entry (procChance_m b) "additive_final")
       * entry (procChance_m b) "final_multiplier"
       * entry (procChance_m b) "multishot_multiplier"
  /\ p_modded (multishot s')
     = p_base (multishot s) * (1 + entry (multishot_m b) "base")
  /\ p_modded (fireRate s')
     = p_base (fireRate s) * (1 + entry (fireRate_m b) "base")
  /\ (1 + entry (reloadTime_m b) "base" <> 0
      /\ p_modded (reloadTime s')
         = p_base (reloadTime s) / (1 + entry (reloadTime_m b) "base"))
  /\ mp_modded (magazineSize s')
     = mp_base (magazineSize s) * (1 + entry (magazineSize_m b) "base")
  /\ (1 + entry (fireRate_m b) "base" <> 0
      /\ p_modded (chargeTime s')
         = p_base (chargeTime s) / (1 + entry (fireRate_m b) "base"))
  /\ p_modded (embedDelay s') = p_base (embedDelay s)
  /\ p_modded (ammoCost s')
     = p_base (ammoCost s)
       * py_max 0 (1 - entry (ammoCost_m b) "base")
       * py_max 0 (1 - entry (ammoCost_m b) "energized_munitions").
Proof.
  intros H. run_apply_mods H. subst s'. norm_fm_goal. cbv zeta.
  repeat match goal with
         | Hd : py_div _ _ = Ok _ |- _ =>
             apply py_div_ok in Hd; destruct Hd as [? ->]
         end.
  cbn [p_modded p_set_modded p_base mp_modded mp_set_modded mp_base].
  use_entries.
  repeat split; assumption.
Qed.

(** What [apply_mods] does not change. *)
Lemma apply_mods_frame s s' :
  apply_mods s = (Ok tt, s') ->
  mods s' = mods s
  /\ name s' = name s /\ data s' = data s
  /\ fire_mode_effects s' = fire_mode_effects s
  /\ trigger s' = trigger s /\ attack_index s' = attack_index s
  /\ dp_base (damagePerShot s') = dp_base (damagePerShot s)
  /\ p_base (criticalChance s') = p_base (criticalChance s)
  /\ p_base (criticalMultiplier s') = p_base (criticalMultiplier s)
  /\ p_base (procChance s') = p_base (procChance s)
  /\ p_base (multishot s') = p_base (multishot s)
  /\ p_base (fireRate s') = p_base (fireRate s)
  /\ p_base (reloadTime s') = p_base (reloadTime s)
  /\ p_base (chargeTime s') = p_base (chargeTime s)
  /\ p_base (embedDelay s') = p_base (embedDelay s)
  /\ p_base (ammoCost s') = p_base (ammoCost s)
  /\ mp_base (magazineSize s') = mp_base (magazineSize s)
  /\ mp_current (magazineSize s') = mp_current (magazineSize s).
Proof.
  intros H. run_apply_mods H. subst s'. norm_fm_goal.
  repeat split.
Qed.

Lemma arr_add_same_length (a b r : ndarray) :
  length a = length b -> arr_add a b = Ok r -> r = zip_with nadd a b.
Proof.
  intros Hlen. unfold arr_add. rewrite bool_decide_eq_true_2 by exact Hlen.
  intros H. inversion H. reflexivity.
Qed.

(** The modded damage vector of [apply_mods]. *)
Lemma apply_mods_damage s s' :
  apply_mods s = (Ok tt, s') ->
  let b := mods s in
  let base := dp_base (damagePerShot s) in
  let weights := arr_div base (nmax (py_sum base) (Some (Q2Qc 0.01))) in
  let bonus := arr_scale weights (Some (entry (bonusDamagePerShot_m b) "additive_base")) in
  modded_array (damagePerShot s')
  = arr_scale
      (arr_scale
         (arr_scale (zip_with nadd base bonus)
                    (Some (1 + entry (damagePerShot_m b) "base")))
         (Some (entry (damagePerShot_m b) "multishot_multiplier")))
      (Some (entry (damagePerShot_m b) "final_multiplier")).
Proof.
  intros H. run_apply_mods H. subst s'. norm_fm_goal. cbv zeta.
  rewrite !modded_array_bind_quantized, !modded_array_bind_modded.
  match goal with
  | Ha : arr_add _ _ = Ok _ |- _ =>
      apply arr_add_same_length in Ha;
      [ rewrite Ha | unfold arr_scale, arr_div; rewrite !length_fmap; reflexivity ]
  end.
  use_entries. reflexivity.
Qed.

(** ** Default buckets *)

Ltac default_entries :=
  repeat match goal with
         | |- context [entry (?f default_buckets) ?k] =>
             first [ replace (entry (f default_buckets) k) with (Q2Qc 0)
                       by (vm_compute; reflexivity)
                   | replace (entry (f default_buckets) k) with (Q2Qc 1)
                       by (vm_compute; reflexivity) ]
         end.

Lemma Qc_one_plus_zero : 1 + 0 = 1.
Proof. ring. Qed.

Lemma Qc_div_one (x : Qc) : x / 1 = x.
Proof. unfold Qcdiv. replace (/ 1) with 1 by (apply Qc_is_canon; reflexivity). ring. Qed.

Lemma py_max_zero_one : py_max 0 (1 - 0) = 1.
Proof. replace (1 - 0) with 1 by ring. reflexivity. Qed.

Lemma nmax_pos t : 0 < t -> exists m, nmax (Some t) (Some (Q2Qc 0.01)) = Some m /\ m <> 0.
Proof.
  intros Ht. unfold nmax, ngt. case_bool_decide as Hc.
  - exists (Q2Qc 0.01). split; [reflexivity|]. intros E. discriminate E.
  - exists t. split; [reflexivity|]. intros ->. exact (Qclt_irrefl _ Ht).
Qed.

Lemma damage_without_mods (l : list Qc) (m : Qc) :
  m <> 0 ->
  arr_scale
    (arr_scale
       (arr_scale
          (zip_with nadd (Some <$> l)
             (arr_scale (arr_div (Some <$> l) (Some m)) (Some 0)))
          (Some (1 + 0)))
       (Some 1))
    (Some 1)
  = Some <$> l.
Proof.
  intros Hm. induction l as [|x l IH]; [reflexivity|].
  unfold arr_scale, arr_div in *. cbn [fmap list_fmap zip_with] in *.
  rewrite IH. f_equal.
  unfold ndiv. rewrite bool_decide_eq_false_2 by exact Hm.
  cbn [nmul nadd]. f_equal. unfold Qcdiv. ring.
Qed.

(** The modded statistics under the default buckets. *)
Lemma default_buckets_identity s s' :
  mods s = default_buckets ->
  (exists t, py_sum (dp_base (damagePerShot s)) = Some t /\ 0 < t) ->
  apply_mods s = (Ok tt, s') ->
  modded_array (damagePerShot s') = dp_base (damagePerShot s')
  /\ p_modded (criticalChance s') = p_base (criticalChance s')
  /\ p_modded (criticalMultiplier s') = p_base (criticalMultiplier s')
  /\ p_modded (procChance s') = p_base (procChance s')
  /\ p_modded (multishot s') = p_base (multishot s')
  /\ p_modded (fireRate s') = p_base (fireRate s')
  /\ p_modded (reloadTime s') = p_base (reloadTime s')
  /\ mp_modded (magazineSize s') = mp_base (magazineSize s')
  /\ p_modded (chargeTime s') = p_base (chargeTime s')
  /\ p_modded (embedDelay s') = p_base (embedDelay s')
  /\ p_modded (ammoCost s') = p_base (ammoCost s').
Proof.
  intros Hmods (t & Hsum & Hpos) H.
  pose proof (apply_mods_scalars _ _ H) as Hs. cbv zeta in Hs.
  pose proof (apply_mods_damage _ _ H) as Hd. cbv zeta in Hd.
  destruct (apply_mods_frame _ _ H)
    as (_ & _ & _ & _ & _ & _ & B0 & B1 & B2 & B3 & B4 & B5 & B6 & B7 & B8 & B9 & B10 & _).
  rewrite Hmods in Hs, Hd.
  rewrite B0, B1, B2, B3, B4, B5, B6, B7, B8, B9, B10.
  destruct Hs as (S1 & S2 & S3 & S4 & S5 & (_ & S6) & S7 & (_ & S8) & S9 & S10).
  rewrite S1, S2, S3, S4, S5, S6, S7, S8, S9, S10, Hd.
  default_entries.
  rewrite !py_max_zero_one, !Qc_one_plus_zero, !Qc_div_one.
  repeat split; try ring.
  revert Hsum Hpos. generalize (dp_base (damagePerShot s)). clear.
  intros a Hsum Hpos.
  destruct (nmax_pos _ Hpos) as (m & Hm & Hm0).
  rewrite Hsum, Hm.
  destruct (foldl_nadd_Some_inv _ _ _ Hsum) as [l ->].
  rewrite <- Qc_one_plus_zero at 1.
  exact (damage_without_mods l m Hm0).
Qed.

(** ** Runs that raise *)

Lemma bind_raise_inv {S A B} (m : M S A) (k : A -> M S B) s e s' :
  bind m k s = (Raise e, s') ->
  m s = (Raise e, s') \/ exists a s1, m s = (Ok a, s1) /\ k a s1 = (Raise e, s').
Proof.
  unfold bind. destruct (m s) as [[a|e0] s1]; intros H; [right; eauto | left; inversion H; reflexivity].
Qed.

Lemma get_raise {S} (s : S) e s1 : get s = (Raise e, s1) -> False.
Proof. unfold get. discriminate. Qed.

Lemma modify_raise {S} (f : S -> S) (s : S) e s1 : modify f s = (Raise e, s1) -> False.
Proof. unfold modify. discriminate. Qed.

Lemma lift_raise {S A} (r : res A) (s : S) e s1 :
  lift r s = (Raise e, s1) -> r = Raise e.
Proof. unfold lift. intros H; inversion H; reflexivity. Qed.

Lemma bucket_raise b key s e s1 :
  bucket b key s = (Raise e, s1) -> b (mods s) !! key = None.
Proof.
  unfold bucket, bind, get, lift, getitem.
  destruct (b (mods s) !! key); [discriminate | reflexivity].
Qed.

Lemma set_elemental_raise i v s e s1 :
  set_elemental i v s = (Raise e, s1) ->
  (length (modded_array (elementalDamagePerShot s)) <= i)%nat.
Proof.
  unfold set_elemental, bind, get, lift, modify, setitem_modded, arr_set.
  case_bool_decide as Hi; [discriminate | intros _; lia].
Qed.

Lemma arr_get_raise (a : ndarray) i e :
  arr_get a i = Raise e -> (length a <= i)%nat.
Proof.
  unfold arr_get. destruct (a !! i) eqn:E; [discriminate|].
  intros _. apply lookup_ge_None. exact E.
Qed.


Lemma arr_add_raise (a b : ndarray) e :
  arr_add a b = Raise e -> length a <> length b.
Proof.
  unfold arr_add. case_bool_decide; [discriminate | auto].
Qed.

Lemma py_div_raise x y e : py_div x y = Raise e -> y = 0.
Proof. unfold py_div. case_bool_decide; [auto | discriminate]. Qed.

Ltac len_solver :=
  unfold arr_scale, arr_div in *;
  repeat first
    [ rewrite length_insert
    | rewrite length_fmap
    | rewrite length_zip_with
    | match goal with
      | E : modded_array ?x = <[_ := _]> _ |- context [modded_array ?x] => rewrite E
      end
    | match goal with
      | E : ?a = zip_with _ _ _ |- context [length ?a] => rewrite E
      end ];
  lia.

Ltac zero_div H Hmods :=
  apply py_div_raise in H;
  match goal with
  | Hb : _ !! "base" = Some ?v |- _ =>
      match type of H with
      | context [v] => rewrite Hmods in Hb; vm_compute in Hb; inversion Hb; subst v
      end
  end;
  apply (f_equal this) in H; vm_compute in H; discriminate.

Ltac step_total H Hmods :=
  apply bind_raise_inv in H;
  let a := fresh "a" in
  let s1 := fresh "s" in
  let H1 := fresh "H" in
  destruct H as [H | (a & s1 & H1 & H)];
  [ exfalso;
    lazymatch type of H with
    | get _ = _ => exact (get_raise _ _ _ H)
    | modify _ _ = _ => exact (modify_raise _ _ _ _ H)
    | bucket _ _ _ = _ =>
        apply bucket_raise in H; norm_fm H; rewrite Hmods in H;
        vm_compute in H; discriminate
    | lift _ _ = _ =>
        apply lift_raise in H; unfold proc_weights in H; norm_fm H;
        rewrite ?modded_array_bind_quantized, ?modded_array_bind_modded in H;
        first [ apply arr_add_raise in H; apply H; len_solver
              | apply arr_get_raise in H; revert H; len_solver
              | zero_div H Hmods ]
    | set_elemental _ _ _ = _ =>
        apply set_elemental_raise in H; norm_fm H; revert H; len_solver
    end
  | lazymatch type of H1 with
    | get _ = _ => apply get_ok_inv in H1; destruct H1 as [-> ->]
    | bucket _ _ _ = _ => apply bucket_ok_inv in H1; destruct H1 as [-> H1]; norm_fm H1
    | lift _ _ = _ =>
        apply lift_ok_inv in H1; destruct H1 as [-> H1]; norm_fm H1;
        try (apply arr_add_same_length in H1; [|len_solver])
    | modify _ _ = _ => apply modify_ok_inv in H1; norm_fm H1; subst s1
    | set_elemental _ _ _ = _ =>
        apply set_elemental_ok_inv in H1; destruct H1 as (? & H1 & ->); norm_fm H1;
        apply setitem_modded_ok in H1; destruct H1 as [H1 _]
    end;
    norm_fm H;
    rewrite ?modded_array_bind_quantized, ?modded_array_bind_modded in H ].

(** With the default buckets and vectors of 20 slots nothing raises. *)
Lemma apply_mods_no_raise s e s' :
  mods s = default_buckets ->
  length (dp_base (damagePerShot s)) = 20%nat ->
  length (modded_array (elementalDamagePerShot s)) = 20%nat ->
  apply_mods s = (Raise e, s') -> False.
Proof.
  intros Hmods Hl1 Hl2 H. unfold apply_mods in H.
  repeat step_total H Hmods.
  exact (modify_raise _ _ _ _ H).
Qed.

(** C10: with every bucket at its default and a base damage vector of
    positive sum, [apply_mods] leaves in every modded statistic the base
    value: damage per shot, critical chance, critical multiplier, status
    chance, multishot, fire rate, reload time, magazine size, charge time,
    embed delay and ammo cost. *)
Theorem C10_default_buckets_identity s :
  mods s = default_buckets ->
  (exists t, py_sum (dp_base (damagePerShot s)) = Some t /\ 0 < t) ->
  (length (dp_base (damagePerShot s)) = 20%nat ->
   length (modded_array (elementalDamagePerShot s)) = 20%nat ->
   exists s', apply_mods s = (Ok tt, s'))
  /\ (forall s',
        apply_mods s = (Ok tt, s') ->
        modded_array (damagePerShot s') = dp_base (damagePerShot s')
        /\ p_modded (criticalChance s') = p_base (criticalChance s')
        /\ p_modded (criticalMultiplier s') = p_base (criticalMultiplier s')
        /\ p_modded (procChance s') = p_base (procChance s')
        /\ p_modded (multishot s') = p_base (multishot s')
        /\ p_modded (fireRate s') = p_base (fireRate s')
        /\ p_modded (reloadTime s') = p_base (reloadTime s')
        /\ mp_modded (magazineSize s') = mp_base (magazineSize s')
        /\ p_modded (chargeTime s') = p_base (chargeTime s')
        /\ p_modded (embedDelay s') = p_base (embedDelay s')
        /\ p_modded (ammoCost s') = p_base (ammoCost s')).
Proof.
  intros Hmods Hpos. split.
  - intros Hl1 Hl2. destruct (apply_mods s) as [[[]|e] s'] eqn:E.
    + exists s'. reflexivity.
    + exfalso. exact (apply_mods_no_raise s e s' Hmods Hl1 Hl2 E).
  - intros s' H. exact (default_buckets_identity s s' Hmods Hpos H).
Qed.

Lemma C10_default_buckets_identity_witness :
  exists s',
    apply_mods plain_rifle = (Ok tt, s')
    /\ modded_array (damagePerShot s') = dp_base (damagePerShot s')
    /\ p_modded (fireRate s') = p_base (fireRate s')
    /\ p_modded (ammoCost s') = p_base (ammoCost s').
Proof.
  assert (exists t, py_sum (dp_base (damagePerShot plain_rifle)) = Some t /\ 0 < t) as Hpos.
  { exists (Qc_of_Z 10). split.
    - apply (bool_decide_eq_true_1 _). vm_compute. reflexivity.
    - vm_compute. reflexivity. }
  destruct (C10_default_buckets_identity plain_rifle eq_refl Hpos) as [Hret Hid].
  destruct (Hret eq_refl eq_refl) as [s' Hs'].
  destruct (Hid s' Hs') as (H1 & _ & _ & _ & _ & H2 & _ & _ & _ & _ & H3).
  exists s'. repeat split; assumption.
Defined.

(** ** The critical multiplier *)

Lemma rbind_ok_inv {A B} (r : res A) (k : A -> res B) b :
  rbind r k = Ok b -> exists a, r = Ok a /\ k a = Ok b.
Proof. destruct r as [a|e]; simpl; intros H; [eauto | discriminate]. Qed.

(** C7: the base of the critical multiplier of a constructed fire mode is
    [round(raw * (128 - 1/32)) / (128 - 1/32)] for the raw value [raw] of
    the data record (1 when absent).  The quantization is done by the
    constructor before the modifiers are applied (the modded value that
    the constructor leaves is computed from the quantized base), and
    neither [reset] nor [apply_mods] changes the base. *)
Theorem C7_critical_multiplier_base MAX_TIME_OFFSET weapon_data name fm :
  FireMode_init MAX_TIME_OFFSET weapon_data name = Ok fm ->
  exists fire_modes d,
    wd_fireModes weapon_data = Some fire_modes
    /\ assoc name fire_modes = Some d
    /\ (let raw := default 1 (d_criticalMultiplier d) in
        let c := Qc_of_Z 128 - 1 / Qc_of_Z 32 in
        p_base (criticalMultiplier fm) = py_round (raw * c) / c)
    /\ p_modded (criticalMultiplier fm) = p_base (criticalMultiplier fm)
    /\ p_base (criticalMultiplier (FireMode_reset fm)) = p_base (criticalMultiplier fm)
    /\ (forall fm', apply_mods fm = (Ok tt, fm') ->
        p_base (criticalMultiplier fm') = p_base (criticalMultiplier fm)).
Proof.
  unfold FireMode_init. intros H.
  apply rbind_ok_inv in H. destruct H as (fire_modes & Hfm & H).
  apply rbind_ok_inv in H. destruct H as (d & Hd & H).
  apply rbind_ok_inv in H. destruct H as (effects & _ & H).
  exists fire_modes, d.
  destruct (wd_fireModes weapon_data) as [l|]; [|discriminate].
  inversion Hfm; subst l. split; [reflexivity|].
  destruct (assoc name fire_modes) as [d'|]; [|discriminate].
  inversion Hd; subst d'. split; [reflexivity|].
  match type of H with
  | match apply_mods ?s0 with _ => _ end = _ =>
      destruct (apply_mods s0) as [[[]|e] s'] eqn:E; [|discriminate];
      inversion H; subst fm; clear H
  end.
  pose proof (apply_mods_scalars _ _ E) as (_ & S2 & _). cbv zeta in S2.
  destruct (apply_mods_frame _ _ E)
    as (_ & _ & _ & _ & _ & _ & _ & _ & B2 & _).
  cbn [criticalMultiplier set_refresh].
  cbn [load_mods mods set_mods set_damagePerShot_m criticalMultiplier criticalMultiplier_m
       default_buckets] in S2, B2.
  split; [|split; [|split]].
  - cbv zeta. rewrite B2. reflexivity.
  - rewrite S2, B2. cbn [default_buckets criticalMultiplier_m].
    change (list_to_map [("base", Q2Qc 0); ("additive_base", Q2Qc 0);
                         ("additive_final", Q2Qc 0); ("final_multiplier", Q2Qc 1)])
      with (criticalMultiplier_m default_buckets).
    default_entries. ring.
  - destruct s'. reflexivity.
  - intros fm' Hfm'.
    destruct (apply_mods_frame _ _ Hfm')
      as (_ & _ & _ & _ & _ & _ & _ & _ & B2' & _).
    exact B2'.
Qed.

Lemma C7_critical_multiplier_base_witness :
  exists fm,
    FireMode_init 0 rifle_weapon "primary" = Ok fm
    /\ p_base (criticalMultiplier fm)
       = py_round (Qc_of_Z 2 * (Qc_of_Z 128 - 1 / Qc_of_Z 32))
         / (Qc_of_Z 128 - 1 / Qc_of_Z 32)
    /\ p_base (criticalMultiplier (FireMode_reset fm)) = p_base (criticalMultiplier fm).
Proof.
  destruct (FireMode_init 0 rifle_weapon "primary") as [fm|e] eqn:E;
    [| vm_compute in E; discriminate].
  destruct (C7_critical_multiplier_base 0 rifle_weapon "primary" fm E)
    as (fire_modes & d & Hf & Hd & Hb & _ & Hr & _).
  exists fm. split; [reflexivity|]. split; [|exact Hr].
  inversion Hf; subst fire_modes. cbn in Hd. inversion Hd; subst d. exact Hb.
Defined.

(** ** Pulling the trigger *)

Lemma for_each_effects enemy fm_time l fm t q i :
  for_each l (fun fme =>
    let fme_time := fme_embedDelay fme + fm_time in
    i <- get_call_index ;;
    queue_put (fme_time, i, mkEventTrigger (SrcEffect fme) (pellet_hit enemy) fme_time))
    (mkWorld fm (mkSimulacrum t q i))
  = (Ok tt, mkWorld fm (mkSimulacrum t (q ++ effect_events enemy fm_time i l)
                                     (i + length l)%nat)).
Proof.
  revert q i. induction l as [|fme l IH]; intros q i.
  - simpl. unfold ret. rewrite app_nil_r, Nat.add_0_r. reflexivity.
  - cbn [for_each]. unfold bind at 1. unfold bind at 1.
    unfold get_call_index at 1. cbn [w_fm w_sim time event_queue call_index].
    unfold queue_put at 1, modify at 1. cbn [w_fm w_sim time event_queue call_index].
    rewrite IH. cbn [effect_events length]. rewrite <- app_assoc. cbn [app].
    rewrite Nat.add_succ_r. reflexivity.
Qed.

Lemma fire_cluster_spec enemy fm t q i :
  fire_cluster enemy (mkWorld fm (mkSimulacrum t q i))
  = (Ok tt, mkWorld fm (mkSimulacrum t (q ++ cluster_events enemy fm t i)
                          (Datatypes.S i + length (fire_mode_effects fm))%nat)).
Proof.
  unfold fire_cluster. unfold bind at 1, get at 1.
  unfold bind at 1, get_call_index at 1. cbn [w_fm w_sim time event_queue call_index].
  unfold bind at 1, queue_put at 1, modify at 1. cbn [w_fm w_sim time event_queue call_index].
  rewrite for_each_effects. unfold cluster_events. rewrite <- app_assoc. reflexivity.
Qed.

Lemma effect_events_length enemy fm_time i l :
  length (effect_events enemy fm_time i l) = length l.
Proof.
  revert i. induction l as [|fme l IH]; intros i; simpl; [reflexivity|].
  rewrite IH. reflexivity.
Qed.

Lemma cluster_events_length enemy fm t i :
  length (cluster_events enemy fm t i) = Datatypes.S (length (fire_mode_effects fm)).
Proof. unfold cluster_events. simpl. rewrite effect_events_length. reflexivity. Qed.

Lemma cluster_events_hits enemy fm t i : Forall is_hit (cluster_events enemy fm t i).
Proof.
  unfold cluster_events. constructor; [eexists; reflexivity|].
  generalize (Datatypes.S i). generalize (t + p_modded (embedDelay fm)).
  induction (fire_mode_effects fm) as [|fme l IH]; intros ft j; simpl; constructor;
    [eexists; reflexivity | apply IH].
Qed.

(** The loop puts hits in the queue and changes nothing else. *)
Lemma for_range_clusters enemy n fm t q i :
  exists hits j,
    for_range n (fire_cluster enemy) (mkWorld fm (mkSimulacrum t q i))
    = (Ok tt, mkWorld fm (mkSimulacrum t (q ++ hits) j))
    /\ Forall is_hit hits.
Proof.
  revert q i. induction n as [|n IH]; intros q i.
  - exists [], i. rewrite app_nil_r. split; [reflexivity | constructor].
  - cbn [for_range]. unfold bind at 1. rewrite fire_cluster_spec.
    destruct (IH (q ++ cluster_events enemy fm t i)
                 (Datatypes.S i + length (fire_mode_effects fm))%nat)
      as (hits & j & -> & Hh).
    exists (cluster_events enemy fm t i ++ hits), j.
    rewrite app_assoc. split; [reflexivity|].
    apply Forall_app. split; [apply cluster_events_hits | exact Hh].
Qed.

Lemma for_range_one enemy fm t q i :
  for_range 1 (fire_cluster enemy) (mkWorld fm (mkSimulacrum t q i))
  = (Ok tt, mkWorld fm (mkSimulacrum t (q ++ cluster_events enemy fm t i)
                          (Datatypes.S i + length (fire_mode_effects fm))%nat)).
Proof.
  cbn [for_range]. unfold bind at 1. rewrite fire_cluster_spec. reflexivity.
Qed.

Lemma collapse_if_held_spec roll fm sim :
  collapse_if_held roll (mkWorld fm sim)
  = if bool_decide (trigger fm = "HELD")
    then (Ok 1%Z, mkWorld (set_proc_multishot_multiplier roll
                             (set_damage_multishot_multiplier roll fm)) sim)
    else (Ok roll, mkWorld fm sim).
Proof.
  unfold collapse_if_held. unfold bind at 1, get at 1. cbn [w_fm].
  case_bool_decide; reflexivity.
Qed.

(** The block that computes [next_event]: the state it leaves, and the
    value, or [ZeroDivisionError] for a fire rate of zero. *)
Lemma next_event_time_spec fm sim :
  next_event_time (mkWorld fm sim)
  = let period := 1 / p_modded (fireRate fm) in
    let positive := bool_decide (0 < mp_current (magazineSize fm)) in
    ((if bool_decide (p_modded (fireRate fm) = 0) then Raise ZeroDivisionError
      else Ok (if positive
               then time sim + period + p_modded (chargeTime fm)
               else time sim + py_max (p_modded (reloadTime fm)) period
                    + p_modded (chargeTime fm))),
     mkWorld (if positive then fm else reload fm) sim).
Proof.
  unfold next_event_time. unfold bind at 1, get at 1. cbn [w_fm w_sim]. cbv zeta.
  unfold py_div.
  case_bool_decide; case_bool_decide; reflexivity.
Qed.

(** One call of [pull_trigger], given what the loop of clusters does. *)
Lemma pull_trigger_run r fire_mode enemy fm t q i hits j :
  let roll := get_tier (p_modded (multishot fm)) r in
  let held := bool_decide (trigger fm = "HELD") in
  let fm2 := if held
             then set_proc_multishot_multiplier roll
                    (set_damage_multishot_multiplier roll (spend_ammo fm))
             else spend_ammo fm in
  let n := Z.to_nat (if held then 1%Z else roll) in
  for_range n (fire_cluster enemy) (mkWorld fm2 (mkSimulacrum t q i))
  = (Ok tt, mkWorld fm2 (mkSimulacrum t (q ++ hits) j)) ->
  let positive := bool_decide (0 < mp_current (magazineSize fm2)) in
  let fm3 := if positive then fm2 else reload fm2 in
  let period := 1 / p_modded (fireRate fm2) in
  let next := if positive
              then t + period + p_modded (chargeTime fm2)
              else t + py_max (p_modded (reloadTime fm2)) period
                   + p_modded (chargeTime fm2) in
  pull_trigger r fire_mode enemy (mkWorld fm (mkSimulacrum t q i))
  = if bool_decide (p_modded (fireRate fm2) = 0)
    then (Raise ZeroDivisionError, mkWorld fm3 (mkSimulacrum t (q ++ hits) j))
    else (Ok tt,
          mkWorld fm3
            (mkSimulacrum t
               ((q ++ hits)
                ++ [(next, j,
                     mkEventTrigger fire_mode (pull_trigger_of (name fm3)) next)])
               (Datatypes.S j))).
Proof.
  cbv zeta. intros Hloop.
  unfold pull_trigger. unfold bind at 1, get at 1. cbn [w_fm w_sim].
  unfold bind at 1, modify_fm at 1, modify at 1. cbn [w_fm w_sim].
  unfold bind at 1. rewrite collapse_if_held_spec.
  change (trigger (spend_ammo fm)) with (trigger fm).
  destruct (bool_decide (trigger fm = "HELD")).
  - unfold bind at 1. rewrite Hloop.
    unfold bind at 1. rewrite next_event_time_spec. cbv zeta.
    cbn [time event_queue call_index].
    destruct (bool_decide (p_modded (fireRate _) = 0)); reflexivity.
  - unfold bind at 1. rewrite Hloop.
    unfold bind at 1. rewrite next_event_time_spec. cbv zeta.
    cbn [time event_queue call_index].
    destruct (bool_decide (p_modded (fireRate _) = 0)); reflexivity.
Qed.

(** C4: a call of [pull_trigger] with a fire rate other than zero returns;
    when the ammunition left after the decrement is positive, it is kept
    and the next [pull_trigger] event is at
    [time + 1/fireRate.modded + chargeTime.modded]; otherwise [current] is
    refilled to [magazineSize.modded] and the event is at
    [time + max(reloadTime.modded, 1/fireRate.modded) + chargeTime.modded].
    That event is the last one put in the queue, after the hits. *)
Theorem C4_next_trigger_pull r fire_mode enemy w :
  p_modded (fireRate (w_fm w)) <> 0 ->
  let fm := w_fm w in
  let now := time (w_sim w) in
  let left := mp_current (magazineSize fm) - p_modded (ammoCost fm) in
  let period := 1 / p_modded (fireRate fm) in
  exists w' hits i,
    pull_trigger r fire_mode enemy w = (Ok tt, w')
    /\ Forall is_hit hits
    /\ (0 < left ->
        let next := now + period + p_modded (chargeTime fm) in
        mp_current (magazineSize (w_fm w')) = left
        /\ event_queue (w_sim w')
           = event_queue (w_sim w) ++ hits
             ++ [(next, i, mkEventTrigger fire_mode (pull_trigger_of (name fm)) next)])
    /\ (~ 0 < left ->
        let next := now + py_max (p_modded (reloadTime fm)) period
                    + p_modded (chargeTime fm) in
        mp_current (magazineSize (w_fm w')) = mp_modded (magazineSize fm)
        /\ event_queue (w_sim w')
           = event_queue (w_sim w) ++ hits
             ++ [(next, i, mkEventTrigger fire_mode (pull_trigger_of (name fm)) next)]).
Proof.
  destruct w as [fm [t q i]]. cbn [w_fm w_sim time event_queue]. intros Hfr. cbv zeta.
  set (roll := get_tier (p_modded (multishot fm)) r).
  set (fm2 := if bool_decide (trigger fm = "HELD")
              then set_proc_multishot_multiplier roll
                     (set_damage_multishot_multiplier roll (spend_ammo fm))
              else spend_ammo fm).
  destruct (for_range_clusters enemy
              (Z.to_nat (if bool_decide (trigger fm = "HELD") then 1%Z else roll))
              fm2 t q i) as (hits & j & Hloop & Hhits).
  pose proof (pull_trigger_run r fire_mode enemy fm t q i hits j Hloop) as Hrun.
  cbv zeta in Hrun. fold roll in Hrun. fold fm2 in Hrun.
  assert (fireRate fm2 = fireRate fm /\ chargeTime fm2 = chargeTime fm
          /\ reloadTime fm2 = reloadTime fm /\ name fm2 = name fm
          /\ magazineSize fm2
             = mp_set_current (mp_current (magazineSize fm) - p_modded (ammoCost fm))
                              (magazineSize fm))
    as (E1 & E2 & E3 & E4 & E5)
    by (unfold fm2; destruct (bool_decide (trigger fm = "HELD")); repeat split).
  rewrite E1, E2, E3, E5 in Hrun. cbn [mp_current mp_set_current] in Hrun.
  rewrite bool_decide_eq_false_2 in Hrun by exact Hfr.
  eexists. exists hits, j. split; [exact Hrun|]. split; [exact Hhits|].
  cbn [w_fm w_sim event_queue]. split.
  - intros Hpos. rewrite !bool_decide_eq_true_2 by exact Hpos.
    rewrite E4, E5. cbn [mp_current mp_set_current].
    rewrite <- app_assoc. split; reflexivity.
  - intros Hneg. rewrite !bool_decide_eq_false_2 by exact Hneg.
    unfold reload. cbn [magazineSize set_magazineSize name].
    rewrite E4, E5. cbn [mp_current mp_modded mp_set_current].
    rewrite <- app_assoc. split; reflexivity.
Qed.

Lemma C4_next_trigger_pull_witness :
  exists w' hits i,
    pull_trigger (Q2Qc 0.5) (SrcFireMode "primary") "target"
      (mkWorld plain_rifle idle_simulation) = (Ok tt, w')
    /\ mp_current (magazineSize (w_fm w')) = Qc_of_Z 100 - 1
    /\ event_queue (w_sim w')
       = [] ++ hits
         ++ [(0 + 1 / Qc_of_Z 5 + 0, i,
              mkEventTrigger (SrcFireMode "primary") (pull_trigger_of "primary")
                             (0 + 1 / Qc_of_Z 5 + 0))].
Proof.
  assert (p_modded (fireRate (w_fm (mkWorld plain_rifle idle_simulation))) <> 0) as Hfr
    by (apply (bool_decide_eq_true_1 _); vm_compute; reflexivity).
  destruct (C4_next_trigger_pull (Q2Qc 0.5) (SrcFireMode "primary") "target"
              (mkWorld plain_rifle idle_simulation) Hfr)
    as (w' & hits & i & Hrun & _ & Hpos & _).
  assert (0 < mp_current (magazineSize plain_rifle) - p_modded (ammoCost plain_rifle))
    as Hleft by (vm_compute; reflexivity).
  destruct (Hpos Hleft) as [Hc Hq].
  exists w', hits, i. split; [exact Hrun|]. split; [exact Hc | exact Hq].
Defined.

(** C5: a call of [pull_trigger] on a fire mode whose trigger is [HELD]
    writes the multishot roll in the [multishot_multiplier] entry of the
    damage bucket and of the status-chance bucket, puts the hits of
    exactly one cluster in the queue (one for the fire mode and one for
    each effect; anything after them is the next [pull_trigger] event),
    and spends [ammoCost.modded] once, whatever the roll: the ammunition
    left is [current - ammoCost.modded], refilled if that is not positive. *)
Theorem C5_held_trigger r fire_mode enemy w :
  trigger (w_fm w) = "HELD" ->
  let fm := w_fm w in
  let roll := get_tier (p_modded (multishot fm)) r in
  let left := mp_current (magazineSize fm) - p_modded (ammoCost fm) in
  let cluster := cluster_events enemy fm (time (w_sim w)) (call_index (w_sim w)) in
  let w' := snd (pull_trigger r fire_mode enemy w) in
  damagePerShot_m (mods (w_fm w'))
  = <["multishot_multiplier" := Qc_of_Z roll]> (damagePerShot_m (mods fm))
  /\ procChance_m (mods (w_fm w'))
     = <["multishot_multiplier" := Qc_of_Z roll]> (procChance_m (mods fm))
  /\ mp_current (magazineSize (w_fm w'))
     = (if bool_decide (0 < left) then left else mp_modded (magazineSize fm))
  /\ length cluster = Datatypes.S (length (fire_mode_effects fm))
  /\ Forall is_hit cluster
  /\ exists rest,
       event_queue (w_sim w') = event_queue (w_sim w) ++ cluster ++ rest
       /\ (length rest <= 1)%nat
       /\ Forall (fun e => et_func e.2 = pull_trigger_of (name fm)) rest.
Proof.
  destruct w as [fm [t q i]]. cbn [w_fm w_sim time event_queue call_index].
  intros Hheld. cbv zeta.
  set (roll := get_tier (p_modded (multishot fm)) r).
  pose proof (pull_trigger_run r fire_mode enemy fm t q i) as Hrun.
  cbv zeta in Hrun. fold roll in Hrun.
  rewrite (bool_decide_eq_true_2 _ Hheld) in Hrun.
  change (Z.to_nat 1) with 1%nat in Hrun.
  specialize (Hrun _ _ (for_range_one enemy _ t q i)).
  rewrite Hrun. clear Hrun.
  change (cluster_events enemy
            (set_proc_multishot_multiplier roll
               (set_damage_multishot_multiplier roll (spend_ammo fm))) t i)
    with (cluster_events enemy fm t i).
  split; [|split; [|split; [|split; [|split]]]].
  - destruct (bool_decide (p_modded (fireRate _) = 0));
      destruct (bool_decide (0 < mp_current (magazineSize _))); reflexivity.
  - destruct (bool_decide (p_modded (fireRate _) = 0));
      destruct (bool_decide (0 < mp_current (magazineSize _))); reflexivity.
  - change (mp_current (magazineSize (set_proc_multishot_multiplier roll
              (set_damage_multishot_multiplier roll (spend_ammo fm)))))
      with (mp_current (magazineSize fm) - p_modded (ammoCost fm)).
    destruct (bool_decide (p_modded (fireRate _) = 0));
      destruct (bool_decide (0 < mp_current (magazineSize fm) - p_modded (ammoCost fm)));
      reflexivity.
  - apply cluster_events_length.
  - apply cluster_events_hits.
  - destruct (bool_decide (p_modded (fireRate _) = 0)).
    + exists []. cbn [snd w_sim event_queue]. rewrite app_nil_r.
      split; [reflexivity|]. split; [simpl; lia | constructor].
    + eexists [_]. cbn [snd w_sim event_queue]. rewrite <- app_assoc.
      split; [reflexivity|]. split; [simpl; lia|].
      constructor; [|constructor]. cbn [snd et_func].
      destruct (bool_decide (0 < mp_current (magazineSize _))); reflexivity.
Qed.

Lemma C5_held_trigger_witness :
  let w := mkWorld held_launcher idle_simulation in
  let w' := snd (pull_trigger (Q2Qc 0.25) (SrcFireMode "primary") "target" w) in
  trigger held_launcher = "HELD"
  /\ get_tier (p_modded (multishot held_launcher)) (Q2Qc 0.25) = 3%Z
  /\ damagePerShot_m (mods (w_fm w'))
     = <["multishot_multiplier" :=
           Qc_of_Z (get_tier (p_modded (multishot held_launcher)) (Q2Qc 0.25))]>
         (damagePerShot_m (mods held_launcher))
  /\ mp_current (magazineSize (w_fm w'))
     = (if bool_decide (0 < mp_current (magazineSize held_launcher)
                            - p_modded (ammoCost held_launcher))
        then mp_current (magazineSize held_launcher) - p_modded (ammoCost held_launcher)
        else mp_modded (magazineSize held_launcher))
  /\ length (cluster_events "target" held_launcher 0 0) = 2%nat.
Proof.
  cbv zeta.
  destruct (C5_held_trigger (Q2Qc 0.25) (SrcFireMode "primary") "target"
              (mkWorld held_launcher idle_simulation) eq_refl)
    as (H1 & _ & H3 & H4 & _).
  split; [reflexivity|]. split; [vm_compute; reflexivity|].
  split; [exact H1|]. split; [exact H3 | exact H4].
Defined.

(** * Beyond the specification

    Properties of the same code that the specification does not state. *)

(** ** Evaluation on closed states *)

(** The run of a method on a closed state that returns. *)
Ltac run_ok :=
  match goal with
  | |- ?m = (Ok tt, snd ?m) =>
      let E := fresh "E" in
      destruct m as [[[]|?] ?] eqn:E; [reflexivity | vm_compute in E; discriminate E]
  end.

Ltac by_eval :=
  first [ vm_compute; reflexivity
        | apply (bool_decide_eq_true_1 _); vm_compute; reflexivity
        | apply (bool_decide_eq_false_1 _); vm_compute; reflexivity ].

Ltac qc_order :=
  first [ unfold Qcle; vm_compute; intros E; discriminate E
        | unfold Qclt; vm_compute; reflexivity ].

(** ** When [apply_mods] returns *)

Lemma arr_add_ok_lengths (a b r : ndarray) :
  arr_add a b = Ok r -> length a = length b \/ length a = 1%nat \/ length b = 1%nat.
Proof.
  unfold arr_add. case_bool_decide as Hl; [auto|].
  destruct a as [|x [|x' a]]; destruct b as [|y [|y' b]]; simpl; intros Hr;
    try discriminate; auto.
Qed.

Lemma arr_get_ok (a : ndarray) i v : arr_get a i = Ok v -> (i < length a)%nat.
Proof.
  unfold arr_get. destruct (a !! i) eqn:E; [|discriminate].
  intros _. apply lookup_lt_Some in E. exact E.
Qed.

Lemma apply_mods_returns_defined s s' :
  apply_mods s = (Ok tt, s') -> apply_mods_defined s.
Proof.
  intros H. run_apply_mods H. clear H.
  unfold proc_weights in *.
  repeat match goal with
         | Hw : arr_add (modded_array (damagePerShot _)) _ = _ |- _ => norm_fm Hw
         end.
  rewrite ?modded_array_bind_quantized, ?modded_array_bind_modded in *.
  unfold apply_mods_defined, has_entries, read_entries.
  split.
  { repeat (constructor; [cbn [fst snd]; eexists; eassumption|]). constructor. }
  repeat match goal with
         | Hd : py_div _ _ = Ok _ |- _ => apply py_div_ok in Hd; destruct Hd as [? ?]
         end.
  unfold entry.
  repeat match goal with
         | H1 : ?x = Some ?a, H2 : ?x = Some ?b |- _ =>
             rewrite H1 in H2; inversion H2; subst; clear H2
         end.
  repeat match goal with
         | Hl : ?m !! ?k = Some _ |- _ => rewrite ?Hl; clear Hl
         end.
  cbn [default].
  split; [assumption|]. split; [assumption|].
  repeat match goal with
         | Hs : setitem_modded _ _ _ = Ok _ |- _ =>
             apply setitem_modded_ok in Hs; destruct Hs as [? ?]
         end.
  match goal with
  | Ha : arr_add (dp_base _) _ = Ok _ |- _ =>
      apply arr_add_same_length in Ha;
      [| unfold arr_scale, arr_div; rewrite !length_fmap; reflexivity]
  end.
  repeat match goal with
         | Hg : arr_get _ _ = Ok _ |- _ => apply arr_get_ok in Hg
         end.
  match goal with
  | Hw : arr_add _ _ = Ok _ |- _ => apply arr_add_ok_lengths in Hw
  end.
  repeat match goal with
         | E : modded_array ?x = <[_ := _]> _ |- _ =>
             apply (f_equal length) in E; rewrite length_insert in E
         end.
  subst. unfold arr_scale, arr_div in *.
  rewrite ?length_fmap, ?length_zip_with, ?length_fmap in *.
  lia.
Qed.

Ltac step_defined H :=
  apply bind_raise_inv in H;
  let a := fresh "a" in
  let s1 := fresh "s" in
  let H1 := fresh "H" in
  destruct H as [H | (a & s1 & H1 & H)];
  [ exfalso;
    lazymatch type of H with
    | get _ = _ => exact (get_raise _ _ _ H)
    | modify _ _ = _ => exact (modify_raise _ _ _ _ H)
    | bucket _ _ _ = _ =>
        apply bucket_raise in H; norm_fm H;
        match goal with
        | Hs : ?l = Some _ |- _ => rewrite Hs in H; discriminate
        end
    | lift _ _ = _ =>
        apply lift_raise in H; unfold proc_weights in H; norm_fm H;
        rewrite ?modded_array_bind_quantized, ?modded_array_bind_modded in H;
        first [ apply arr_add_raise in H; apply H; len_solver
              | apply arr_get_raise in H; revert H; len_solver
              | apply py_div_raise in H; contradiction ]
    | set_elemental _ _ _ = _ =>
        apply set_elemental_raise in H; norm_fm H; revert H; len_solver
    end
  | lazymatch type of H1 with
    | get _ = _ => apply get_ok_inv in H1; destruct H1 as [-> ->]
    | bucket _ _ _ = _ =>
        apply bucket_ok_inv in H1; destruct H1 as [-> H1]; norm_fm H1;
        match goal with
        | Hs : ?l = Some ?v |- _ =>
            lazymatch type of H1 with
            | l = Some _ => rewrite Hs in H1; inversion H1; subst; clear H1
            end
        end
    | lift _ _ = _ =>
        apply lift_ok_inv in H1; destruct H1 as [-> H1]; norm_fm H1;
        try (apply arr_add_same_length in H1; [|len_solver])
    | modify _ _ = _ => apply modify_ok_inv in H1; norm_fm H1; subst s1
    | set_elemental _ _ _ = _ =>
        apply set_elemental_ok_inv in H1; destruct H1 as (? & H1 & ->); norm_fm H1;
        apply setitem_modded_ok in H1; destruct H1 as [H1 _]
    end;
    norm_fm H;
    rewrite ?modded_array_bind_quantized, ?modded_array_bind_modded in H ].

Lemma apply_mods_defined_returns s :
  apply_mods_defined s -> exists s', apply_mods s = (Ok tt, s').
Proof.
  intros (He & Hr & Hf & Hlen & H7).
  destruct (apply_mods s) as [[[]|e] s'] eqn:H; [eauto|]. exfalso.
  unfold has_entries, read_entries in He.
  repeat match type of He with
         | Forall _ (_ :: _) =>
             let Hx := fresh "Hx" in
             let He' := fresh "He" in
             inversion He as [|? ? Hx He']; subst; clear He; rename He' into He;
             cbn beta iota delta [fst snd] in Hx; destruct Hx as [? Hx]
         end.
  clear He.
  unfold entry in Hr, Hf.
  repeat match goal with
         | Hs : ?l = Some _ |- _ =>
             first [ rewrite Hs in Hr; cbn [default] in Hr
                   | rewrite Hs in Hf; cbn [default] in Hf ]
         end.
  unfold apply_mods in H.
  repeat step_defined H.
  exact (modify_raise _ _ _ _ H).
Qed.

(** X1: [apply_mods] returns exactly when every bucket entry it reads is
    present, neither [1 + reloadTime "base"] nor [1 + fireRate "base"] is
    zero, and the damage vector has as many slots as the elemental one,
    which has seven at least; in every other state it raises. *)
Theorem apply_mods_returns_iff s :
  (exists s', apply_mods s = (Ok tt, s')) <-> apply_mods_defined s.
Proof.
  split.
  - intros [s' H]. exact (apply_mods_returns_defined _ _ H).
  - apply apply_mods_defined_returns.
Qed.

(** X2: [apply_mods] leaves the buckets, the name, data, effects, trigger,
    indices and flags, the base of the damage vector and of every scalar
    statistic, and the magazine's [current] as they are, and sets
    [procCumulativeProbabilities] to the integer 0.  The base of the
    elemental vector is not kept: while [modded] is the array of [base],
    as the constructor and [reset] leave it, the base is the modded
    elemental vector after the call. *)
Theorem apply_mods_keeps s s' :
  apply_mods s = (Ok tt, s') ->
  (mods s' = mods s /\ name s' = name s /\ data s' = data s
   /\ fire_mode_effects s' = fire_mode_effects s
   /\ trigger s' = trigger s /\ attack_index s' = attack_index s
   /\ forcedProc s' = forcedProc s /\ radial s' = radial s /\ refresh s' = refresh s)
  /\ (dp_base (damagePerShot s') = dp_base (damagePerShot s)
      /\ p_base (criticalChance s') = p_base (criticalChance s)
      /\ p_base (criticalMultiplier s') = p_base (criticalMultiplier s)
      /\ p_base (procChance s') = p_base (procChance s)
      /\ p_base (multishot s') = p_base (multishot s)
      /\ p_base (fireRate s') = p_base (fireRate s)
      /\ p_base (reloadTime s') = p_base (reloadTime s)
      /\ p_base (chargeTime s') = p_base (chargeTime s)
      /\ p_base (embedDelay s') = p_base (embedDelay s)
      /\ p_base (ammoCost s') = p_base (ammoCost s)
      /\ mp_base (magazineSize s') = mp_base (magazineSize s))
  /\ mp_current (magazineSize s') = mp_current (magazineSize s)
  /\ procCumulativeProbabilities s' = inr 0%Z
  /\ (dp_modded (elementalDamagePerShot s) = SameAsBase ->
      dp_base (elementalDamagePerShot s') = modded_array (elementalDamagePerShot s')).
Proof.
  intros H.
  assert (dp_modded (elementalDamagePerShot s) = SameAsBase ->
          dp_base (elementalDamagePerShot s') = modded_array (elementalDamagePerShot s'))
    as Helemental.
  { intros Ha. destruct (apply_mods_elemental_alias _ _ Ha H) as [_ Hb]. exact Hb. }
  run_apply_mods H. subst s'. revert Helemental. norm_fm_goal. intros Helemental.
  repeat split. exact Helemental.
Qed.

Lemma apply_mods_keeps_witness :
  let s' := snd (apply_mods heated_rifle) in
  mods s' = mods heated_rifle
  /\ mp_current (magazineSize s') = mp_current (magazineSize heated_rifle)
  /\ procCumulativeProbabilities s' = inr 0%Z
  /\ dp_base (elementalDamagePerShot s') = modded_array (elementalDamagePerShot s')
  /\ dp_base (elementalDamagePerShot heated_rifle) !! 3%nat = Some (Some 0)
  /\ dp_base (elementalDamagePerShot s') !! 3%nat = Some (Some 1).
Proof.
  cbv zeta.
  destruct (apply_mods_keeps heated_rifle (snd (apply_mods heated_rifle)))
    as ((Hm & _) & _ & Hc & Hp & Hb); [run_ok|].
  split; [exact Hm|]. split; [exact Hc|]. split; [exact Hp|].
  split; [apply Hb; reflexivity|]. split; by_eval.
Defined.

(** ** [apply_mods] again *)

Lemma store_modded_id p : store_modded (modded_array p) p = p.
Proof. destruct p as [b [|m] q]; reflexivity. Qed.

Lemma setitem_modded_id i v p p' :
  modded_array p !! i = Some v -> setitem_modded i v p = Ok p' -> p' = p.
Proof.
  intros Hl. unfold setitem_modded, arr_set.
  case_bool_decide as Hi; [|discriminate].
  rewrite (list_insert_id _ _ _ Hl). intros Hs. inversion Hs.
  apply store_modded_id.
Qed.

Lemma lookup_insert_7_low (a : ndarray) v0 v1 v2 v3 v4 v5 v6 :
  (6 < length a)%nat ->
  let a' := <[6%nat := v6]> (<[5%nat := v5]> (<[4%nat := v4]> (<[3%nat := v3]>
            (<[2%nat := v2]> (<[1%nat := v1]> (<[0%nat := v0]> a)))))) in
  a' !! 0%nat = Some v0 /\ a' !! 1%nat = Some v1 /\ a' !! 2%nat = Some v2.
Proof.
  intros Hlen. cbv zeta.
  repeat split;
    repeat (rewrite list_lookup_insert_ne by lia);
    (rewrite list_lookup_insert_eq; [reflexivity | rewrite ?length_insert; lia]).
Qed.

Lemma dp_base_bind_modded a p : dp_base (bind_modded a p) = dp_base p.
Proof. reflexivity. Qed.

Lemma dp_base_bind_quantized a p : dp_base (bind_quantized a p) = dp_base p.
Proof. reflexivity. Qed.

(** The seven assignments, read back. *)
Lemma setitem_chain_lookup p0 p1 p2 p3 p4 p5 p6 p7 v0 v1 v2 v3 v4 v5 v6 :
  setitem_modded 0 v0 p0 = Ok p1 -> setitem_modded 1 v1 p1 = Ok p2 ->
  setitem_modded 2 v2 p2 = Ok p3 -> setitem_modded 3 v3 p3 = Ok p4 ->
  setitem_modded 4 v4 p4 = Ok p5 -> setitem_modded 5 v5 p5 = Ok p6 ->
  setitem_modded 6 v6 p6 = Ok p7 ->
  modded_array p7 !! 0%nat = Some v0 /\ modded_array p7 !! 1%nat = Some v1
  /\ modded_array p7 !! 2%nat = Some v2 /\ modded_array p7 !! 3%nat = Some v3
  /\ modded_array p7 !! 4%nat = Some v4 /\ modded_array p7 !! 5%nat = Some v5
  /\ modded_array p7 !! 6%nat = Some v6.
Proof.
  intros H0 H1 H2 H3 H4 H5 H6.
  apply setitem_modded_ok in H0, H1, H2, H3, H4, H5, H6.
  destruct H0 as [E0 L0], H1 as [E1 _], H2 as [E2 _], H3 as [E3 _],
           H4 as [E4 _], H5 as [E5 _], H6 as [E6 L6].
  rewrite E5, E4, E3, E2, E1, E0, !length_insert in L6.
  rewrite E6, E5, E4, E3, E2, E1, E0.
  destruct (lookup_insert_7 (modded_array p0) v0 v1 v2 v3 v4 v5 v6 L6) as (? & ? & ? & ?).
  destruct (lookup_insert_7_low (modded_array p0) v0 v1 v2 v3 v4 v5 v6 L6) as (? & ? & ?).
  repeat split; assumption.
Qed.

Ltac same_results :=
  repeat match goal with
         | H1 : ?x = Some ?a, H2 : ?x = Some ?b |- _ =>
             rewrite H1 in H2; inversion H2; subst; clear H2
         | H1 : ?x = Ok ?a, H2 : ?x = Ok ?b |- _ =>
             rewrite H1 in H2; inversion H2; subst; clear H2
         end.

(** The state as one constructor applied to its fields. *)
Ltac flat_fm H :=
  cbv beta delta
    [set_attack_index set_damagePerShot set_elementalDamagePerShot
     set_criticalChance set_criticalMultiplier set_procChance set_procProbabilities
     set_procCumulativeProbabilities set_magazineSize set_fireRate set_reloadTime
     set_multishot set_ammoCost set_chargeTime set_embedDelay set_mods set_refresh] in H;
  cbn beta iota delta
    [name data fire_mode_effects attack_index trigger damagePerShot
     elementalDamagePerShot criticalChance criticalMultiplier procChance
     procProbabilities procCumulativeProbabilities magazineSize fireRate reloadTime
     multishot ammoCost chargeTime embedDelay forcedProc radial mods refresh] in H.

Ltac flat_fm_goal :=
  cbv beta delta
    [set_attack_index set_damagePerShot set_elementalDamagePerShot
     set_criticalChance set_criticalMultiplier set_procChance set_procProbabilities
     set_procCumulativeProbabilities set_magazineSize set_fireRate set_reloadTime
     set_multishot set_ammoCost set_chargeTime set_embedDelay set_mods set_refresh];
  cbn beta iota delta
    [name data fire_mode_effects attack_index trigger damagePerShot
     elementalDamagePerShot criticalChance criticalMultiplier procChance
     procProbabilities procCumulativeProbabilities magazineSize fireRate reloadTime
     multishot ammoCost chargeTime embedDelay forcedProc radial mods refresh].

Ltac step_flat H :=
  let a := fresh "a" in
  let s1 := fresh "s" in
  let H1 := fresh "H" in
  apply bind_ok_inv in H; destruct H as (a & s1 & H1 & H);
  lazymatch type of H1 with
  | get _ = _ => apply get_ok_inv in H1; destruct H1 as [-> ->]
  | bucket _ _ _ = _ => apply bucket_ok_inv in H1; destruct H1 as [-> H1]; flat_fm H1
  | lift _ _ = _ =>
      apply lift_ok_inv in H1; destruct H1 as [-> H1];
      unfold proc_weights in H1; flat_fm H1
  | modify _ _ = _ => apply modify_ok_inv in H1; flat_fm H1; subst s1
  | set_elemental _ _ _ = _ =>
      apply set_elemental_ok_inv in H1; destruct H1 as (? & H1 & ->); flat_fm H1
  end;
  flat_fm H.

Ltac run_flat H :=
  unfold apply_mods in H; repeat step_flat H;
  apply modify_ok_inv in H; flat_fm H.

Lemma apply_mods_twice_eq s s' s'' :
  apply_mods s = (Ok tt, s') -> apply_mods s' = (Ok tt, s'') -> s'' = s'.
Proof.
  intros H1 H2. run_flat H1. subst s'.
  match goal with
  | S0 : setitem_modded 0 _ _ = Ok _, S1 : setitem_modded 1 _ _ = Ok _,
    S2 : setitem_modded 2 _ _ = Ok _, S3 : setitem_modded 3 _ _ = Ok _,
    S4 : setitem_modded 4 _ _ = Ok _, S5 : setitem_modded 5 _ _ = Ok _,
    S6 : setitem_modded 6 _ _ = Ok _ |- _ =>
      pose proof (setitem_chain_lookup _ _ _ _ _ _ _ _ _ _ _ _ _ _ _ S0 S1 S2 S3 S4 S5 S6)
        as (L0 & L1 & L2 & L3 & L4 & L5 & L6);
      clear S0 S1 S2 S3 S4 S5 S6
  end.
  run_flat H2. subst s''.
  rewrite ?modded_array_bind_quantized, ?modded_array_bind_modded,
          ?dp_base_bind_quantized, ?dp_base_bind_modded in *.
  cbn [p_base p_set_modded mp_base mp_set_modded] in *.
  same_results.
  repeat match goal with
         | Hs : setitem_modded ?i ?v ?p = Ok ?p' |- _ =>
             apply setitem_modded_id in Hs;
             [ subst p'
             | rewrite ?modded_array_bind_quantized; assumption ]
         end.
  rewrite ?modded_array_bind_quantized in *.
  same_results.
  reflexivity.
Qed.

Lemma apply_mods_defined_after s s' :
  apply_mods s = (Ok tt, s') -> apply_mods_defined s'.
Proof.
  intros H. pose proof (apply_mods_returns_defined _ _ H) as (He & Hr & Hf & Hlen & H7).
  destruct (apply_mods_frame _ _ H) as (Hm & _ & _ & _ & _ & _ & Hb & _).
  destruct (apply_mods_elemental _ _ H)
    as (x0 & x1 & x2 & i0 & i1 & i2 & h & c & e & t & _ & _ & _ & _ & _ & _ & _ & _
        & _ & _ & _ & Hel).
  unfold apply_mods_defined. rewrite Hm, Hb, Hel, !length_insert.
  repeat split; assumption.
Qed.

(** X3: [apply_mods] is idempotent: on the state that a call has left, a
    second call returns and changes nothing. *)
Theorem apply_mods_idempotent s s' :
  apply_mods s = (Ok tt, s') -> apply_mods s' = (Ok tt, s').
Proof.
  intros H.
  destruct (apply_mods_defined_returns s' (apply_mods_defined_after _ _ H)) as [s'' H2].
  rewrite H2. rewrite (apply_mods_twice_eq _ _ _ H H2). reflexivity.
Qed.

Lemma apply_mods_idempotent_witness :
  let s' := snd (apply_mods heated_rifle) in apply_mods s' = (Ok tt, s').
Proof. cbv zeta. apply (apply_mods_idempotent heated_rifle). run_ok. Defined.

Lemma modded_array_alias p :
  dp_modded p = SameAsBase -> modded_array p = dp_base p.
Proof. unfold modded_array, dp_deref. intros ->. reflexivity. Qed.

Lemma modded_array_reset p : modded_array (DamageParameter_reset p) = dp_base p.
Proof. reflexivity. Qed.

Lemma bind_quantized_reset_alias a b p :
  dp_modded p = SameAsBase ->
  bind_quantized a (DamageParameter_reset (bind_quantized b p)) = bind_quantized a p.
Proof. destruct p as [pb pm pq]. cbn. intros ->. reflexivity. Qed.

(** [reset], field by field. *)
Lemma FireMode_reset_flat s :
  FireMode_reset s
  = mkFireMode (name s) (data s) (fire_mode_effects s) 1%Z (trigger s)
      (DamageParameter_reset (damagePerShot s))
      (DamageParameter_reset (elementalDamagePerShot s))
      (Parameter_reset (criticalChance s)) (Parameter_reset (criticalMultiplier s))
      (Parameter_reset (procChance s)) (procProbabilities s)
      (procCumulativeProbabilities s) (ModifyParameter_reset (magazineSize s))
      (Parameter_reset (fireRate s)) (Parameter_reset (reloadTime s))
      (Parameter_reset (multishot s)) (Parameter_reset (ammoCost s))
      (Parameter_reset (chargeTime s)) (Parameter_reset (embedDelay s))
      (forcedProc s) (radial s) (mods s) (refresh s).
Proof. destruct s. vm_compute. reflexivity. Qed.

(** X4: after [apply_mods], [reset] followed by [apply_mods] gives the
    same fire mode again, but for the magazine's [current] (now the base
    size) and [attack_index] (now 1), when the elemental vector is still
    the array of its base, as the constructor and [reset] leave it. *)
Theorem reset_then_apply_mods s s' s'' :
  apply_mods s = (Ok tt, s') ->
  dp_modded (elementalDamagePerShot s') = SameAsBase ->
  apply_mods (FireMode_reset s') = (Ok tt, s'') ->
  s'' = set_attack_index 1%Z
          (set_magazineSize
             (mp_set_current (mp_base (magazineSize s')) (magazineSize s')) s').
Proof.
  intros H1 Ha H2. run_flat H1. subst s'.
  match goal with
  | S0 : setitem_modded 0 _ _ = Ok _, S1 : setitem_modded 1 _ _ = Ok _,
    S2 : setitem_modded 2 _ _ = Ok _, S3 : setitem_modded 3 _ _ = Ok _,
    S4 : setitem_modded 4 _ _ = Ok _, S5 : setitem_modded 5 _ _ = Ok _,
    S6 : setitem_modded 6 _ _ = Ok _ |- _ =>
      pose proof (setitem_chain_lookup _ _ _ _ _ _ _ _ _ _ _ _ _ _ _ S0 S1 S2 S3 S4 S5 S6)
        as (L0 & L1 & L2 & L3 & L4 & L5 & L6);
      clear S0 S1 S2 S3 S4 S5 S6
  end.
  flat_fm Ha. change (dp_modded (bind_quantized ?a ?p)) with (dp_modded p) in Ha.
  rewrite (modded_array_alias _ Ha) in L0, L1, L2, L3, L4, L5, L6.
  rewrite FireMode_reset_flat in H2. flat_fm H2.
  run_flat H2. subst s''. flat_fm_goal.
  rewrite ?modded_array_bind_quantized, ?modded_array_bind_modded,
          ?dp_base_bind_quantized, ?dp_base_bind_modded, ?modded_array_reset in *.
  change (dp_base (DamageParameter_reset ?p)) with (dp_base p) in *.
  rewrite ?dp_base_bind_quantized, ?dp_base_bind_modded in *.
  cbn [p_base p_set_modded mp_base mp_set_modded Parameter_reset ModifyParameter_reset
       mp_set_current mp_modded mp_current p_modded] in *.
  same_results.
  repeat match goal with
         | Hs : setitem_modded ?i ?v ?p = Ok ?p' |- _ =>
             apply setitem_modded_id in Hs;
             [ subst p'
             | rewrite ?modded_array_bind_quantized, ?modded_array_reset,
                       ?dp_base_bind_quantized; assumption ]
         end.
  rewrite ?modded_array_bind_quantized, ?modded_array_reset, ?dp_base_bind_quantized,
          <- ?(modded_array_alias _ Ha) in *.
  same_results.
  rewrite (bind_quantized_reset_alias _ _ _ Ha).
  reflexivity.
Qed.

Lemma reset_then_apply_mods_witness :
  let s' := snd (apply_mods heated_rifle) in
  snd (apply_mods (FireMode_reset s'))
  = set_attack_index 1%Z
      (set_magazineSize (mp_set_current (mp_base (magazineSize s')) (magazineSize s')) s').
Proof.
  cbv zeta. apply (reset_then_apply_mods heated_rifle); [run_ok | by_eval | run_ok].
Defined.

(** ** The slots of the elemental vector *)

(** X5: [apply_mods] assigns the slots 0 to 6 of the elemental vector
    and no other: the length and every slot from 7 on are unchanged.  The
    assignment is in place, so while [modded] is the array of [base] the
    base of the elemental vector holds the modded values afterwards. *)
Theorem apply_mods_elemental_slots s s' :
  apply_mods s = (Ok tt, s') ->
  let e := modded_array (elementalDamagePerShot s) in
  let e' := modded_array (elementalDamagePerShot s') in
  length e' = length e
  /\ (forall i, (7 <= i)%nat -> e' !! i = e !! i)
  /\ (dp_modded (elementalDamagePerShot s) = SameAsBase ->
      dp_base (elementalDamagePerShot s') = e').
Proof.
  intros H. cbv zeta.
  destruct (apply_mods_elemental _ _ H)
    as (x0 & x1 & x2 & impact & puncture & slash & heat & cold & electric & toxin
        & _ & _ & _ & _ & _ & _ & _ & _ & _ & _ & _ & He).
  split; [|split].
  - rewrite He, !length_insert. reflexivity.
  - intros i Hi. rewrite He.
    repeat (rewrite list_lookup_insert_ne by lia). reflexivity.
  - intros Ha. destruct (apply_mods_elemental_alias _ _ Ha H) as [_ Hb]. exact Hb.
Qed.

Lemma apply_mods_elemental_slots_witness :
  let e := modded_array (elementalDamagePerShot heated_rifle) in
  let s' := snd (apply_mods heated_rifle) in
  let e' := modded_array (elementalDamagePerShot s') in
  length e' = length e
  /\ (forall i, (7 <= i)%nat -> e' !! i = e !! i)
  /\ dp_base (elementalDamagePerShot s') = e'.
Proof.
  cbv zeta.
  destruct (apply_mods_elemental_slots heated_rifle (snd (apply_mods heated_rifle)))
    as (Hl & Hs & Hb); [run_ok|].
  split; [exact Hl|]. split; [exact Hs|]. apply Hb. reflexivity.
Defined.

(** ** The quantized vectors *)

Lemma half_eq : 1 / Qc_of_Z 2 = Q2Qc (1 # 2).
Proof. apply Qc_is_canon. reflexivity. Qed.

Ltac qc2q :=
  rewrite ?half_eq in *;
  unfold Qcle, Qclt, Qcminus, Qcdiv, Qcplus, Qcmult, Qcopp, Qcinv, Q2Qc in *;
  cbn [this Qc_of_Z] in *;
  rewrite ?Qred_correct in *;
  change (inject_Z 2) with (2 # 1)%Q in *.

Lemma floor_le (x : Qc) : Qc_of_Z (Qfloor x) <= x.
Proof. unfold Qcle. cbn [this Qc_of_Z]. apply Qfloor_le. Qed.

Lemma lt_floor_succ (x : Qc) : x < Qc_of_Z (Qfloor x) + 1.
Proof.
  pose proof (Qlt_floor x) as H. rewrite inject_Z_plus in H.
  qc2q. cbn [this Qc_of_Z]. exact H.
Qed.

Lemma round_half_even_near (x : Qc) :
  py_round x - 1 / Qc_of_Z 2 <= x /\ x <= py_round x + 1 / Qc_of_Z 2.
Proof.
  pose proof (floor_le x) as Hf. pose proof (lt_floor_succ x) as Hs.
  unfold py_round, round_half_even.
  repeat case_bool_decide.
  - qc2q. cbn [this Qc_of_Z] in *. lra.
  - rewrite Z2Qc_inj_add, Z2Qc_inj_1. qc2q. cbn [this Qc_of_Z] in *. lra.
  - assert (x - Qc_of_Z (Qfloor x) = 1 / Qc_of_Z 2) as E.
    { apply Qcle_antisym; [apply Qcnot_lt_le | apply Qcnot_lt_le]; assumption. }
    destruct (Z.even (Qfloor x)).
    + qc2q. cbn [this Qc_of_Z] in *. lra.
    + rewrite Z2Qc_inj_add, Z2Qc_inj_1. qc2q. cbn [this Qc_of_Z] in *. lra.
Qed.

Lemma quantize_lookup (a : ndarray) q i m :
  q <> 0 -> a !! i = Some (Some m) ->
  quantize a (Some q) !! i = Some (Some (py_round (m / q) * q)).
Proof.
  intros Hq Ha. unfold quantize, arr_scale, arr_round, arr_div.
  rewrite !list_lookup_fmap, Ha. cbn [fmap option_fmap option_map ndiv].
  rewrite bool_decide_eq_false_2 by exact Hq. reflexivity.
Qed.

Lemma quantize_slot_near (m q : Qc) :
  0 < q ->
  py_round (m / q) * q - q / Qc_of_Z 2 <= m
  /\ m <= py_round (m / q) * q + q / Qc_of_Z 2.
Proof.
  intros Hq. destruct (round_half_even_near (m / q)) as [H1 H2].
  assert (q <> 0) as Hq0 by (intros ->; exact (Qclt_irrefl _ Hq)).
  assert (m / q * q = m) as E by (field; exact Hq0).
  split.
  - apply (Qcmult_le_mono_pos_r _ _ q Hq) in H1.
    rewrite E in H1.
    replace (py_round (m / q) * q - q / Qc_of_Z 2)
      with ((py_round (m / q) - 1 / Qc_of_Z 2) * q) by (field; discriminate).
    exact H1.
  - apply (Qcmult_le_mono_pos_r _ _ q Hq) in H2.
    rewrite E in H2.
    replace (py_round (m / q) * q + q / Qc_of_Z 2)
      with ((py_round (m / q) + 1 / Qc_of_Z 2) * q) by (field; discriminate).
    exact H2.
Qed.

Lemma quantize_zero (a : ndarray) :
  quantize a (Some 0) = replicate (length a) None.
Proof.
  unfold quantize, arr_scale, arr_round, arr_div.
  induction a as [|x a IH]; [reflexivity|].
  cbn [fmap list_fmap length replicate]. f_equal; [|exact IH].
  destruct x; reflexivity.
Qed.

(** X6: with a positive quantum [q], every slot of the two quantized
    vectors is an integer multiple of [q] that is within [q / 2] of the
    modded value of the slot. *)
Theorem apply_mods_quantized_slots s s' q :
  apply_mods s = (Ok tt, s') ->
  ndiv (nadd (py_sum (modded_array (damagePerShot s')))
             (py_sum (modded_array (elementalDamagePerShot s'))))
       (Some (Qc_of_Z 16)) = Some q ->
  0 < q ->
  forall p, p = damagePerShot s' \/ p = elementalDamagePerShot s' ->
  forall i m, modded_array p !! i = Some (Some m) ->
  exists k : Z,
    quantized_array p !! i = Some (Some (Qc_of_Z k * q))
    /\ Qc_of_Z k * q - q / Qc_of_Z 2 <= m
    /\ m <= Qc_of_Z k * q + q / Qc_of_Z 2.
Proof.
  intros H Hq Hpos p Hp i m Hm.
  destruct (apply_mods_quantized _ _ H) as [Q1 Q2]. cbv zeta in Q1, Q2.
  rewrite Hq in Q1, Q2.
  assert (q <> 0) as Hq0 by (intros ->; exact (Qclt_irrefl _ Hpos)).
  exists (round_half_even (m / q)).
  destruct (quantize_slot_near m q Hpos) as [B1 B2].
  split; [|split; assumption].
  destruct Hp as [-> | ->]; [rewrite Q1 | rewrite Q2];
    exact (quantize_lookup _ _ _ _ Hq0 Hm).
Qed.

Lemma apply_mods_quantized_slots_witness :
  let s' := snd (apply_mods heated_rifle) in
  let q := Q2Qc (11 # 16) in
  exists k : Z,
    quantized_array (damagePerShot s') !! 0%nat = Some (Some (Qc_of_Z k * q))
    /\ Qc_of_Z k * q - q / Qc_of_Z 2 <= Qc_of_Z 10
    /\ Qc_of_Z 10 <= Qc_of_Z k * q + q / Qc_of_Z 2.
Proof.
  cbv zeta.
  apply (apply_mods_quantized_slots heated_rifle (snd (apply_mods heated_rifle))
           (Q2Qc (11 # 16))) with (p := damagePerShot (snd (apply_mods heated_rifle)));
    [ run_ok | by_eval | reflexivity | left; reflexivity | by_eval ].
Defined.

(** X7: when the modded damage and the elemental damage sum to zero the
    quantum is zero, and every slot of both quantized vectors is [nan]. *)
Theorem apply_mods_zero_quantum s s' t e :
  apply_mods s = (Ok tt, s') ->
  py_sum (modded_array (damagePerShot s')) = Some t ->
  py_sum (modded_array (elementalDamagePerShot s')) = Some e ->
  t + e = 0 ->
  quantized_array (damagePerShot s')
  = replicate (length (modded_array (damagePerShot s'))) None
  /\ quantized_array (elementalDamagePerShot s')
     = replicate (length (modded_array (elementalDamagePerShot s'))) None.
Proof.
  intros H Ht He Hz.
  destruct (apply_mods_quantized _ _ H) as [Q1 Q2]. cbv zeta in Q1, Q2.
  rewrite Ht, He in Q1, Q2. cbn [nadd ndiv] in Q1, Q2. rewrite Hz in Q1, Q2.
  rewrite bool_decide_eq_false_2 in Q1, Q2 by (intros E; discriminate E).
  replace (0 / Qc_of_Z 16) with (Q2Qc 0) in Q1, Q2
    by (apply (bool_decide_eq_true_1 _); vm_compute; reflexivity).
  rewrite Q1, Q2. split; apply quantize_zero.
Qed.

Lemma apply_mods_zero_quantum_witness :
  let s' := snd (apply_mods blank_rifle) in
  quantized_array (damagePerShot s') = replicate 20 None
  /\ quantized_array (elementalDamagePerShot s') = replicate 20 None.
Proof.
  cbv zeta.
  destruct (apply_mods_zero_quantum blank_rifle (snd (apply_mods blank_rifle)) 0 0)
    as [H1 H2]; [run_ok | by_eval | by_eval | by_eval |].
  rewrite H1, H2. split; f_equal; vm_compute; reflexivity.
Defined.

(** ** The proc probabilities *)

Lemma foldl_nadd_nonneg (a : ndarray) acc t :
  foldl nadd (Some acc) a = Some t ->
  (forall j w, a !! j = Some (Some w) -> 0 <= w) ->
  acc <= t /\ forall i w, a !! i = Some (Some w) -> acc + w <= t.
Proof.
  revert acc. induction a as [|x a IH]; intros acc Hs Hn; cbn [foldl] in Hs.
  - inversion Hs. split; [apply Qcle_refl | intros i w Hi; discriminate Hi].
  - destruct x as [x|]; cbn [nadd] in Hs;
      [| rewrite foldl_nadd_None in Hs; discriminate].
    assert (0 <= x) as Hx by exact (Hn 0%nat x eq_refl).
    destruct (IH _ Hs (fun j w Hj => Hn (Datatypes.S j) w Hj)) as [B1 B2].
    split.
    + qc2q. lra.
    + intros [|i] w Hi; cbn in Hi.
      * inversion Hi; subst w. exact B1.
      * specialize (B2 i w Hi). assert (0 <= w) as Hw by exact (Hn (Datatypes.S i) w Hi).
        qc2q. lra.
Qed.

Lemma probability_bounds (raw : ndarray) t i w :
  py_sum raw = Some t -> 0 < t ->
  (forall j v, raw !! j = Some (Some v) -> 0 <= v) ->
  raw !! i = Some (Some w) ->
  arr_scale raw (norm_factor (Some t)) !! i = Some (Some (w / t))
  /\ 0 <= w / t /\ w / t <= 1.
Proof.
  intros Hs Ht Hn Hi.
  destruct (foldl_nadd_nonneg _ _ _ Hs Hn) as [_ B].
  specialize (B i w Hi). replace (0 + w) with w in B by ring.
  assert (0 <= w) as Hw by exact (Hn i w Hi).
  assert (t <> 0) as Ht0 by (intros ->; exact (Qclt_irrefl _ Ht)).
  assert (0 < / t) as Hinv by (apply Qcinv_pos; exact Ht).
  split; [|split].
  - rewrite (norm_factor_pos _ Ht). unfold arr_scale.
    rewrite list_lookup_fmap, Hi. cbn. do 2 f_equal. field. exact Ht0.
  - unfold Qcdiv. replace 0 with (0 * / t) by ring.
    apply Qcmult_le_mono_pos_r; assumption.
  - unfold Qcdiv. replace 1 with (t * / t) by (field; exact Ht0).
    apply Qcmult_le_mono_pos_r; assumption.
Qed.

(** X8: when no weight is negative and their total [t] is positive,
    the proc probability of a slot of weight [w] is [w / t], a number
    between 0 and 1. *)
Theorem apply_mods_probability_bounds s s' raw t :
  apply_mods s = (Ok tt, s') ->
  proc_weights s' = Ok raw ->
  py_sum raw = Some t -> 0 < t ->
  (forall j v, raw !! j = Some (Some v) -> 0 <= v) ->
  forall i w, raw !! i = Some (Some w) ->
  procProbabilities s' !! i = Some (Some (w / t)) /\ 0 <= w / t /\ w / t <= 1.
Proof.
  intros H Hr Hs Ht Hn i w Hi.
  destruct (apply_mods_procProbabilities _ _ H) as (raw' & Hr' & Hp).
  rewrite Hr in Hr'. inversion Hr'; subst raw'. rewrite Hp, Hs.
  exact (probability_bounds raw t i w Hs Ht Hn Hi).
Qed.

Lemma apply_mods_probability_bounds_witness :
  let s' := snd (apply_mods heated_rifle) in
  let p := Qc_of_Z 10 / Qc_of_Z 11 in
  procProbabilities s' !! 0%nat = Some (Some p) /\ 0 <= p /\ p <= 1.
Proof.
  cbv zeta.
  apply (apply_mods_probability_bounds heated_rifle (snd (apply_mods heated_rifle))
           (Some (Qc_of_Z 10) :: Some 0 :: Some 0 :: Some 1 :: replicate 16 (Some 0))
           (Qc_of_Z 11)).
  - run_ok.
  - by_eval.
  - by_eval.
  - reflexivity.
  - intros j v Hj.
    do 20 (destruct j as [|j];
           [inversion Hj; subst v; unfold Qcle; vm_compute; intros E; discriminate E|]).
    discriminate Hj.
  - reflexivity.
Defined.

(** ** [multiply] *)

Lemma apply_mods_damage_refs s s' :
  apply_mods s = (Ok tt, s') ->
  exists m q, dp_modded (damagePerShot s') = Own m /\ dp_quantized (damagePerShot s') = Own q.
Proof.
  intros H. run_apply_mods H. subst s'. norm_fm_goal.
  unfold bind_quantized, bind_modded. cbn [dp_modded dp_quantized]. eauto.
Qed.

Lemma multiply_own v p m q :
  dp_modded p = Own m -> dp_quantized p = Own q ->
  let p' := DamageParameter_multiply v p in
  dp_base p' = dp_base p
  /\ modded_array p' = arr_scale (modded_array p) (Some v)
  /\ quantized_array p' = arr_scale (quantized_array p) (Some v).
Proof.
  destruct p as [b pm pq]. cbn [dp_modded dp_quantized]. intros -> ->.
  repeat split.
Qed.

(** X9: on the damage parameter that [apply_mods] leaves, [multiply]
    scales the modded and the quantized vector once and keeps the base;
    after [reset] the three are one array, which the same call scales
    twice. *)
Theorem multiply_scales v s s' :
  apply_mods s = (Ok tt, s') ->
  let p := damagePerShot s' in
  let p1 := DamageParameter_multiply v p in
  let p2 := DamageParameter_multiply v (DamageParameter_reset p) in
  (dp_base p1 = dp_base p
   /\ modded_array p1 = arr_scale (modded_array p) (Some v)
   /\ quantized_array p1 = arr_scale (quantized_array p) (Some v))
  /\ (dp_base p2 = arr_scale (arr_scale (dp_base p) (Some v)) (Some v)
      /\ modded_array p2 = dp_base p2 /\ quantized_array p2 = dp_base p2).
Proof.
  intros H. cbv zeta.
  destruct (apply_mods_damage_refs _ _ H) as (m & q & Hm & Hq).
  split; [exact (multiply_own v _ m q Hm Hq)|].
  split; [apply reset_multiply_alias | split; reflexivity].
Qed.

Lemma multiply_scales_witness :
  let p := damagePerShot (snd (apply_mods heated_rifle)) in
  dp_base (DamageParameter_multiply (Qc_of_Z 2) p) = dp_base p
  /\ dp_base (DamageParameter_multiply (Qc_of_Z 2) (DamageParameter_reset p))
     = arr_scale (arr_scale (dp_base p) (Some (Qc_of_Z 2))) (Some (Qc_of_Z 2)).
Proof.
  cbv zeta.
  destruct (multiply_scales (Qc_of_Z 2) heated_rifle (snd (apply_mods heated_rifle)))
    as ((H1 & _) & (H2 & _)); [run_ok|].
  split; [exact H1 | exact H2].
Defined.

(** ** The tier roll at other chances *)

(** X10: at an integer chance [n] the roll plays no part: [get_tier]
    returns [n] for every value [r >= 0] of [random()]. *)
Theorem get_tier_integer (n : Z) (r : Qc) : 0 <= r -> get_tier (Qc_of_Z n) r = n.
Proof.
  intros Hr. unfold get_tier, py_mod1, py_int.
  assert (Qfloor (Qc_of_Z n) = n) as Ef by (cbn [this Qc_of_Z]; apply Qfloor_Z).
  assert (Qceiling (Qc_of_Z n) = n) as Ec by (cbn [this Qc_of_Z]; apply Qceiling_Z).
  rewrite Ef, Ec.
  replace (Qc_of_Z n - Qc_of_Z n) with 0 by ring.
  rewrite (bool_decide_eq_false_2 (r < 0)) by (apply Qcle_not_lt; exact Hr).
  cbn [int_of_bool]. destruct (bool_decide (0 <= Qc_of_Z n)); reflexivity.
Qed.

Lemma get_tier_integer_witness : get_tier (Qc_of_Z 3) (Q2Qc (1 # 2)) = 3%Z.
Proof. apply (get_tier_integer 3 (Q2Qc (1 # 2))). qc_order. Defined.

Lemma ceiling_floor_succ (x : Qc) :
  x <> Qc_of_Z (Qfloor x) -> Qceiling x = (Qfloor x + 1)%Z.
Proof.
  intros Hx.
  pose proof (Qfloor_le x) as F1. pose proof (Qlt_floor x) as F2.
  pose proof (Qle_ceiling x) as C1. pose proof (Qceiling_lt x) as C2.
  assert (~ (this x == inject_Z (Qfloor x))%Q) as Hne.
  { intros E. apply Hx. apply Qc_is_canon. exact E. }
  assert (inject_Z (Qfloor x) < x)%Q as F3.
  { apply Qle_lteq in F1. destruct F1 as [F1|F1]; [exact F1|].
    exfalso. apply Hne. symmetry. exact F1. }
  assert (Qfloor x < Qceiling x)%Z as L1.
  { rewrite Zlt_Qlt. eapply Qlt_le_trans; eassumption. }
  assert (Qceiling x - 1 < Qfloor x + 1)%Z as L2.
  { rewrite Zlt_Qlt. eapply Qlt_trans; eassumption. }
  lia.
Qed.

(** X11: for a negative chance that is not an integer, [get_tier] returns
    one more than [floor(x) + (r < x - floor(x))]: [int] truncates toward
    zero while [%] takes the floor. *)
Theorem get_tier_negative (x r : Qc) :
  x < 0 -> x <> Qc_of_Z (Qfloor x) -> get_tier x r = (tier_rule x r + 1)%Z.
Proof.
  intros Hneg Hx. unfold get_tier, tier_rule, py_mod1, py_int.
  rewrite (bool_decide_eq_false_2 (0 <= x)) by (apply Qclt_not_le; exact Hneg).
  rewrite (ceiling_floor_succ _ Hx).
  case_bool_decide; cbn [int_of_bool]; lia.
Qed.

Lemma get_tier_negative_witness :
  get_tier (Q2Qc (-1 # 2)) 0 = (tier_rule (Q2Qc (-1 # 2)) 0 + 1)%Z.
Proof. apply (get_tier_negative (Q2Qc (-1 # 2)) 0); [qc_order | by_eval]. Defined.

(** X12: for a chance [x >= 0], [get_tier] returns [floor(x)] or
    [floor(x) + 1], an integer within 1 of [x]. *)
Theorem get_tier_near (x r : Qc) :
  0 <= x -> 0 <= r ->
  (Qfloor x <= get_tier x r)%Z
  /\ x - 1 < Qc_of_Z (get_tier x r) /\ Qc_of_Z (get_tier x r) < x + 1.
Proof.
  intros Hx Hr. unfold get_tier, py_mod1. rewrite (py_int_nonneg _ Hx).
  pose proof (floor_le x) as Hf. pose proof (lt_floor_succ x) as Hs.
  case_bool_decide as Hb; cbn [int_of_bool].
  - replace (1 + Qfloor x)%Z with (Qfloor x + 1)%Z by lia.
    split; [lia|]. rewrite Z2Qc_inj_add, Z2Qc_inj_1. qc2q. split; lra.
  - rewrite Z.add_0_l. split; [lia|]. qc2q. split; lra.
Qed.

Lemma get_tier_near_witness :
  let x := Q2Qc (5 # 2) in
  let n := get_tier x (Q2Qc (1 # 4)) in
  (Qfloor x <= n)%Z /\ x - 1 < Qc_of_Z n /\ Qc_of_Z n < x + 1.
Proof. cbv zeta. apply (get_tier_near (Q2Qc (5 # 2)) (Q2Qc (1 # 4))); qc_order. Defined.

(** ** One call of [pull_trigger] *)

Lemma for_range_exact enemy n fm t q i :
  for_range n (fire_cluster enemy) (mkWorld fm (mkSimulacrum t q i))
  = (Ok tt, mkWorld fm (mkSimulacrum t (q ++ clusters_events enemy fm t i n)
                          (i + n * Datatypes.S (length (fire_mode_effects fm)))%nat)).
Proof.
  revert q i. induction n as [|n IH]; intros q i.
  - cbn [for_range clusters_events]. unfold ret. rewrite app_nil_r.
    replace (i + 0 * _)%nat with i by lia. reflexivity.
  - cbn [for_range clusters_events]. unfold bind at 1. rewrite fire_cluster_spec.
    rewrite IH. rewrite <- app_assoc. do 3 f_equal. lia.
Qed.

Lemma effect_events_seq enemy ft i l :
  sequence_numbers (effect_events enemy ft i l) = seq i (length l).
Proof.
  revert i. induction l as [|fme l IH]; intros i; cbn; [reflexivity|].
  f_equal. apply IH.
Qed.

Lemma cluster_events_seq enemy fm t i :
  sequence_numbers (cluster_events enemy fm t i)
  = seq i (Datatypes.S (length (fire_mode_effects fm))).
Proof.
  unfold cluster_events. cbn. f_equal. apply effect_events_seq.
Qed.

Lemma clusters_events_length enemy fm t i n :
  length (clusters_events enemy fm t i n)
  = (n * Datatypes.S (length (fire_mode_effects fm)))%nat.
Proof.
  revert i. induction n as [|n IH]; intros i; cbn [clusters_events]; [reflexivity|].
  rewrite length_app, cluster_events_length, IH. lia.
Qed.

Lemma clusters_events_seq enemy fm t i n :
  sequence_numbers (clusters_events enemy fm t i n)
  = seq i (n * Datatypes.S (length (fire_mode_effects fm))).
Proof.
  revert i. induction n as [|n IH]; intros i; cbn [clusters_events]; [reflexivity|].
  unfold sequence_numbers in *. rewrite fmap_app.
  fold (sequence_numbers (cluster_events enemy fm t i)).
  rewrite cluster_events_seq, IH.
  replace (Datatypes.S n * Datatypes.S (length (fire_mode_effects fm)))%nat
    with (Datatypes.S (length (fire_mode_effects fm))
          + n * Datatypes.S (length (fire_mode_effects fm)))%nat by lia.
  rewrite seq_app. f_equal. f_equal. lia.
Qed.

Lemma clusters_events_hits enemy fm t i n :
  Forall is_hit (clusters_events enemy fm t i n).
Proof.
  revert i. induction n as [|n IH]; intros i; cbn [clusters_events]; [constructor|].
  apply Forall_app. split; [apply cluster_events_hits | apply IH].
Qed.

(** One call of [pull_trigger], in full. *)
Lemma pull_trigger_exact r fire_mode enemy fm t q i :
  let roll := get_tier (p_modded (multishot fm)) r in
  let held := bool_decide (trigger fm = "HELD") in
  let fm2 := if held
             then set_proc_multishot_multiplier roll
                    (set_damage_multishot_multiplier roll (spend_ammo fm))
             else spend_ammo fm in
  let n := Z.to_nat (if held then 1%Z else roll) in
  let hits := clusters_events enemy fm2 t i n in
  let j := (i + length hits)%nat in
  let positive := bool_decide (0 < mp_current (magazineSize fm2)) in
  let fm3 := if positive then fm2 else reload fm2 in
  let period := 1 / p_modded (fireRate fm2) in
  let next := if positive
              then t + period + p_modded (chargeTime fm2)
              else t + py_max (p_modded (reloadTime fm2)) period
                   + p_modded (chargeTime fm2) in
  pull_trigger r fire_mode enemy (mkWorld fm (mkSimulacrum t q i))
  = if bool_decide (p_modded (fireRate fm2) = 0)
    then (Raise ZeroDivisionError, mkWorld fm3 (mkSimulacrum t (q ++ hits) j))
    else (Ok tt,
          mkWorld fm3
            (mkSimulacrum t
               ((q ++ hits)
                ++ [(next, j,
                     mkEventTrigger fire_mode (pull_trigger_of (name fm3)) next)])
               (Datatypes.S j))).
Proof.
  cbv zeta. rewrite clusters_events_length.
  apply pull_trigger_run. apply for_range_exact.
Qed.

Lemma cluster_events_ext enemy fm fm' t i :
  name fm' = name fm -> embedDelay fm' = embedDelay fm ->
  fire_mode_effects fm' = fire_mode_effects fm ->
  cluster_events enemy fm' t i = cluster_events enemy fm t i.
Proof. intros Hn He Hf. unfold cluster_events. rewrite Hn, He, Hf. reflexivity. Qed.

Lemma clusters_events_ext enemy fm fm' t i n :
  name fm' = name fm -> embedDelay fm' = embedDelay fm ->
  fire_mode_effects fm' = fire_mode_effects fm ->
  clusters_events enemy fm' t i n = clusters_events enemy fm t i n.
Proof.
  intros Hn He Hf. revert i. induction n as [|n IH]; intros i; cbn [clusters_events];
    [reflexivity|].
  rewrite (cluster_events_ext _ _ _ _ _ Hn He Hf), Hf, IH. reflexivity.
Qed.

(** The fire mode after the ammunition is spent and the roll is written. *)
Lemma fired_fields roll (held : bool) fm :
  let fm2 := if held
             then set_proc_multishot_multiplier roll
                    (set_damage_multishot_multiplier roll (spend_ammo fm))
             else spend_ammo fm in
  name fm2 = name fm /\ embedDelay fm2 = embedDelay fm
  /\ fire_mode_effects fm2 = fire_mode_effects fm
  /\ fireRate fm2 = fireRate fm /\ chargeTime fm2 = chargeTime fm
  /\ reloadTime fm2 = reloadTime fm
  /\ magazineSize fm2
     = mp_set_current (mp_current (magazineSize fm) - p_modded (ammoCost fm))
                      (magazineSize fm).
Proof. destruct held; repeat split. Qed.

(** X13: [pull_trigger] only appends to the event queue; the new
    entries carry the consecutive sequence numbers from [call_index] on,
    [call_index] advances by their number, and the time does not change.
    This holds for a call that raises as well. *)
Theorem pull_trigger_sequence_numbers r fire_mode enemy w :
  let w' := snd (pull_trigger r fire_mode enemy w) in
  exists new,
    event_queue (w_sim w') = event_queue (w_sim w) ++ new
    /\ sequence_numbers new = seq (call_index (w_sim w)) (length new)
    /\ call_index (w_sim w') = (call_index (w_sim w) + length new)%nat
    /\ time (w_sim w') = time (w_sim w).
Proof.
  destruct w as [fm [t q i]]. cbn [w_sim time event_queue call_index].
  rewrite pull_trigger_exact. cbv zeta.
  set (hits := clusters_events _ _ _ _ _).
  assert (sequence_numbers hits = seq i (length hits)) as Hseq.
  { unfold hits. rewrite clusters_events_seq, clusters_events_length. reflexivity. }
  destruct (bool_decide (p_modded (fireRate _) = 0)); cbn [snd w_sim event_queue call_index time].
  - exists hits. repeat split. exact Hseq.
  - eexists (hits ++ [_]). rewrite app_assoc. split; [reflexivity|].
    rewrite length_app. cbn [length]. split; [|split; [lia | reflexivity]].
    unfold sequence_numbers in *. rewrite fmap_app, Hseq. cbn [fmap list_fmap fst snd].
    rewrite seq_app. reflexivity.
Qed.

(** X14: when the trigger is not [HELD], [pull_trigger] leaves the
    buckets as they are and queues one cluster of hits (the fire mode and
    each effect) per rolled multishot, followed by at most one
    [pull_trigger] event. *)
Theorem pull_trigger_not_held r fire_mode enemy w :
  trigger (w_fm w) <> "HELD" ->
  let fm := w_fm w in
  let roll := get_tier (p_modded (multishot fm)) r in
  let hits := clusters_events enemy fm (time (w_sim w)) (call_index (w_sim w))
                              (Z.to_nat roll) in
  let w' := snd (pull_trigger r fire_mode enemy w) in
  mods (w_fm w') = mods fm
  /\ length hits = (Z.to_nat roll * Datatypes.S (length (fire_mode_effects fm)))%nat
  /\ Forall is_hit hits
  /\ exists rest,
       event_queue (w_sim w') = event_queue (w_sim w) ++ hits ++ rest
       /\ (length rest <= 1)%nat
       /\ Forall (is_pull (name fm)) rest.
Proof.
  destruct w as [fm [t q i]]. cbn [w_fm w_sim time event_queue call_index].
  intros Hne. cbv zeta. rewrite pull_trigger_exact. cbv zeta.
  rewrite (bool_decide_eq_false_2 _ Hne).
  rewrite (clusters_events_ext enemy fm (spend_ammo fm)) by reflexivity.
  split; [|split; [apply clusters_events_length | split; [apply clusters_events_hits|]]].
  - destruct (bool_decide (p_modded (fireRate _) = 0));
      destruct (bool_decide (0 < mp_current (magazineSize _))); reflexivity.
  - destruct (bool_decide (p_modded (fireRate _) = 0)).
    + exists []. cbn [snd w_sim event_queue]. rewrite app_nil_r.
      split; [reflexivity|]. split; [cbn; lia | constructor].
    + eexists [_]. cbn [snd w_sim event_queue]. rewrite <- app_assoc.
      split; [reflexivity|]. split; [cbn; lia|].
      constructor; [|constructor]. unfold is_pull. cbn [snd et_func].
      destruct (bool_decide (0 < mp_current (magazineSize _))); reflexivity.
Qed.

Lemma pull_trigger_not_held_witness :
  let w := mkWorld launcher idle_simulation in
  let w' := snd (pull_trigger 0 (SrcFireMode "primary") "target" w) in
  let hits := clusters_events "target" launcher 0 0 2 in
  mods (w_fm w') = mods launcher
  /\ Forall is_hit hits
  /\ exists rest,
       event_queue (w_sim w') = hits ++ rest /\ (length rest <= 1)%nat
       /\ Forall (is_pull "primary") rest.
Proof.
  cbv zeta.
  destruct (pull_trigger_not_held 0 (SrcFireMode "primary") "target"
              (mkWorld launcher idle_simulation))
    as (Hm & _ & Hh & rest & Hq & Hl & Hp); [discriminate|].
  split; [exact Hm|]. split; [exact Hh|]. exists rest. auto.
Defined.

Lemma pull_trigger_magazine r fire_mode enemy w :
  let fm := w_fm w in
  let left := mp_current (magazineSize fm) - p_modded (ammoCost fm) in
  let fm' := w_fm (snd (pull_trigger r fire_mode enemy w)) in
  mp_current (magazineSize fm') = (if bool_decide (0 < left) then left
                                   else mp_modded (magazineSize fm))
  /\ mp_modded (magazineSize fm') = mp_modded (magazineSize fm)
  /\ mp_base (magazineSize fm') = mp_base (magazineSize fm).
Proof.
  destruct w as [fm [t q i]]. cbn [w_fm]. cbv zeta.
  rewrite pull_trigger_exact. cbv zeta.
  destruct (fired_fields (get_tier (p_modded (multishot fm)) r)
              (bool_decide (trigger fm = "HELD")) fm) as (_ & _ & _ & _ & _ & _ & Em).
  cbv zeta in Em.
  set (fm2 := if bool_decide (trigger fm = "HELD") then _ else _) in *.
  rewrite Em. cbn [mp_current mp_set_current].
  destruct (bool_decide (p_modded (fireRate fm2) = 0));
    destruct (bool_decide (0 < mp_current (magazineSize fm) - p_modded (ammoCost fm)));
    cbn [snd w_fm]; unfold reload; cbn [magazineSize set_magazineSize];
    rewrite ?Em; repeat split.
Qed.

(** X15: with a positive modded magazine size, [pull_trigger] leaves a
    positive [current]; and when the ammo cost is not negative and
    [current] was at most the modded size, it still is. *)
Theorem pull_trigger_magazine_bounds r fire_mode enemy w :
  let m := magazineSize (w_fm w) in
  let m' := magazineSize (w_fm (snd (pull_trigger r fire_mode enemy w))) in
  0 < mp_modded m ->
  0 < mp_current m'
  /\ (0 <= p_modded (ammoCost (w_fm w)) -> mp_current m <= mp_modded m ->
      mp_current m' <= mp_modded m').
Proof.
  cbv zeta. intros Hpos.
  destruct (pull_trigger_magazine r fire_mode enemy w) as (Hc & Hm & _).
  cbv zeta in Hc, Hm. rewrite Hc, Hm. case_bool_decide as Hl.
  - split; [exact Hl|]. intros Ha Hle. revert Ha Hle. qc2q. intros. lra.
  - split; [exact Hpos|]. intros _ _. apply Qcle_refl.
Qed.

Lemma pull_trigger_magazine_bounds_witness :
  let w := mkWorld plain_rifle idle_simulation in
  let m' := magazineSize (w_fm (snd (pull_trigger 0 (SrcFireMode "primary") "target" w))) in
  0 < mp_current m' /\ mp_current m' <= mp_modded m'.
Proof.
  cbv zeta.
  destruct (pull_trigger_magazine_bounds 0 (SrcFireMode "primary") "target"
              (mkWorld plain_rifle idle_simulation)) as [H1 H2]; [qc_order|].
  split; [exact H1|]. apply H2; qc_order.
Defined.

(** X16: [pull_trigger] returns exactly when [fireRate.modded] is not
    zero.  At zero it raises [ZeroDivisionError] after the ammunition is
    spent (and refilled when used up) and the hits are queued: the queue
    has got hits only, no next [pull_trigger] event. *)
Theorem pull_trigger_returns r fire_mode enemy w :
  let w' := snd (pull_trigger r fire_mode enemy w) in
  (fst (pull_trigger r fire_mode enemy w) = Ok tt
   <-> p_modded (fireRate (w_fm w)) <> 0)
  /\ (p_modded (fireRate (w_fm w)) = 0 ->
      fst (pull_trigger r fire_mode enemy w) = Raise ZeroDivisionError
      /\ Forall is_hit (drop (length (event_queue (w_sim w))) (event_queue (w_sim w')))
      /\ mp_current (magazineSize (w_fm w'))
         = (let left := mp_current (magazineSize (w_fm w)) - p_modded (ammoCost (w_fm w)) in
            if bool_decide (0 < left) then left else mp_modded (magazineSize (w_fm w)))).
Proof.
  destruct (pull_trigger_magazine r fire_mode enemy w) as (Hc & _). cbv zeta in Hc.
  cbv zeta. rewrite Hc. clear Hc.
  destruct w as [fm [t q i]]. cbn [w_fm w_sim time event_queue call_index].
  rewrite pull_trigger_exact. cbv zeta.
  destruct (fired_fields (get_tier (p_modded (multishot fm)) r)
              (bool_decide (trigger fm = "HELD")) fm) as (_ & _ & _ & Ef & _).
  cbv zeta in Ef.
  set (fm2 := if bool_decide (trigger fm = "HELD") then _ else _) in *.
  rewrite Ef. case_bool_decide as Hz; cbn [fst snd w_sim event_queue].
  - split; [split; [discriminate | contradiction]|].
    intros _. split; [reflexivity|]. split; [|reflexivity].
    rewrite drop_app_length. apply clusters_events_hits.
  - split; [split; auto | contradiction].
Qed.

Lemma pull_trigger_returns_witness :
  let w := mkWorld jammed_rifle idle_simulation in
  fst (pull_trigger 0 (SrcFireMode "primary") "target" w) = Raise ZeroDivisionError
  /\ Forall is_hit (event_queue (w_sim (snd (pull_trigger 0 (SrcFireMode "primary") "target" w)))).
Proof.
  cbv zeta.
  destruct (pull_trigger_returns 0 (SrcFireMode "primary") "target"
              (mkWorld jammed_rifle idle_simulation)) as [_ H].
  destruct H as (H1 & H2 & _); [by_eval|].
  split; [exact H1 | exact H2].
Defined.

(** X17: [pull_trigger] changes the magazine's [current] and, when the
    trigger is [HELD], the [multishot_multiplier] entry of the
    [damagePerShot] and of the [procChance] bucket, which becomes the
    roll; it changes nothing else: every other field of the fire mode, the
    magazine's base and modded size, every other bucket and every other
    entry of those two are as before, and with another trigger the buckets
    are unchanged altogether. *)
Theorem pull_trigger_keeps r fire_mode enemy w :
  let fm := w_fm w in
  let fm' := w_fm (snd (pull_trigger r fire_mode enemy w)) in
  let roll := Qc_of_Z (get_tier (p_modded (multishot fm)) r) in
  (name fm' = name fm /\ data fm' = data fm
   /\ fire_mode_effects fm' = fire_mode_effects fm
   /\ attack_index fm' = attack_index fm /\ trigger fm' = trigger fm
   /\ damagePerShot fm' = damagePerShot fm
   /\ elementalDamagePerShot fm' = elementalDamagePerShot fm
   /\ criticalChance fm' = criticalChance fm
   /\ criticalMultiplier fm' = criticalMultiplier fm
   /\ procChance fm' = procChance fm
   /\ procProbabilities fm' = procProbabilities fm
   /\ procCumulativeProbabilities fm' = procCumulativeProbabilities fm
   /\ fireRate fm' = fireRate fm /\ reloadTime fm' = reloadTime fm
   /\ multishot fm' = multishot fm /\ ammoCost fm' = ammoCost fm
   /\ chargeTime fm' = chargeTime fm /\ embedDelay fm' = embedDelay fm
   /\ forcedProc fm' = forcedProc fm /\ radial fm' = radial fm
   /\ refresh fm' = refresh fm)
  /\ (mp_base (magazineSize fm') = mp_base (magazineSize fm)
      /\ mp_modded (magazineSize fm') = mp_modded (magazineSize fm))
  /\ mods fm'
     = (if bool_decide (trigger fm = "HELD")
        then set_procChance_m
               (<["multishot_multiplier" := roll]> (procChance_m (mods fm)))
               (set_damagePerShot_m
                  (<["multishot_multiplier" := roll]> (damagePerShot_m (mods fm)))
                  (mods fm))
        else mods fm)
  /\ (forall k, k <> "multishot_multiplier" ->
      damagePerShot_m (mods fm') !! k = damagePerShot_m (mods fm) !! k
      /\ procChance_m (mods fm') !! k = procChance_m (mods fm) !! k).
Proof.
  destruct w as [fm [t q i]]. cbn [w_fm]. cbv zeta.
  rewrite pull_trigger_exact. cbv zeta.
  assert (forall b : Buckets,
             set_procChance_m (procChance_m b) (set_damagePerShot_m (damagePerShot_m b) b)
             = b) as Hid by (intros b; destruct b; reflexivity).
  destruct (bool_decide (trigger fm = "HELD"));
    destruct (bool_decide (p_modded (fireRate _) = 0));
    destruct (bool_decide (0 < mp_current (magazineSize _)));
    cbn [snd w_fm];
    (split; [repeat split|]); (split; [split; reflexivity|]);
    (split; [reflexivity|]);
    intros k Hk; cbn;
    rewrite ?lookup_insert_ne by (intros E; apply Hk; symmetry; exact E);
    split; reflexivity.
Qed.

Lemma entry_insert_eq (m : gmap string Qc) k v : entry (<[k := v]> m) k = v.
Proof. unfold entry. rewrite lookup_insert_eq. reflexivity. Qed.

Lemma entry_insert_ne (m : gmap string Qc) k k' v :
  k <> k' -> entry (<[k := v]> m) k' = entry m k'.
Proof. intros Hk. unfold entry. rewrite lookup_insert_ne by exact Hk. reflexivity. Qed.

Lemma pull_trigger_held_buckets r fire_mode enemy w :
  trigger (w_fm w) = "HELD" ->
  let fm := w_fm w in
  let roll := get_tier (p_modded (multishot fm)) r in
  let fm' := w_fm (snd (pull_trigger r fire_mode enemy w)) in
  damagePerShot_m (mods fm')
  = <["multishot_multiplier" := Qc_of_Z roll]> (damagePerShot_m (mods fm))
  /\ procChance_m (mods fm')
     = <["multishot_multiplier" := Qc_of_Z roll]> (procChance_m (mods fm)).
Proof.
  destruct w as [fm [t q i]]. cbn [w_fm]. intros Hheld. cbv zeta.
  rewrite pull_trigger_exact. cbv zeta. rewrite (bool_decide_eq_true_2 _ Hheld).
  destruct (bool_decide (p_modded (fireRate _) = 0));
    destruct (bool_decide (0 < mp_current (magazineSize _))); split; reflexivity.
Qed.

Lemma pull_trigger_statistics r fire_mode enemy w :
  let fm := w_fm w in
  let fm' := w_fm (snd (pull_trigger r fire_mode enemy w)) in
  damagePerShot fm' = damagePerShot fm /\ procChance fm' = procChance fm
  /\ bonusDamagePerShot_m (mods fm') = bonusDamagePerShot_m (mods fm).
Proof.
  destruct w as [fm [t q i]]. cbn [w_fm]. cbv zeta.
  rewrite pull_trigger_exact. cbv zeta.
  destruct (bool_decide (trigger fm = "HELD"));
    destruct (bool_decide (p_modded (fireRate _) = 0));
    destruct (bool_decide (0 < mp_current (magazineSize _)));
    repeat split.
Qed.

(** X18: the roll of a [HELD] trigger stays in the buckets: an
    [apply_mods] after the call gives a modded status chance and a modded
    damage vector that carry the factor [multishot_roll]. *)
Theorem held_then_apply_mods r fire_mode enemy w s' :
  trigger (w_fm w) = "HELD" ->
  apply_mods (w_fm (snd (pull_trigger r fire_mode enemy w))) = (Ok tt, s') ->
  let fm := w_fm w in
  let b := mods fm in
  let roll := Qc_of_Z (get_tier (p_modded (multishot fm)) r) in
  let base := dp_base (damagePerShot fm) in
  let weights := arr_div base (nmax (py_sum base) (Some (Q2Qc 0.01))) in
  let bonus := arr_scale weights (Some (entry (bonusDamagePerShot_m b) "additive_base")) in
  p_modded (procChance s')
  = (p_base (procChance fm) + entry (procChance_m b) "additive_base")
    * ((1 + entry (procChance_m b) "base") + entry (procChance_m b) "additive_final")
    * entry (procChance_m b) "final_multiplier" * roll
  /\ modded_array (damagePerShot s')
     = arr_scale
         (arr_scale
            (arr_scale (zip_with nadd base bonus)
                       (Some (1 + entry (damagePerShot_m b) "base")))
            (Some roll))
         (Some (entry (damagePerShot_m b) "final_multiplier")).
Proof.
  intros Hheld H. cbv zeta.
  pose proof (apply_mods_scalars _ _ H) as (_ & _ & S3 & _). cbv zeta in S3.
  pose proof (apply_mods_damage _ _ H) as Hd. cbv zeta in Hd.
  destruct (pull_trigger_held_buckets r fire_mode enemy w Hheld) as (B1 & B2).
  cbv zeta in B1, B2.
  destruct (pull_trigger_statistics r fire_mode enemy w) as (F1 & F2 & F4).
  cbv zeta in F1, F2, F4.
  rewrite S3, Hd, B1, B2, F1, F2, F4.
  rewrite !entry_insert_eq.
  rewrite !entry_insert_ne by discriminate.
  split; reflexivity.
Qed.

Lemma held_then_apply_mods_witness :
  let w := mkWorld held_launcher idle_simulation in
  let s' := snd (apply_mods (w_fm (snd (pull_trigger 0 (SrcFireMode "primary") "target" w)))) in
  let b := mods held_launcher in
  let roll := Qc_of_Z (get_tier (p_modded (multishot held_launcher)) 0) in
  p_modded (procChance s')
  = (p_base (procChance held_launcher) + entry (procChance_m b) "additive_base")
    * ((1 + entry (procChance_m b) "base") + entry (procChance_m b) "additive_final")
    * entry (procChance_m b) "final_multiplier" * roll.
Proof.
  cbv zeta.
  destruct (held_then_apply_mods 0 (SrcFireMode "primary") "target"
              (mkWorld held_launcher idle_simulation)
              (snd (apply_mods (w_fm (snd (pull_trigger 0 (SrcFireMode "primary") "target"
                                             (mkWorld held_launcher idle_simulation)))))))
    as [H _]; [reflexivity | run_ok | exact H].
Defined.

(** ** The constructor of a fire mode *)

Lemma load_mods_default s :
  mods s = default_buckets -> mods (load_mods s) = default_buckets.
Proof.
  intros Hm. unfold load_mods. cbn [mods set_mods]. rewrite Hm.
  unfold set_damagePerShot_m, default_buckets. cbn. f_equal;
    try (apply (bool_decide_eq_true_1 _); vm_compute; reflexivity).
Qed.

Lemma FireModeEffect_init_partial MAX_TIME_OFFSET parent n :
  a_damagePerShot parent = None ->
  exists e, FireModeEffect_init MAX_TIME_OFFSET parent n = Raise e.
Proof.
  intros Hp. unfold FireModeEffect_init.
  destruct (d_secondaryEffects (a_data parent)) as [l|]; cbn [rbind]; [|eauto].
  destruct (assoc n l); cbn [rbind]; [|eauto].
  rewrite Hp. cbn. eauto.
Qed.

Lemma has_entries_default : has_entries default_buckets.
Proof.
  unfold has_entries, read_entries.
  repeat (constructor; [vm_compute; eexists; reflexivity|]). constructor.
Qed.

Lemma nmax_nonzero t : exists m, nmax (Some t) (Some (Q2Qc 0.01)) = Some m /\ m <> 0.
Proof.
  unfold nmax, ngt. case_bool_decide as Hc.
  - exists (Q2Qc 0.01). split; [reflexivity|]. intros E. discriminate E.
  - exists t. split; [reflexivity|]. intros ->. apply Hc. reflexivity.
Qed.

Lemma py_sum_np_array l : exists t, py_sum (np_array l) = Some t.
Proof.
  unfold py_sum, np_array. generalize (Q2Qc 0). induction l as [|x l IH]; intros acc.
  - exists acc. reflexivity.
  - cbn [fmap list_fmap foldl nadd]. apply IH.
Qed.

(** What the constructor does once the list of effects is built. *)
Lemma FireMode_init_inv MAX_TIME_OFFSET weapon_data n fm :
  FireMode_init MAX_TIME_OFFSET weapon_data n = Ok fm ->
  exists l d s0 s',
    wd_fireModes weapon_data = Some l /\ assoc n l = Some d /\ no_effects d
    /\ apply_mods s0 = (Ok tt, s') /\ fm = set_refresh true s'
    /\ mods s0 = default_buckets
    /\ name s0 = n /\ data s0 = d /\ fire_mode_effects s0 = []
    /\ attack_index s0 = 1%Z /\ trigger s0 = default "AUTO" (d_trigger d)
    /\ damagePerShot s0
       = DamageParameter_init (default (np_zeros 20) (np_array <$> d_damagePerShot d))
    /\ elementalDamagePerShot s0 = DamageParameter_init (np_zeros 20)
    /\ criticalChance s0 = Parameter_init (default 0 (d_criticalChance d))
    /\ procChance s0 = Parameter_init (default 0 (d_procChance d))
    /\ magazineSize s0 = ModifyParameter_init (default (Qc_of_Z 100) (d_magazineSize d))
    /\ fireRate s0 = Parameter_init (default (Qc_of_Z 5) (d_fireRate d))
    /\ reloadTime s0 = Parameter_init (default 1 (d_reloadTime d))
    /\ multishot s0 = Parameter_init (default 1 (d_multishot d))
    /\ ammoCost s0 = Parameter_init (default 1 (d_ammoCost d))
    /\ chargeTime s0 = Parameter_init (default 0 (d_chargeTime d))
    /\ embedDelay s0 = Parameter_init (default 0 (d_embedDelay d))
    /\ forcedProc s0 = default [] (d_forcedProc d)
    /\ radial s0 = false
    /\ p_base (criticalMultiplier s0)
       = quantize_critical_multiplier (default 1 (d_criticalMultiplier d)).
Proof.
  unfold FireMode_init. intros H.
  apply rbind_ok_inv in H. destruct H as (l & Hfm & H).
  apply rbind_ok_inv in H. destruct H as (d & Hd & H).
  apply rbind_ok_inv in H. destruct H as (effects & He & H).
  destruct (wd_fireModes weapon_data) as [l'|] eqn:El; [|discriminate].
  inversion Hfm; subst l'.
  destruct (assoc n l) as [d'|] eqn:Ed; [|discriminate].
  inversion Hd; subst d'.
  assert (no_effects d /\ effects = []) as [Hno ->].
  { unfold no_effects. destruct (default [] (d_secondaryEffects d)) as [|[k e] tl].
    - cbn in He. inversion He. auto.
    - exfalso. cbn [fmap list_fmap foldr fst] in He.
      match type of He with
      | rbind (FireModeEffect_init ?m ?p ?k) _ = _ =>
          destruct (FireModeEffect_init_partial m p k eq_refl) as [x Hx];
          rewrite Hx in He
      end.
      discriminate. }
  match type of H with
  | match apply_mods ?s0 with _ => _ end = _ =>
      destruct (apply_mods s0) as [[[]|e] s'] eqn:E; [|discriminate];
      inversion H; subst fm; clear H;
      exists l, d, s0, s'
  end.
  split; [reflexivity|]. split; [exact Ed|]. split; [exact Hno|].
  split; [exact E|]. split; [reflexivity|].
  split; [apply load_mods_default; reflexivity|].
  repeat split.
Qed.

(** The constructor returns when the fire mode is in the data, has no
    secondary effect and its damage vector fits. *)
Lemma FireMode_init_ok MAX_TIME_OFFSET weapon_data n l d :
  wd_fireModes weapon_data = Some l -> assoc n l = Some d ->
  no_effects d -> damage_fits d ->
  exists fm, FireMode_init MAX_TIME_OFFSET weapon_data n = Ok fm.
Proof.
  intros Hl Hd Hno Hfit. unfold FireMode_init. rewrite Hl. cbn [rbind]. rewrite Hd.
  cbn [rbind]. unfold no_effects in Hno. rewrite Hno. cbn [fmap list_fmap foldr rbind].
  match goal with
  | |- exists fm, match apply_mods ?s0 with _ => _ end = _ =>
      destruct (apply_mods_defined_returns s0) as [s' E]; [|rewrite E; eauto]
  end.
  unfold apply_mods_defined.
  rewrite load_mods_default by reflexivity.
  split; [apply has_entries_default|].
  split; [apply (bool_decide_eq_false_1 _); vm_compute; reflexivity|].
  split; [apply (bool_decide_eq_false_1 _); vm_compute; reflexivity|].
  unfold load_mods. cbn [damagePerShot elementalDamagePerShot set_mods].
  unfold modded_array, DamageParameter_init, np_zeros. cbn [dp_deref dp_modded dp_base].
  rewrite length_replicate. split; [|lia].
  destruct (d_damagePerShot d) as [v|] eqn:Ev; cbn [fmap option_fmap default].
  - change (length (Some <$> v) = 20%nat). rewrite length_fmap. apply Hfit. exact Ev.
  - apply length_replicate.
Qed.

Lemma FireMode_init_fits MAX_TIME_OFFSET weapon_data n fm :
  FireMode_init MAX_TIME_OFFSET weapon_data n = Ok fm -> damage_fits (data fm).
Proof.
  intros H. destruct (FireMode_init_inv _ _ _ _ H)
    as (l & d & s0 & s' & _ & _ & _ & E & -> & _ & _ & Hdata & _ & _ & _ & Hdmg & Hel & _).
  pose proof (apply_mods_returns_defined _ _ E) as (_ & _ & _ & Hlen & _).
  destruct (apply_mods_frame _ _ E) as (_ & _ & Hd' & _).
  cbn [data set_refresh]. rewrite Hd', Hdata.
  rewrite Hdmg, Hel in Hlen. unfold modded_array, DamageParameter_init in Hlen.
  cbn [dp_deref dp_modded dp_base] in Hlen. unfold np_zeros in Hlen.
  rewrite length_replicate in Hlen.
  intros v Hv. rewrite Hv in Hlen.
  change (length (Some <$> v) = 20%nat) in Hlen. rewrite length_fmap in Hlen. exact Hlen.
Qed.

(** X19: the constructor of a fire mode returns exactly when the name
    is a fire mode of the weapon data, the record has no secondary effect,
    and its damage vector, if it has one, has 20 slots. *)
Theorem FireMode_init_returns_iff MAX_TIME_OFFSET weapon_data n :
  (exists fm, FireMode_init MAX_TIME_OFFSET weapon_data n = Ok fm)
  <-> (exists l d, wd_fireModes weapon_data = Some l /\ assoc n l = Some d
                   /\ no_effects d /\ damage_fits d).
Proof.
  split.
  - intros [fm H]. pose proof (FireMode_init_fits _ _ _ _ H) as Hfit.
    destruct (FireMode_init_inv _ _ _ _ H)
      as (l & d & s0 & s' & Hl & Hd & Hno & E & -> & _ & _ & Hdata & _).
    destruct (apply_mods_frame _ _ E) as (_ & _ & Hd' & _).
    cbn [data set_refresh] in Hfit. rewrite Hd', Hdata in Hfit.
    exists l, d. auto.
  - intros (l & d & Hl & Hd & Hno & Hfit).
    exact (FireMode_init_ok MAX_TIME_OFFSET weapon_data n l d Hl Hd Hno Hfit).
Qed.

(** X20: the constructor raises [KeyError] for a name that is not a fire
    mode of the weapon data, and [AttributeError] for every record with a
    secondary effect (the effects read the parent's parameters before they
    are assigned). *)
Theorem FireMode_init_raises MAX_TIME_OFFSET weapon_data n :
  (assoc n (default [] (wd_fireModes weapon_data)) = None ->
   FireMode_init MAX_TIME_OFFSET weapon_data n = Raise KeyError)
  /\ (forall d, assoc n (default [] (wd_fireModes weapon_data)) = Some d ->
      ~ no_effects d ->
      FireMode_init MAX_TIME_OFFSET weapon_data n = Raise AttributeError).
Proof.
  split.
  - intros Hn. unfold FireMode_init.
    destruct (wd_fireModes weapon_data) as [l|]; [|reflexivity].
    change (assoc n l = None) in Hn. cbn [rbind]. rewrite Hn. reflexivity.
  - intros d Hd Hno.
    destruct (wd_fireModes weapon_data) as [l|] eqn:El; [|discriminate Hd].
    change (assoc n l = Some d) in Hd. unfold no_effects in Hno.
    destruct (d_secondaryEffects d) as [[|[k e] tl]|] eqn:Ee;
      try (exfalso; apply Hno; reflexivity).
    exact (FireMode_init_with_effects MAX_TIME_OFFSET weapon_data n l d k e tl El Hd Ee).
Qed.

Lemma FireMode_init_raises_witness :
  FireMode_init 0 rifle_weapon "secondary" = Raise KeyError
  /\ FireMode_init 0 launcher_weapon "primary" = Raise AttributeError.
Proof.
  split.
  - apply (proj1 (FireMode_init_raises 0 rifle_weapon "secondary")). reflexivity.
  - apply (proj2 (FireMode_init_raises 0 launcher_weapon "primary") launcher_data);
      [reflexivity | discriminate].
Defined.

(** The scalar statistics under the default buckets. *)
Lemma default_buckets_scalars s s' :
  mods s = default_buckets ->
  apply_mods s = (Ok tt, s') ->
  p_modded (criticalChance s') = p_base (criticalChance s')
  /\ p_modded (criticalMultiplier s') = p_base (criticalMultiplier s')
  /\ p_modded (procChance s') = p_base (procChance s')
  /\ p_modded (multishot s') = p_base (multishot s')
  /\ p_modded (fireRate s') = p_base (fireRate s')
  /\ p_modded (reloadTime s') = p_base (reloadTime s')
  /\ mp_modded (magazineSize s') = mp_base (magazineSize s')
  /\ p_modded (chargeTime s') = p_base (chargeTime s')
  /\ p_modded (embedDelay s') = p_base (embedDelay s')
  /\ p_modded (ammoCost s') = p_base (ammoCost s').
Proof.
  intros Hmods H.
  pose proof (apply_mods_scalars _ _ H) as Hs. cbv zeta in Hs.
  destruct (apply_mods_frame _ _ H)
    as (_ & _ & _ & _ & _ & _ & _ & B1 & B2 & B3 & B4 & B5 & B6 & B7 & B8 & B9 & B10 & _).
  rewrite Hmods in Hs.
  rewrite B1, B2, B3, B4, B5, B6, B7, B8, B9, B10.
  destruct Hs as (S1 & S2 & S3 & S4 & S5 & (_ & S6) & S7 & (_ & S8) & S9 & S10).
  rewrite S1, S2, S3, S4, S5, S6, S7, S8, S9, S10.
  default_entries.
  rewrite !py_max_zero_one, !Qc_one_plus_zero, !Qc_div_one.
  repeat split; ring.
Qed.

(** The damage vector under the default buckets, for a base without [nan]. *)
Lemma default_buckets_damage s s' l :
  mods s = default_buckets ->
  dp_base (damagePerShot s) = np_array l ->
  apply_mods s = (Ok tt, s') ->
  modded_array (damagePerShot s') = np_array l.
Proof.
  intros Hmods Hb H.
  pose proof (apply_mods_damage _ _ H) as Hd. cbv zeta in Hd.
  rewrite Hmods, Hb in Hd. rewrite Hd. default_entries.
  destruct (py_sum_np_array l) as [t Ht]. rewrite Ht.
  destruct (nmax_nonzero t) as (m & Hm & Hm0). rewrite Hm.
  exact (damage_without_mods l m Hm0).
Qed.

Lemma np_array_lookup l i x : np_array l !! i = Some x -> exists y, x = Some y.
Proof.
  unfold np_array. rewrite list_lookup_fmap. destruct (l !! i) as [y|]; [|discriminate].
  intros Hx. inversion Hx. eauto.
Qed.

Lemma nmul_zero x : nmul (Some x) (Some 0) = Some 0.
Proof. cbn [nmul]. f_equal. ring. Qed.

(** The elemental vector under the default buckets. *)
Lemma default_buckets_elemental s s' l :
  mods s = default_buckets ->
  dp_base (damagePerShot s) = np_array l ->
  modded_array (elementalDamagePerShot s) = np_zeros 20 ->
  apply_mods s = (Ok tt, s') ->
  modded_array (elementalDamagePerShot s') = np_zeros 20.
Proof.
  intros Hmods Hb Hz H.
  pose proof (default_buckets_damage _ _ _ Hmods Hb H) as Hd.
  destruct (apply_mods_elemental _ _ H)
    as (x0 & x1 & x2 & impact & puncture & slash & heat & cold & electric & toxin
        & L0 & L1 & L2 & E0 & E1 & E2 & E3 & E4 & E5 & E6 & _ & ->).
  rewrite Hmods in E0, E1, E2, E3, E4, E5, E6.
  rewrite Hd in L0, L1, L2. rewrite Hd, Hz.
  apply np_array_lookup in L0, L1, L2.
  destruct L0 as [y0 ->], L1 as [y1 ->], L2 as [y2 ->].
  destruct (py_sum_np_array l) as [t ->].
  assert (forall (b : Buckets -> gmap string Qc) v,
             b default_buckets !! "base" = Some v ->
             entry (b default_buckets) "base" = Q2Qc 0 -> v = 0) as Hv.
  { intros b v Hl. unfold entry. rewrite Hl. auto. }
  apply Hv in E0, E1, E2, E3, E4, E5, E6; try (vm_compute; reflexivity).
  subst. rewrite !nmul_zero. reflexivity.
Qed.

Lemma FireMode_init_header MAX_TIME_OFFSET weapon_data n fm :
  FireMode_init MAX_TIME_OFFSET weapon_data n = Ok fm ->
  name fm = n /\ fire_mode_effects fm = [] /\ mods fm = default_buckets
  /\ refresh fm = true.
Proof.
  intros H. destruct (FireMode_init_inv _ _ _ _ H)
    as (l & d & s0 & s' & _ & _ & _ & E & -> & Hmods & I1 & _ & I3 & _).
  destruct (apply_mods_frame _ _ E) as (F0 & F1 & _ & F3 & _).
  cbn [name fire_mode_effects mods refresh set_refresh].
  rewrite F0, F1, F3, Hmods, I1, I3. repeat split.
Qed.

(** X21: a constructed fire mode has its name, no effect, the default
    buckets and [refresh] set; each base value is the value of the data
    record or the constructor's default for an absent key, but for the
    critical multiplier, whose base is that value [v] quantized to
    [round(v * (128 - 1/32)) / (128 - 1/32)]; and, no modifier being
    loaded, every modded value equals its base, the magazine is full and
    the elemental vector is zero. *)
Theorem FireMode_init_fresh MAX_TIME_OFFSET weapon_data n fm :
  FireMode_init MAX_TIME_OFFSET weapon_data n = Ok fm ->
  let d := data fm in
  (name fm = n /\ fire_mode_effects fm = [] /\ mods fm = default_buckets
   /\ refresh fm = true /\ attack_index fm = 1%Z
   /\ trigger fm = default "AUTO" (d_trigger d)
   /\ forcedProc fm = default [] (d_forcedProc d))
  /\ (dp_base (damagePerShot fm)
        = default (np_zeros 20) (np_array <$> d_damagePerShot d)
      /\ p_base (criticalChance fm) = default 0 (d_criticalChance d)
      /\ p_base (criticalMultiplier fm)
         = quantize_critical_multiplier (default 1 (d_criticalMultiplier d))
      /\ p_base (procChance fm) = default 0 (d_procChance d)
      /\ mp_base (magazineSize fm) = default (Qc_of_Z 100) (d_magazineSize d)
      /\ p_base (fireRate fm) = default (Qc_of_Z 5) (d_fireRate d)
      /\ p_base (reloadTime fm) = default 1 (d_reloadTime d)
      /\ p_base (multishot fm) = default 1 (d_multishot d)
      /\ p_base (ammoCost fm) = default 1 (d_ammoCost d)
      /\ p_base (chargeTime fm) = default 0 (d_chargeTime d)
      /\ p_base (embedDelay fm) = default 0 (d_embedDelay d))
  /\ (modded_array (damagePerShot fm) = dp_base (damagePerShot fm)
      /\ modded_array (elementalDamagePerShot fm) = np_zeros 20
      /\ dp_base (elementalDamagePerShot fm) = np_zeros 20
      /\ p_modded (criticalChance fm) = p_base (criticalChance fm)
      /\ p_modded (criticalMultiplier fm) = p_base (criticalMultiplier fm)
      /\ p_modded (procChance fm) = p_base (procChance fm)
      /\ p_modded (multishot fm) = p_base (multishot fm)
      /\ p_modded (fireRate fm) = p_base (fireRate fm)
      /\ p_modded (reloadTime fm) = p_base (reloadTime fm)
      /\ mp_modded (magazineSize fm) = mp_base (magazineSize fm)
      /\ mp_current (magazineSize fm) = mp_base (magazineSize fm)
      /\ p_modded (chargeTime fm) = p_base (chargeTime fm)
      /\ p_modded (embedDelay fm) = p_base (embedDelay fm)
      /\ p_modded (ammoCost fm) = p_base (ammoCost fm)).
Proof.
  intros H. destruct (FireMode_init_inv _ _ _ _ H)
    as (l & d & s0 & s' & _ & _ & _ & E & -> & Hmods & I1 & I2 & I3 & I4 & I5 & I6 & I7
        & I8 & I9 & I10 & I11 & I12 & I13 & I14 & I15 & I16 & I17 & _ & I18).
  destruct (apply_mods_frame _ _ E)
    as (F0 & F1 & F2 & F3 & F4 & F5 & B0 & B1 & B2 & B3 & B4 & B5 & B6 & B7 & B8 & B9
        & B10 & B11).
  cbv zeta.
  cbn [name data fire_mode_effects mods refresh attack_index trigger forcedProc
       damagePerShot elementalDamagePerShot criticalChance criticalMultiplier procChance
       magazineSize fireRate reloadTime multishot ammoCost chargeTime embedDelay
       set_refresh].
  assert (forcedProc s' = forcedProc s0) as F6.
  { clear -E. run_apply_mods E. subst s'. norm_fm_goal. reflexivity. }
  assert (exists v, dp_base (damagePerShot s0) = np_array v) as [v Hv].
  { rewrite I6. cbn [DamageParameter_init dp_base].
    destruct (d_damagePerShot d) as [v|].
    - exists v. reflexivity.
    - exists (replicate 20 0). unfold np_zeros, np_array. rewrite fmap_replicate.
      reflexivity. }
  assert (modded_array (elementalDamagePerShot s0) = np_zeros 20) as Hz
      by (rewrite I7; reflexivity).
  assert (dp_modded (elementalDamagePerShot s0) = SameAsBase) as Ha
      by (rewrite I7; reflexivity).
  destruct (apply_mods_elemental_alias _ _ Ha E) as [_ Hb].
  split; [|split].
  - rewrite F0, F1, F2, F3, F4, F5, F6, Hmods, I1, I2, I3, I4, I5, I17.
    repeat split.
  - rewrite F2, B0, B1, B2, B3, B4, B5, B6, B7, B8, B9, B10, I2.
    rewrite I6, I8, I9, I10, I11, I12, I13, I14, I15, I16, I18.
    repeat split.
  - rewrite Hb.
    rewrite (default_buckets_elemental _ _ _ Hmods Hv Hz E).
    rewrite (default_buckets_damage _ _ _ Hmods Hv E), B0, Hv.
    destruct (default_buckets_scalars _ _ Hmods E)
      as (S1 & S2 & S3 & S4 & S5 & S6 & S7 & S8 & S9 & S10).
    repeat split; try assumption.
    rewrite B11, B10, I10. reflexivity.
Qed.

Lemma FireMode_init_fresh_witness :
  exists fm,
    FireMode_init 0 rifle_weapon "primary" = Ok fm
    /\ mods fm = default_buckets
    /\ p_base (fireRate fm) = Qc_of_Z 5
    /\ p_base (criticalMultiplier fm) = Q2Qc (8192 # 4095)
    /\ p_modded (fireRate fm) = p_base (fireRate fm)
    /\ mp_current (magazineSize fm) = mp_base (magazineSize fm).
Proof.
  destruct (FireMode_init 0 rifle_weapon "primary") as [fm|e] eqn:E;
    [| vm_compute in E; discriminate].
  destruct (FireMode_init_fresh 0 rifle_weapon "primary" fm E)
    as ((_ & _ & Hm & _) & (_ & _ & Hq & _ & _ & Hf & _)
        & (_ & _ & _ & _ & _ & _ & _ & Hfm & _ & _ & Hc & _)).
  assert (data fm = rifle_data) as Hdata.
  { destruct (FireMode_init_inv _ _ _ _ E)
      as (l & d & s0 & s' & Hl & Hd & _ & A & -> & _ & _ & Hdata & _).
    destruct (apply_mods_frame _ _ A) as (_ & _ & Hd' & _).
    cbn [data set_refresh]. rewrite Hd', Hdata.
    inversion Hl; subst l. cbn in Hd. inversion Hd. reflexivity. }
  exists fm. split; [reflexivity|]. split; [exact Hm|].
  split; [|split; [|split; [exact Hfm | exact Hc]]].
  - rewrite Hf, Hdata. reflexivity.
  - rewrite Hq, Hdata. by_eval.
Defined.

(** ** Weapons *)

(** The list comprehension over the fire modes. *)
Lemma fire_modes_inv MAX_TIME_OFFSET weapon_data names modes :
  foldr (fun n acc => fm <~ FireMode_init MAX_TIME_OFFSET weapon_data n ;;
                      l <~ acc ;; Ok (fm :: l)) (Ok []) names = Ok modes ->
  Forall2 (fun n fm => FireMode_init MAX_TIME_OFFSET weapon_data n = Ok fm) names modes.
Proof.
  revert modes. induction names as [|n names IH]; intros modes; cbn [foldr].
  - intros H. inversion H. constructor.
  - intros H. apply rbind_ok_inv in H. destruct H as (fm & Hfm & H).
    apply rbind_ok_inv in H. destruct H as (l & Hl & H). inversion H; subst.
    constructor; [exact Hfm | apply IH; exact Hl].
Qed.

Lemma fire_modes_ok MAX_TIME_OFFSET weapon_data names :
  Forall (fun n => exists fm, FireMode_init MAX_TIME_OFFSET weapon_data n = Ok fm) names ->
  exists modes,
    foldr (fun n acc => fm <~ FireMode_init MAX_TIME_OFFSET weapon_data n ;;
                        l <~ acc ;; Ok (fm :: l)) (Ok []) names = Ok modes.
Proof.
  induction 1 as [|n names [fm Hfm] _ [modes IH]]; cbn [foldr].
  - eauto.
  - rewrite Hfm, IH. cbn [rbind]. eauto.
Qed.

Lemma fire_modes_fresh MAX_TIME_OFFSET weapon_data names modes :
  Forall2 (fun n fm => FireMode_init MAX_TIME_OFFSET weapon_data n = Ok fm) names modes ->
  name <$> modes = names
  /\ Forall (fun fm => fire_mode_effects fm = [] /\ mods fm = default_buckets
                       /\ refresh fm = true
                       /\ assoc (name fm) (default [] (wd_fireModes weapon_data))
                          = Some (data fm)
                       /\ no_effects (data fm) /\ damage_fits (data fm))
            modes.
Proof.
  induction 1 as [|k fm keys modes Hfm _ [IH1 IH2]].
  - split; [reflexivity | constructor].
  - cbn [fmap list_fmap].
    destruct (FireMode_init_header _ _ _ _ Hfm) as (Hn & He & Hb & Hr).
    pose proof (FireMode_init_fits _ _ _ _ Hfm) as Hfit.
    destruct (FireMode_init_inv _ _ _ _ Hfm)
      as (l & d & s0 & s' & Hl & Hd & Hno & E & -> & _ & _ & Hdata & _).
    destruct (apply_mods_frame _ _ E) as (_ & _ & Hd' & _).
    split; [f_equal; [exact Hn | exact IH1]|].
    constructor; [|exact IH2].
    split; [exact He|]. split; [exact Hb|]. split; [exact Hr|].
    cbn [data set_refresh name] in *. rewrite Hd', Hdata in Hfit.
    rewrite Hd', Hdata, Hn, Hl. cbn [default]. auto.
Qed.

(** X22: the constructor of a weapon returns exactly when each fire
    mode of the weapon's data has no secondary effect and a damage vector
    of 20 slots, if any. *)
Theorem Weapon_init_returns_iff MAX_TIME_OFFSET export n :
  let l := default [] (wd_fireModes (get_weapon_data export n)) in
  (exists w, Weapon_init MAX_TIME_OFFSET export n = Ok w)
  <-> Forall (fun k => exists d, assoc k l = Some d /\ no_effects d /\ damage_fits d) l.*1.
Proof.
  cbv zeta. split.
  - intros [w H]. unfold Weapon_init in H.
    apply rbind_ok_inv in H. destruct H as (modes & Hm & _).
    apply fire_modes_inv in Hm. destruct (fire_modes_fresh _ _ _ _ Hm) as [Hn Hall].
    rewrite <- Hn. apply Forall_fmap. apply list.Forall_forall. intros fm Hfm.
    rewrite list.Forall_forall in Hall.
    destruct (Hall fm Hfm) as (_ & _ & _ & Ha & Hno & Hfit).
    cbn [compose]. exists (data fm). auto.
  - intros Hall. unfold Weapon_init.
    destruct (fire_modes_ok MAX_TIME_OFFSET (get_weapon_data export n)
                (default [] (wd_fireModes (get_weapon_data export n))).*1)
      as [modes Hm].
    + apply list.Forall_forall. intros k Hk.
      rewrite list.Forall_forall in Hall. destruct (Hall k Hk) as (d & Hd & Hno & Hfit).
      destruct (wd_fireModes (get_weapon_data export n)) as [l|] eqn:El;
        [|discriminate Hd].
      change (assoc k l = Some d) in Hd.
      exact (FireMode_init_ok MAX_TIME_OFFSET _ k l d El Hd Hno Hfit).
    + rewrite Hm. cbn [rbind]. eauto.
Qed.

(** X23: a constructed weapon has its name, the data and riven type of
    the file, and one fire mode per key of [fireModes], in the order of
    the keys; each is built from the record of its name, has no effect and
    the default buckets. *)
Theorem Weapon_init_fire_modes MAX_TIME_OFFSET export n w :
  Weapon_init MAX_TIME_OFFSET export n = Ok w ->
  let wd := get_weapon_data export n in
  wp_name w = n /\ wp_data w = wd
  /\ riven_type w = default "" (wd_rivenType wd)
  /\ name <$> fire_modes w = (default [] (wd_fireModes wd)).*1
  /\ Forall (fun fm => fire_mode_effects fm = [] /\ mods fm = default_buckets
                       /\ refresh fm = true
                       /\ assoc (name fm) (default [] (wd_fireModes wd)) = Some (data fm)
                       /\ no_effects (data fm) /\ damage_fits (data fm))
            (fire_modes w).
Proof.
  unfold Weapon_init. intros H. apply rbind_ok_inv in H. destruct H as (modes & Hm & H).
  inversion H; subst w; clear H. cbv zeta. cbn [wp_name wp_data riven_type fire_modes].
  split; [reflexivity|]. split; [reflexivity|]. split; [reflexivity|].
  apply fire_modes_inv in Hm. exact (fire_modes_fresh _ _ _ _ Hm).
Qed.

Lemma Weapon_init_fire_modes_witness :
  exists w,
    Weapon_init 0 sample_export "Rifle" = Ok w
    /\ name <$> fire_modes w = ["primary"]
    /\ Forall (fun fm => fire_mode_effects fm = [] /\ mods fm = default_buckets)
              (fire_modes w).
Proof.
  destruct (Weapon_init 0 sample_export "Rifle") as [w|e] eqn:E;
    [| vm_compute in E; discriminate].
  destruct (Weapon_init_fire_modes 0 sample_export "Rifle" w E)
    as (_ & _ & _ & Hn & Hall).
  exists w. split; [reflexivity|]. split; [exact Hn|].
  apply list.Forall_forall. intros fm Hfm. rewrite list.Forall_forall in Hall.
  destruct (Hall fm Hfm) as (He & Hm & _). auto.
Defined.

(** X24: a name that is not in the file raises nothing: the weapon has
    empty data, the riven type [""] and no fire mode. *)
Theorem Weapon_init_unknown MAX_TIME_OFFSET export n :
  assoc n export = None ->
  Weapon_init MAX_TIME_OFFSET export n = Ok (mkWeapon n (mkWeaponData None None) "" []).
Proof. intros H. unfold Weapon_init, get_weapon_data. rewrite H. reflexivity. Qed.

Lemma Weapon_init_unknown_witness :
  Weapon_init 0 sample_export "Sword" = Ok (mkWeapon "Sword" (mkWeaponData None None) "" []).
Proof. apply (Weapon_init_unknown 0 sample_export "Sword"). reflexivity. Defined.

(** X25: [Weapon.reset] is idempotent and keeps the fire modes' names
    and order. *)
Theorem Weapon_reset_twice w :
  Weapon_reset (Weapon_reset w) = Weapon_reset w
  /\ name <$> fire_modes (Weapon_reset w) = name <$> fire_modes w.
Proof.
  unfold Weapon_reset. cbn [wp_name wp_data riven_type fire_modes].
  induction (fire_modes w) as [|fm l IH]; [split; reflexivity|].
  destruct IH as [IH1 IH2]. cbn [fmap list_fmap] in *.
  rewrite FireMode_reset_idempotent. split.
  - inversion IH1 as [IH3]. rewrite !IH3. reflexivity.
  - rewrite IH2, FireMode_reset_flat. reflexivity.
Qed.
